(** * PCDLoader: a shallow embedding of [src/PCDLoader.js]

    The development follows the source top-down inside [parse]:
    the LZF decompressor ([decompressLZF]), the header parser
    ([parseHeader]), the three body decoders and the assembly of the
    geometry attributes.  JavaScript values are modelled as the code uses
    them: typed arrays as lists of bytes updated by index, strings as
    lists of UTF-16 code units, numbers as IEEE-754 binary64 values, the
    [offset] object as a finite map from property names to numbers, and
    exceptions as an explicit outcome. *)

From Stdlib Require Import ZArith List Lia Bool Strings.Byte String Ascii SpecFloat.
From stdpp Require Import base option list gmap.

Local Open Scope Z_scope.

(** ** Outcomes of a call *)

(** The exceptions the code can raise.  [LzfOutput] and [LzfInvalid] are
    the two [throw new Error(...)] of [decompressLZF]; [TypeError] and
    [RangeError] are raised by the language and the typed-array classes. *)
Inductive exn : Type :=
| LzfOutput    (* 'Output buffer is not large enough' *)
| LzfInvalid   (* 'Invalid compressed data' *)
| TypeError
| RangeError.

(** A call returns a value, throws, or does not return. *)
Inductive res (A : Type) : Type :=
| Ok (a : A)
| Throw (e : exn)
| NoReturn.
Arguments Ok {A} a.
Arguments Throw {A} e.
Arguments NoReturn {A}.

Definition bind {A B : Type} (r : res A) (k : A -> res B) : res B :=
  match r with
  | Ok a => k a
  | Throw e => Throw e
  | NoReturn => NoReturn
  end.

Notation "'do' x <- r ; k" := (bind r (fun x => k))
  (at level 10, x name, r at level 100, k at level 200).

Definition res_map {A B : Type} (f : A -> B) (r : res A) : res B :=
  do a <- r; Ok (f a).

(** ** Bytes *)

Definition byte_val (b : byte) : Z := Z.of_N (Byte.to_N b).

(** Storing a number in a [Uint8Array] keeps its low eight bits. *)
Definition byte_of (z : Z) : byte :=
  match Byte.of_N (Z.to_N (z mod 256)) with
  | Some b => b
  | None => x00
  end.

(** ** The LZF decompressor (lines 64-118) *)

Module LZF.

(** The mutable locals of [decompressLZF]: the two cursors and the output
    buffer, a [Uint8Array] of fixed length. *)
Record state : Type := State {
  inPtr : nat;
  outPtr : nat;
  outData : list byte
}.

(** Reading a typed array past its end gives [undefined]; stored into a
    [Uint8Array], or used in integer arithmetic, [undefined] is 0. *)
Definition rd (a : list byte) (i : nat) : byte :=
  match a !! i with
  | Some b => b
  | None => x00
  end.

(** [outData[outPtr++] = inData[inPtr++]] *)
Definition literal_body (inData : list byte) (s : state) : state :=
  State (S (inPtr s)) (S (outPtr s))
        (<[outPtr s := rd inData (inPtr s)]> (outData s)).

(** [do { ... } while (--ctrl)], entered with [ctrl = S n]. *)
Fixpoint literal_loop (n : nat) (inData : list byte) (s : state) : state :=
  let s' := literal_body inData s in
  match n with
  | O => s'
  | S n' => literal_loop n' inData s'
  end.

(** [outData[outPtr++] = outData[ref++]] *)
Definition ref_body (rs : nat * state) : nat * state :=
  let (ref, s) := rs in
  (S ref, State (inPtr s) (S (outPtr s))
                (<[outPtr s := rd (outData s) ref]> (outData s))).

(** [do { ... } while (--len + 2)], entered with [len + 2 = S n]. *)
Fixpoint ref_loop (n : nat) (rs : nat * state) : nat * state :=
  let rs' := ref_body rs in
  match n with
  | O => rs'
  | S n' => ref_loop n' rs'
  end.

(** One pass through the body of the outer [do ... while] (lines 79-114).
    [ctrl] is [None] when the control byte is read past the input end:
    [undefined < 32] is false and [undefined >> 5], [undefined & 0x1f]
    are 0. *)
Definition iter (inData : list byte) (outLength : nat) (s : state) : res state :=
  let inLength := length inData in
  let ctrl := byte_val <$> (inData !! inPtr s) in
  let inPtr1 := S (inPtr s) in
  let outP := outPtr s in
  if (match ctrl with Some c => c <? 32 | None => false end) then
    let ctrl1 := default 0 ctrl + 1 in
    if Z.of_nat outP + ctrl1 >? Z.of_nat outLength then Throw LzfOutput
    else if Z.of_nat inPtr1 + ctrl1 >? Z.of_nat inLength then Throw LzfInvalid
    else Ok (literal_loop (Z.to_nat (ctrl1 - 1)) inData
                          (State inPtr1 outP (outData s)))
  else
    let c := default 0 ctrl in
    let len := Z.shiftr c 5 in
    let ref := Z.of_nat outP - Z.shiftl (Z.land c 31) 8 - 1 in
    if (length inData <=? inPtr1)%nat then Throw LzfInvalid
    else
      let k (len : Z) (inPtr2 : nat) : res state :=
        let ref := ref - byte_val (rd inData inPtr2) in
        let inPtr3 := S inPtr2 in
        if Z.of_nat outP + len + 2 >? Z.of_nat outLength then Throw LzfOutput
        else if ref <? 0 then Throw LzfInvalid
        else if ref >=? Z.of_nat outP then Throw LzfInvalid
        else Ok (snd (ref_loop (Z.to_nat (len + 1))
                               (Z.to_nat ref, State inPtr3 outP (outData s)))) in
      if len =? 7 then
        let len := len + byte_val (rd inData inPtr1) in
        let inPtr2 := S inPtr1 in
        if (length inData <=? inPtr2)%nat then Throw LzfInvalid
        else k len inPtr2
      else k len inPtr1.

(** The outer loop: after each pass, [while (inPtr < inLength)].  Every
    pass advances [inPtr], so [S (length inData)] passes are enough
    ([loop_returns] below). *)
Fixpoint loop (fuel : nat) (inData : list byte) (outLength : nat)
    (s : state) : res state :=
  match fuel with
  | O => NoReturn
  | S fuel' =>
      do s' <- iter inData outLength s;
      if (inPtr s' <? length inData)%nat
      then loop fuel' inData outLength s'
      else Ok s'
  end.

Definition init (outLength : nat) : state :=
  State 0 0 (replicate outLength x00).

Definition decompressLZF (inData : list byte) (outLength : nat) : res (list byte) :=
  res_map outData (loop (S (length inData)) inData outLength (init outLength)).

(** *** The stream format

    Modelled from the spec: the repository contains no compressor, so a
    matching compressor is any producer of a well-formed token sequence
    in the stream format of section 4.2: a literal run of 1 to 32 bytes,
    or a back-reference that copies [len + 2] bytes starting [off + 1]
    bytes behind the write position, with [len] between 1 and 7 + 255
    and [off] below 2^13. *)
Inductive token : Type :=
| Lit (bs : list byte)
| Ref (len off : nat).

Definition wf_token (t : token) : bool :=
  match t with
  | Lit bs => (1 <=? length bs)%nat && (length bs <=? 32)%nat
  | Ref len off =>
      (1 <=? len)%nat && (Z.of_nat len <=? 7 + 255) && (Z.of_nat off <? 2 ^ 13)
  end.

Definition serialize_token (t : token) : list byte :=
  match t with
  | Lit bs => byte_of (Z.of_nat (length bs) - 1) :: bs
  | Ref len off =>
      let hi := Z.of_nat off / 256 in
      let lo := Z.of_nat off mod 256 in
      if (len <? 7)%nat
      then [byte_of (Z.of_nat len * 32 + hi); byte_of lo]
      else [byte_of (7 * 32 + hi); byte_of (Z.of_nat len - 7); byte_of lo]
  end.

Definition serialize (ts : list token) : list byte :=
  concat (serialize_token <$> ts).

(** The [n] bytes a back-reference starting at [start] stands for: the
    bytes from [start] to the end of [out], repeated. *)
Definition pattern (out : list byte) (start n : nat) : list byte :=
  (fun k => rd out (start + k mod (length out - start))) <$> seq 0 n.

Definition apply_token (out : list byte) (t : token) : option (list byte) :=
  match t with
  | Lit bs => Some (out ++ bs)
  | Ref len off =>
      if (off <? length out)%nat
      then Some (out ++ pattern out (length out - S off) (len + 2))
      else None
  end.

Fixpoint expand (out : list byte) (ts : list token) : option (list byte) :=
  match ts with
  | [] => Some out
  | t :: ts' =>
      match apply_token out t with
      | Some out' => expand out' ts'
      | None => None
      end
  end.

(** Number of output bytes a token stands for. *)
Definition token_bytes (t : token) : nat :=
  match t with
  | Lit bs => length bs
  | Ref len _ => (len + 2)%nat
  end.

(** The zero-filled buffer of which [out] has been written. *)
Definition filled (out : list byte) (outLength : nat) : list byte :=
  out ++ replicate (outLength - length out) x00.

(** [ts] is a compressed form of [s]. *)
Definition encodes (ts : list token) (s : list byte) : Prop :=
  forallb wf_token ts = true /\ expand [] ts = Some s.

(** A compressor that finds no repetition: literal runs of at most 32
    bytes. *)
Fixpoint literal_runs (run : list byte) (s : list byte) : list token :=
  match s with
  | [] => match run with [] => [] | _ => [Lit run] end
  | b :: s' =>
      if (length run <? 32)%nat
      then literal_runs (run ++ [b]) s'
      else Lit run :: literal_runs [b] s'
  end.

Definition compress_literals (s : list byte) : list token := literal_runs [] s.

(** A sample stream: "abc", six bytes copied from three bytes back, then
    "x". *)
Definition stream_abc : list token :=
  [Lit [x61; x62; x63]; Ref 4 2; Lit [x78]].

Definition bytes_abc : list byte :=
  [x61; x62; x63; x61; x62; x63; x61; x62; x63; x78].

(** *** The loop heads of a run *)

(** The states in which the outer loop body is entered. *)
Inductive reach (inData : list byte) (outLength : nat) : state -> Prop :=
| reach_init : reach inData outLength (init outLength)
| reach_iter s s' :
    reach inData outLength s ->
    iter inData outLength s = Ok s' ->
    (inPtr s' < length inData)%nat ->
    reach inData outLength s'.

(** What the control sequence at the read cursor says, in the words of
    section 4.2. *)
Definition ctrl_at (inData : list byte) (s : state) : option Z :=
  byte_val <$> (inData !! inPtr s).

(** Number of input bytes of the control sequence that starts with [c]. *)
Definition seq_size (c : Z) : nat :=
  if c <? 32 then S (Z.to_nat (c + 1))
  else if Z.shiftr c 5 =? 7 then 3%nat else 2%nat.

Definition ref_len (inData : list byte) (s : state) (c : Z) : Z :=
  if Z.shiftr c 5 =? 7
  then 7 + byte_val (rd inData (S (inPtr s)))
  else Z.shiftr c 5.

Definition distance_byte (inData : list byte) (s : state) (c : Z) : Z :=
  byte_val (rd inData (if Z.shiftr c 5 =? 7 then S (S (inPtr s)) else S (inPtr s))).

Definition ref_start (inData : list byte) (s : state) (c : Z) : Z :=
  Z.of_nat (outPtr s) - Z.shiftl (Z.land c 31) 8 - 1 - distance_byte inData s c.

Definition truncated (inData : list byte) (s : state) : bool :=
  match ctrl_at inData s with
  | Some c => (length inData <? inPtr s + seq_size c)%nat
  | None => false
  end.

Definition ref_before_start (inData : list byte) (s : state) : bool :=
  match ctrl_at inData s with
  | Some c => (32 <=? c) && (ref_start inData s c <? 0)
  | None => false
  end.

Definition ref_not_behind (inData : list byte) (s : state) : bool :=
  match ctrl_at inData s with
  | Some c => (32 <=? c) && (Z.of_nat (outPtr s) <=? ref_start inData s c)
  | None => false
  end.

Definition write_past_end (inData : list byte) (outLength : nat) (s : state) : bool :=
  match ctrl_at inData s with
  | Some c =>
      if c <? 32 then Z.of_nat outLength <? Z.of_nat (outPtr s) + (c + 1)
      else Z.of_nat outLength <? Z.of_nat (outPtr s) + (ref_len inData s c + 2)
  | None => false
  end.

Definition malformed_at (inData : list byte) (outLength : nat) (s : state) : bool :=
  truncated inData s || ref_before_start inData s || ref_not_behind inData s
  || write_past_end inData outLength s.

End LZF.

(** ** Strings

    A string is its sequence of UTF-16 code units. *)
Definition jsstring : Type := list Z.

(** String literals of the source, which are all ASCII. *)
Definition lit (s : string) : jsstring :=
  (fun a => Z.of_N (N_of_ascii a)) <$> list_ascii_of_string s.

Definition LF : Z := 10.
Definition CR : Z := 13.
Definition SP : Z := 32.

(** Relative index of [slice]: negative counts from the end, and the
    result is clamped to the length. *)
Definition slice_index (len : nat) (i : Z) : nat :=
  if i <? 0 then Z.to_nat (Z.max (Z.of_nat len + i) 0)
  else Nat.min (Z.to_nat i) len.

(** [String.prototype.slice] and [ArrayBuffer.prototype.slice]:
    [s.slice(start)] is [slice s start None], [s.slice(start, stop)] is
    [slice s start (Some stop)]. *)
Definition slice {A : Type} (s : list A) (start : Z) (stop : option Z) : list A :=
  let len := length s in
  let from := slice_index len start in
  let to := match stop with Some e => slice_index len e | None => len end in
  take (to - from) (drop from s).

(** [s.split(sep)] for a separator of one code unit. *)
Fixpoint split (sep : Z) (s : jsstring) : list jsstring :=
  match s with
  | [] => [[]]
  | c :: s' =>
      if c =? sep then [] :: split sep s'
      else match split sep s' with
           | w :: ws => (c :: w) :: ws
           | [] => [[c]]
           end
  end.

(** [fields.indexOf(name)] and [fields.findIndex(f => f === name)]:
    the first index, [None] for -1. *)
Fixpoint indexOf (l : list jsstring) (x : jsstring) : option nat :=
  match l with
  | [] => None
  | y :: l' => if decide (y = x) then Some O else S <$> indexOf l' x
  end.

(** *** Character classes of regular expressions *)

(** White space and line terminators: [\s], and what [parseInt] and
    [parseFloat] skip at the start. *)
Definition is_space (c : Z) : bool :=
  (c =? 9) || (c =? 10) || (c =? 11) || (c =? 12) || (c =? 13) || (c =? 32)
  || (c =? 160) || (c =? 5760) || ((8192 <=? c) && (c <=? 8202))
  || (c =? 8232) || (c =? 8233) || (c =? 8239) || (c =? 8287)
  || (c =? 12288) || (c =? 65279).

Definition is_line_terminator (c : Z) : bool :=
  (c =? 10) || (c =? 13) || (c =? 8232) || (c =? 8233).

(** [.] *)
Definition dot (c : Z) : bool := negb (is_line_terminator c).

(** [\S] *)
Definition non_space (c : Z) : bool := negb (is_space c).

(** [[\r\n]] *)
Definition cr_or_lf (c : Z) : bool := (c =? CR) || (c =? LF).

(** A pattern character under the [i] flag.  The pattern characters of
    the source are ASCII, and no code unit above 127 is canonicalized to
    an ASCII one, so only the two cases of a letter match. *)
Definition upper (c : Z) : Z :=
  if (97 <=? c) && (c <=? 122) then c - 32 else c.

Definition chr_i (p : Z) (c : Z) : bool := upper c =? upper p.

(** *** A backtracking matcher

    The regular expressions of the source are sequences of single
    characters, greedy stars of a character class and one capture
    group. *)
Inductive atom : Type :=
| Chr (p : Z -> bool)
| Star (p : Z -> bool)
| Open
| Close.

Definition regex : Type := list atom.

(** [match_here r s pos cs ce]: match [r] at the front of [s], which
    starts [pos] code units after the start of the match; [cs] and [ce]
    are the bounds of the capture.  A star first takes as many
    characters as it can and gives them back one at a time. *)
Fixpoint match_here (r : regex) (s : jsstring) (pos cs ce : nat)
    : option (nat * nat * nat) :=
  match r with
  | [] => Some (pos, cs, ce)
  | Chr p :: r' =>
      match s with
      | c :: s' => if p c then match_here r' s' (S pos) cs ce else None
      | [] => None
      end
  | Star p :: r' =>
      (fix star (s : jsstring) (pos : nat) {struct s} : option (nat * nat * nat) :=
         match s with
         | c :: s' =>
             if p c then
               match star s' (S pos) with
               | Some m => Some m
               | None => match_here r' s pos cs ce
               end
             else match_here r' s pos cs ce
         | [] => match_here r' s pos cs ce
         end) s pos
  | Open :: r' => match_here r' s pos pos ce
  | Close :: r' => match_here r' s pos cs pos
  end.

(** The result of [exec]: the index of the match, the matched text
    ([result[0]]) and the capture ([result[1]]). *)
Record match_result : Type := Match {
  m_index : nat;
  m_text : jsstring;
  m_group : jsstring
}.

Fixpoint exec_from (r : regex) (s : jsstring) (i : nat) : option match_result :=
  match match_here r s 0 0 0 with
  | Some (n, cs, ce) => Some (Match i (take n s) (take (ce - cs) (drop cs s)))
  | None =>
      match s with
      | [] => None
      | _ :: s' => exec_from r s' (S i)
      end
  end.

(** [r.exec(s)]; [None] is [null]. *)
Definition exec (r : regex) (s : jsstring) : option match_result := exec_from r s 0.

(** [s.search(r)] *)
Definition search (r : regex) (s : jsstring) : Z :=
  match exec r s with
  | Some m => Z.of_nat (m_index m)
  | None => -1
  end.

(** [s.replace(r, '')] for a regular expression with the [g] flag. *)
Fixpoint remove_all (fuel : nat) (r : regex) (s : jsstring) : jsstring :=
  match fuel with
  | O => s
  | S fuel' =>
      match match_here r s 0 0 0 with
      | Some (S n, _, _) => remove_all fuel' r (drop (S n) s)
      | _ =>
          match s with
          | [] => []
          | c :: s' => c :: remove_all fuel' r s'
          end
      end
  end.

Definition replace_all_empty (r : regex) (s : jsstring) : jsstring :=
  remove_all (S (length s)) r s.

Definition word_i (w : string) : regex := (fun c => Chr (chr_i c)) <$> lit w.

(** The pattern of lines 126 and 128: [[\r\n]DATA\s], the capture of
    [\S*], and [\s]; flag [i]. *)
Definition re_DATA : regex :=
  [Chr cr_or_lf] ++ word_i "DATA" ++ [Chr is_space; Open; Star non_space; Close; Chr is_space].

(** The pattern of line 136: [#] and [.*]; flags [g] and [i]. *)
Definition re_comment : regex := [Chr (chr_i 35); Star dot].

(** The patterns of lines 139-147: the keyword, a space and the capture
    of [.*]; flag [i]. *)
Definition re_keyword (k : string) : regex :=
  word_i k ++ [Chr (chr_i SP); Open; Star dot; Close].

(** *** Decoding the buffer as text

    [new TextDecoder().decode(data)]: UTF-8, every malformed sequence
    replaced by U+FFFD, one leading byte order mark dropped. *)

(** The first byte of a sequence: a code point to emit, or the state
    (code point so far, bytes needed, bounds of the next byte). *)
Definition utf8_lead (v : Z) : Z + (Z * nat * Z * Z) :=
  if v <=? 127 then inl v
  else if (194 <=? v) && (v <=? 223) then inr (Z.land v 31, 1%nat, 128, 191)
  else if (224 <=? v) && (v <=? 239) then
    inr (Z.land v 15, 2%nat, if v =? 224 then 160 else 128, if v =? 237 then 159 else 191)
  else if (240 <=? v) && (v <=? 244) then
    inr (Z.land v 7, 3%nat, if v =? 240 then 144 else 128, if v =? 244 then 143 else 191)
  else inl 65533.

Fixpoint utf8_decode (bs : list byte) (cp : Z) (needed : nat) (lower upper : Z)
    : list Z :=
  match bs with
  | [] => match needed with O => [] | _ => [65533] end
  | b :: bs' =>
      let v := byte_val b in
      let start (pre : list Z) :=
        match utf8_lead v with
        | inl c => pre ++ c :: utf8_decode bs' 0 0 128 191
        | inr (cp', n, lo, hi) => pre ++ utf8_decode bs' cp' n lo hi
        end in
      match needed with
      | O => start []
      | S n =>
          if (lower <=? v) && (v <=? upper) then
            let cp' := Z.lor (Z.shiftl cp 6) (Z.land v 63) in
            match n with
            | O => cp' :: utf8_decode bs' 0 0 128 191
            | _ => utf8_decode bs' cp' n 128 191
            end
          else start [65533]
      end
  end.

(** Code points as UTF-16 code units. *)
Definition utf16 (c : Z) : list Z :=
  if c <? 65536 then [c]
  else [55296 + Z.shiftr (c - 65536) 10; 56320 + Z.land (c - 65536) 1023].

Definition TextDecoder_decode (data : list byte) : jsstring :=
  let cps := utf8_decode data 0 0 128 191 in
  let cps := match cps with
             | c :: rest => if c =? 65279 then rest else cps
             | [] => cps
             end in
  concat (utf16 <$> cps).

(** ** Numbers

    A number is an IEEE-754 binary64 value; [SpecFloat] gives the
    arithmetic, with round to nearest, ties to even. *)
Definition num : Type := spec_float.

Definition NaN : num := S754_nan.
Definition of_Z (z : Z) : num := binary_normalize 53 1024 z 0 false.
Definition add : num -> num -> num := SFadd 53 1024.
Definition mul : num -> num -> num := SFmul 53 1024.
Definition div : num -> num -> num := SFdiv 53 1024.
Definition ltb : num -> num -> bool := SFltb.

(** [ToNumber]: [undefined] is [NaN], [null] is [+0]. *)
Definition undefined_to_num (o : option num) : num := default NaN o.
Definition null_to_num (o : option num) : num := default (S754_zero false) o.

(** The integer part, rounded towards zero, of a finite number. *)
Definition truncate (n : num) : option Z :=
  match n with
  | S754_zero _ => Some 0
  | S754_finite s m e =>
      let v := if 0 <=? e then Z.pos m * 2 ^ e else Z.pos m / 2 ^ (- e) in
      Some (if s then - v else v)
  | _ => None
  end.

(** The value of a number that is an integer. *)
Definition integer_value (n : num) : option Z :=
  match n with
  | S754_zero _ => Some 0
  | S754_finite s m e =>
      if 0 <=? e then Some ((if s then -1 else 1) * (Z.pos m * 2 ^ e))
      else if Z.pos m mod 2 ^ (- e) =? 0
           then Some ((if s then -1 else 1) * (Z.pos m / 2 ^ (- e)))
           else None
  | _ => None
  end.

(** [ToInt32], the operand conversion of [>>] and [&]. *)
Definition to_int32 (n : num) : Z :=
  match truncate n with
  | Some z => (z + 2 ^ 31) mod 2 ^ 32 - 2 ^ 31
  | None => 0
  end.

(** [ToIndex], applied to the offset argument of the [DataView]
    getters. *)
Definition to_index (n : num) : res nat :=
  match n with
  | S754_nan => Ok O
  | S754_infinity _ => Throw RangeError
  | _ =>
      match truncate n with
      | Some z => if (z <? 0) || (2 ^ 53 - 1 <? z) then Throw RangeError
                  else Ok (Z.to_nat z)
      | None => Throw RangeError
      end
  end.

(** [a[n]] for an array [a] and a number [n]: an element when [n] is an
    array index, [undefined] otherwise. *)
Definition element {A : Type} (a : list A) (n : num) : option A :=
  match integer_value n with
  | Some z => if 0 <=? z then a !! Z.to_nat z else None
  | None => None
  end.

(** *** [parseInt] and [parseFloat] *)

Fixpoint trim_start (s : jsstring) : jsstring :=
  match s with
  | c :: s' => if is_space c then trim_start s' else s
  | [] => []
  end.

Definition digit_value (c : Z) : option Z :=
  if (48 <=? c) && (c <=? 57) then Some (c - 48)
  else if (97 <=? c) && (c <=? 122) then Some (c - 97 + 10)
  else if (65 <=? c) && (c <=? 90) then Some (c - 65 + 10)
  else None.

(** The longest prefix of digits of radix [R]: its value continuing
    [acc], the number of digits, and the rest. *)
Fixpoint digits (R : Z) (s : jsstring) (acc : Z) (n : nat) : Z * nat * jsstring :=
  match s with
  | c :: s' =>
      match digit_value c with
      | Some d => if d <? R then digits R s' (acc * R + d) (S n) else (acc, n, s)
      | None => (acc, n, s)
      end
  | [] => (acc, n, s)
  end.

Definition strip_sign (s : jsstring) : bool * jsstring :=
  match s with
  | 45 :: s' => (true, s')
  | 43 :: s' => (false, s')
  | _ => (false, s)
  end.

(** [parseInt(s, radix)]; [s = None] is [undefined], whose string form
    has no digit, and [radix = None] is a call with one argument. *)
Definition parseInt (s : option jsstring) (radix : option Z) : num :=
  match s with
  | None => NaN
  | Some s =>
      let (neg, s1) := strip_sign (trim_start s) in
      let R := default 0 radix in
      if negb (R =? 0) && ((R <? 2) || (36 <? R)) then NaN
      else
        let strip := (R =? 0) || (R =? 16) in
        let R := if R =? 0 then 10 else R in
        let '(R, s2) :=
          match s1 with
          | 48 :: x :: s' =>
              if strip && ((x =? 120) || (x =? 88)) then (16, s') else (R, s1)
          | _ => (R, s1)
          end in
        let '(v, n, _) := digits R s2 0 0 in
        match n with
        | O => NaN
        | _ => binary_normalize 53 1024 (if neg then - v else v) 0 neg
        end
  end.

(** The number nearest to [m * 10 ^ e10].  For a negative exponent the
    quotient is computed with at least three bits more than a mantissa
    holds, the last one recording whether the division left a
    remainder. *)
Definition of_decimal (neg : bool) (m e10 : Z) : num :=
  match m with
  | Zpos _ =>
      if 0 <=? e10 then
        match m * 10 ^ e10 with
        | Zpos v => binary_round 53 1024 neg v 0
        | _ => NaN
        end
      else
        let d := 10 ^ (- e10) in
        let p := Z.max 0 (Z.log2 d - Z.log2 m + 57) in
        let q := (m * 2 ^ p) / d in
        let r := (m * 2 ^ p) mod d in
        match 2 * q + (if r =? 0 then 0 else 1) with
        | Zpos v => binary_round 53 1024 neg v (- (p + 1))
        | _ => NaN
        end
  | _ => S754_zero neg
  end.

Fixpoint starts_with (p s : jsstring) : option jsstring :=
  match p, s with
  | [], _ => Some s
  | a :: p', b :: s' => if a =? b then starts_with p' s' else None
  | _ :: _, [] => None
  end.

Definition exponent_part (s : jsstring) : Z :=
  match s with
  | c :: s' =>
      if (c =? 101) || (c =? 69) then
        let (neg, s'') := strip_sign s' in
        let '(v, n, _) := digits 10 s'' 0 0 in
        match n with
        | O => 0
        | _ => if neg then - v else v
        end
      else 0
  | [] => 0
  end.

(** [parseFloat(s)]: the longest prefix that is a decimal literal. *)
Definition parseFloat (s : option jsstring) : num :=
  match s with
  | None => NaN
  | Some s =>
      let (neg, s1) := strip_sign (trim_start s) in
      match starts_with (lit "Infinity") s1 with
      | Some _ => S754_infinity neg
      | None =>
          let '(i, ni, s2) := digits 10 s1 0 0 in
          match s2 with
          | 46 :: s3 =>
              let '(m, nf, s4) := digits 10 s3 i 0 in
              match ni, nf with
              | O, O => NaN
              | _, _ => of_decimal neg m (exponent_part s4 - Z.of_nat nf)
              end
          | _ =>
              match ni with
              | O => NaN
              | _ => of_decimal neg i (exponent_part s2)
              end
          end
      end
  end.

(** *** binary32 *)

(** The number with the given binary32 encoding. *)
Definition f32_of_bits (w : Z) : num :=
  let s := Z.testbit w 31 in
  let ex := Z.land (Z.shiftr w 23) 255 in
  let mant := Z.land w (2 ^ 23 - 1) in
  let sign (m : Z) := if s then - m else m in
  if ex =? 255 then (if mant =? 0 then S754_infinity s else S754_nan)
  else if ex =? 0 then binary_normalize 53 1024 (sign mant) (-149) s
  else binary_normalize 53 1024 (sign (mant + 2 ^ 23)) (ex - 150) s.

(** The binary32 encoding of the nearest binary32 value, read as a
    signed integer: [new Int32Array(farr.buffer)[0]] after
    [farr[0] = n]. *)
Definition bits_of_f32 (n : num) : Z :=
  let sign (s : bool) := if s then 2 ^ 31 else 0 in
  let rounded :=
    match n with
    | S754_finite s m e => binary_round 24 128 s m e
    | _ => n
    end in
  let w :=
    match rounded with
    | S754_zero s => sign s
    | S754_infinity s => sign s + 255 * 2 ^ 23
    | S754_nan => 255 * 2 ^ 23 + 2 ^ 22
    | S754_finite s m e =>
        if Z.pos m <? 2 ^ 23 then sign s + Z.pos m
        else sign s + (e + 150) * 2 ^ 23 + (Z.pos m - 2 ^ 23)
    end in
  if w <? 2 ^ 31 then w else w - 2 ^ 32.

(** *** Typed arrays and [DataView] *)

Definition little_endian (bs : list byte) : Z :=
  foldr (fun b acc => byte_val b + 256 * acc) 0 bs.

(** The [size] bytes of the view at [ToIndex(byteOffset)], in
    little-endian order. *)
Definition view_bytes (view : list byte) (byteOffset : num) (size : nat)
    (littleEndian : bool) : res (list byte) :=
  do i <- to_index byteOffset;
  if (length view <? i + size)%nat then Throw RangeError
  else
    let bs := take size (drop i view) in
    Ok (if littleEndian then bs else reverse bs).

Definition getFloat32 (view : list byte) (byteOffset : num) (littleEndian : bool)
    : res num :=
  do bs <- view_bytes view byteOffset 4 littleEndian;
  Ok (f32_of_bits (little_endian bs)).

Definition getInt32 (view : list byte) (byteOffset : num) (littleEndian : bool)
    : res num :=
  do bs <- view_bytes view byteOffset 4 littleEndian;
  let w := little_endian bs in
  Ok (of_Z (if w <? 2 ^ 31 then w else w - 2 ^ 32)).

Definition getUint8 (view : list byte) (byteOffset : num) : res num :=
  do bs <- view_bytes view byteOffset 1 true;
  Ok (of_Z (little_endian bs)).

(** ** The header parser (lines 121-202) *)

Module PCD.

Record PCDheader : Type := Header {
  data : jsstring;
  headerLen : Z;
  str : jsstring;
  version : option num;
  fields : list jsstring;
  size : option (list num);
  type : option (list jsstring);
  count : list num;
  width : option num;
  height : option num;
  viewpoint : option jsstring;
  points : num;
  offset : gmap jsstring num;
  rowSize : num
}.

(** [PCDheader.data === s] *)
Definition data_is (h : PCDheader) (s : string) : bool :=
  bool_decide (data h = lit s).

(** [o[k] = v] on an object created by [{}]: the name [__proto__] is an
    accessor inherited from [Object.prototype] whose setter ignores a
    number; every other name becomes, or updates, an own property. *)
Definition set_property (o : gmap jsstring num) (k : jsstring) (v : num)
    : gmap jsstring num :=
  if decide (k = lit "__proto__") then o else <[k := v]> o.

(** [a[i]] in arithmetic: [undefined], past the end, is [NaN]. *)
Definition item (a : list num) (i : nat) : num := undefined_to_num (a !! i).

(** The loop of lines 190-197 from index [i] on, [rest] being the
    fields not yet visited; the state is [PCDheader.offset] and
    [sizeSum].  Reading [PCDheader.size[i]] throws when [size] is
    [null]. *)
Fixpoint offset_loop (ascii : bool) (size : option (list num)) (count : list num)
    (rest : list jsstring) (i : nat) (st : gmap jsstring num * num)
    : res (gmap jsstring num * num) :=
  match rest with
  | [] => Ok st
  | f :: rest' =>
      let (offset, sizeSum) := st in
      do st' <- (if ascii then Ok (set_property offset f (of_Z (Z.of_nat i)), sizeSum)
                 else
                   let offset := set_property offset f sizeSum in
                   match size with
                   | None => Throw TypeError
                   | Some sz => Ok (offset, add sizeSum (mul (item sz i) (item count i)))
                   end);
      offset_loop ascii size count rest' (S i) st'
  end.

(** The capture of the pattern of a keyword, [None] for [null]. *)
Definition keyword (k : string) (s : jsstring) : option jsstring :=
  m_group <$> exec (re_keyword k) s.

(** Lines 126-132: the value of the [DATA] line and the length of the
    header.  Reading [result2[1]] throws when [result2] is [null]. *)
Definition find_DATA (data : jsstring) : res (jsstring * Z) :=
  let result1 := search re_DATA data in
  match exec re_DATA (slice data (result1 - 1) None) with
  | None => Throw TypeError
  | Some result2 =>
      Ok (m_group result2, Z.of_nat (length (m_text result2)) + result1)
  end.

Definition parseHeader (data : jsstring) : res PCDheader :=
  do found <- find_DATA data;
  match found with
  | (data_, headerLen) =>
      let str := replace_all_empty re_comment (slice data 0 (Some headerLen)) in
      let version := (fun v => parseFloat (Some v)) <$> keyword "VERSION" str in
      let fields :=
        match keyword "FIELDS" str with
        | Some v => split SP v
        | None => []
        end in
      let type := split SP <$> keyword "TYPE" str in
      let width := (fun v => parseInt (Some v) None) <$> keyword "WIDTH" str in
      let height := (fun v => parseInt (Some v) None) <$> keyword "HEIGHT" str in
      let viewpoint := keyword "VIEWPOINT" str in
      let points :=
        match keyword "POINTS" str with
        | Some v => parseInt (Some v) (Some 10)
        | None => mul (null_to_num width) (null_to_num height)
        end in
      let size :=
        (fun v => (fun x => parseInt (Some x) (Some 10)) <$> split SP v)
          <$> keyword "SIZE" str in
      let count :=
        match keyword "COUNT" str with
        | Some v => (fun x => parseInt (Some x) (Some 10)) <$> split SP v
        | None => replicate (length fields) (of_Z 1)
        end in
      do st <- offset_loop (bool_decide (data_ = lit "ascii")) size count fields 0
                           (∅, of_Z 0);
      Ok (Header data_ headerLen str version fields size type count width height
                 viewpoint points (fst st) (snd st))
  end.

(** ** The body decoders and the geometry (lines 204-419) *)

(** The five arrays [position], [normal], [color], [intensity] and
    [label]; [push] appends. *)
Record arrays : Type := Arrays {
  position : list num;
  normal : list num;
  color : list num;
  intensity : list num;
  label : list num
}.

Definition push_position (a : arrays) (vs : list num) : arrays :=
  Arrays (position a ++ vs) (normal a) (color a) (intensity a) (label a).
Definition push_normal (a : arrays) (vs : list num) : arrays :=
  Arrays (position a) (normal a ++ vs) (color a) (intensity a) (label a).
Definition push_color (a : arrays) (vs : list num) : arrays :=
  Arrays (position a) (normal a) (color a ++ vs) (intensity a) (label a).
Definition push_intensity (a : arrays) (vs : list num) : arrays :=
  Arrays (position a) (normal a) (color a) (intensity a ++ vs) (label a).
Definition push_label (a : arrays) (vs : list num) : arrays :=
  Arrays (position a) (normal a) (color a) (intensity a) (label a ++ vs).

(** [offset.name !== undefined] *)
Definition has (h : PCDheader) (name : string) : bool :=
  bool_decide (is_Some (offset h !! lit name)).

(** [offset.name] in arithmetic. *)
Definition off (h : PCDheader) (name : string) : num :=
  undefined_to_num (offset h !! lit name).

(** The number of passes of [for (let i = 0; i < points; i++)], [None]
    when the condition never fails.  [i] counts 0, 1, 2, ... exactly up
    to 2^53 and then stays there, [2^53 + 1] being rounded to [2^53];
    so the first [i] that is not below [points] is the least integer
    not below it, if that is at most 2^53. *)
Definition iterations (points : num) : option nat :=
  match points with
  | S754_infinity false => None
  | S754_finite false m e =>
      let c := if 0 <=? e then Z.pos m * 2 ^ e
               else (Z.pos m + 2 ^ (- e) - 1) / 2 ^ (- e) in
      if c <=? 2 ^ 53 then Some (Z.to_nat c) else None
  | _ => Some O
  end.

(** The value of the loop variable in pass number [i]. *)
Definition loop_var (i : nat) : num := of_Z (Z.min (Z.of_nat i) (2 ^ 53)).

Fixpoint for_rows {St : Type} (n i : nat) (body : num -> St -> res St) (s : St)
    : res St :=
  match n with
  | O => Ok s
  | S n' => do s' <- body (loop_var i) s; for_rows n' (S i) body s'
  end.

(** When the condition never fails the loop ends with the first pass
    that throws, [NoReturn] standing for a loop that goes on.  (The
    limits of memory and of array lengths are not modelled.) *)
Definition for_points {St : Type} (points : num) (body : num -> St -> res St)
    (s : St) : res St :=
  match iterations points with
  | Some n => for_rows n 0 body s
  | None => do _ <- for_rows (S (Z.to_nat (2 ^ 53))) 0 body s; NoReturn
  end.

(** The loop as it is written, with [i < points] tested before each
    pass; [fuel] bounds the number of passes. *)
Fixpoint for_tested {St : Type} (fuel i : nat) (points : num)
    (body : num -> St -> res St) (s : St) : res St :=
  match fuel with
  | O => NoReturn
  | S fuel' =>
      if ltb (loop_var i) points
      then do s' <- body (loop_var i) s; for_tested fuel' (S i) points body s'
      else Ok s
  end.

Section Parse.

(** [c.set(r, g, b).convertSRGBToLinear()] followed by reading [c.r],
    [c.g] and [c.b]: the colour conversion of the three.js library. *)
Variable convertSRGBToLinear : num * num * num -> num * num * num.

(** [littleEndian] is [this.littleEndian]. *)
Variable littleEndian : bool.

Definition linear_color (r g b : num) : list num :=
  let '(r', g', b') := convertSRGBToLinear (r, g, b) in [r'; g'; b'].

(** *** ascii (lines 223-279) *)

(** [line[offset.name]]: [undefined] when the offset is [undefined] or
    there is no such token. *)
Definition token (h : PCDheader) (line : list jsstring) (name : string)
    : option jsstring :=
  match offset h !! lit name with
  | Some n => element line n
  | None => None
  end.

(** Lines 245-261: the colour of a line, as the three elements pushed.
    Reading an index of [PCDheader.type] throws when it is [null]. *)
Definition ascii_color (h : PCDheader) (line : list jsstring) : res (list num) :=
  let rgb_field_index := indexOf (fields h) (lit "rgb") in
  match type h with
  | None => Throw TypeError
  | Some ty =>
      let rgb_type := rgb_field_index ≫= (ty !!.) in
      let float := parseFloat (token h line "rgb") in
      let rgb :=
        if bool_decide (rgb_type = Some (lit "F"))
        then bits_of_f32 float
        else to_int32 float in
      let r := div (of_Z (Z.land (Z.shiftr rgb 16) 255)) (of_Z 255) in
      let g := div (of_Z (Z.land (Z.shiftr rgb 8) 255)) (of_Z 255) in
      let b := div (of_Z (Z.land (Z.shiftr rgb 0) 255)) (of_Z 255) in
      Ok (linear_color r g b)
  end.

(** The body of the loop over the lines, lines 233-277. *)
Definition ascii_line (h : PCDheader) (text : jsstring) (a : arrays) : res arrays :=
  if bool_decide (text = []) then Ok a
  else
    let line := split SP text in
    let a :=
      if has h "x"
      then push_position a [parseFloat (token h line "x");
                            parseFloat (token h line "y");
                            parseFloat (token h line "z")]
      else a in
    do a <- (if has h "rgb"
             then do c <- ascii_color h line; Ok (push_color a c)
             else Ok a);
    let a :=
      if has h "normal_x"
      then push_normal a [parseFloat (token h line "normal_x");
                          parseFloat (token h line "normal_y");
                          parseFloat (token h line "normal_z")]
      else a in
    let a :=
      if has h "intensity"
      then push_intensity a [parseFloat (token h line "intensity")]
      else a in
    let a :=
      if has h "label"
      then push_label a [parseInt (token h line "label") None]
      else a in
    Ok a.

Fixpoint ascii_lines (h : PCDheader) (lines : list jsstring) (a : arrays)
    : res arrays :=
  match lines with
  | [] => Ok a
  | text :: lines' => do a' <- ascii_line h text a; ascii_lines h lines' a'
  end.

Definition ascii_body (h : PCDheader) (textData : jsstring) (a : arrays)
    : res arrays :=
  let pcdData := slice textData (headerLen h) None in
  ascii_lines h (split LF pcdData) a.

(** *** binary_compressed (lines 286-349) *)

(** [PCDheader.size[fields.indexOf(name)]]; reading an index of [null]
    throws. *)
Definition size_of (h : PCDheader) (name : string) : res num :=
  match size h with
  | None => Throw TypeError
  | Some sz => Ok (undefined_to_num (indexOf (fields h) (lit name) ≫= (sz !!.)))
  end.

(** [(PCDheader.points * offset.name) + PCDheader.size[index] * i] *)
Definition column_address (h : PCDheader) (name : string) (i : num) : res num :=
  do sz <- size_of h name;
  Ok (add (mul (points h) (off h name)) (mul sz i)).

(** The body of the loop over the points, lines 300-347. *)
Definition compressed_row (h : PCDheader) (dataview : list byte) (i : num)
    (a : arrays) : res arrays :=
  do a <- (if has h "x" then
             do ax <- column_address h "x" i;
             do x <- getFloat32 dataview ax littleEndian;
             do ay <- column_address h "y" i;
             do y <- getFloat32 dataview ay littleEndian;
             do az <- column_address h "z" i;
             do z <- getFloat32 dataview az littleEndian;
             Ok (push_position a [x; y; z])
           else Ok a);
  do a <- (if has h "rgb" then
             do ar <- column_address h "rgb" i;
             do r <- getUint8 dataview (add ar (of_Z 2));
             do ag <- column_address h "rgb" i;
             do g <- getUint8 dataview (add ag (of_Z 1));
             do ab <- column_address h "rgb" i;
             do b <- getUint8 dataview (add ab (of_Z 0));
             Ok (push_color a (linear_color (div r (of_Z 255)) (div g (of_Z 255))
                                            (div b (of_Z 255))))
           else Ok a);
  do a <- (if has h "normal_x" then
             do ax <- column_address h "normal_x" i;
             do x <- getFloat32 dataview ax littleEndian;
             do ay <- column_address h "normal_y" i;
             do y <- getFloat32 dataview ay littleEndian;
             do az <- column_address h "normal_z" i;
             do z <- getFloat32 dataview az littleEndian;
             Ok (push_normal a [x; y; z])
           else Ok a);
  do a <- (if has h "intensity" then
             do ai <- column_address h "intensity" i;
             do v <- getFloat32 dataview ai littleEndian;
             Ok (push_intensity a [v])
           else Ok a);
  if has h "label" then
    do al <- column_address h "label" i;
    do v <- getInt32 dataview al littleEndian;
    Ok (push_label a [v])
  else Ok a.

(** The elements of [new Uint32Array(buffer)]; the platform is taken to
    be little-endian. *)
Fixpoint uint32_elements (bs : list byte) : list Z :=
  match bs with
  | b0 :: b1 :: b2 :: b3 :: bs' => little_endian [b0; b1; b2; b3] :: uint32_elements bs'
  | _ => []
  end.

(** With fewer than eight bytes after the header, [new Uint32Array]
    (length not a multiple of four) or [new Uint8Array] (offset past the
    end) throws a [RangeError]; so does [new Uint8Array] when the
    compressed size exceeds what is left of the buffer. *)
Definition compressed_body (h : PCDheader) (data : list byte) (a : arrays)
    : res arrays :=
  let sizes := slice data (headerLen h) (Some (headerLen h + 8)) in
  match uint32_elements sizes with
  | [compressedSize; decompressedSize] =>
      let start := Z.to_nat (headerLen h + 8) in
      if (length data <? start + Z.to_nat compressedSize)%nat then Throw RangeError
      else
        do decompressed <-
          LZF.decompressLZF (take (Z.to_nat compressedSize) (drop start data))
                            (Z.to_nat decompressedSize);
        for_points (points h) (compressed_row h decompressed) a
  | _ => Throw RangeError
  end.

(** *** binary (lines 352-393) *)

(** The body of the loop over the points, lines 360-391, followed by
    [row += PCDheader.rowSize]; the state is [row] and the arrays. *)
Definition binary_row (h : PCDheader) (dataview : list byte) (i : num)
    (st : num * arrays) : res (num * arrays) :=
  let (row, a) := st in
  do a <- (if has h "x" then
             do x <- getFloat32 dataview (add row (off h "x")) littleEndian;
             do y <- getFloat32 dataview (add row (off h "y")) littleEndian;
             do z <- getFloat32 dataview (add row (off h "z")) littleEndian;
             Ok (push_position a [x; y; z])
           else Ok a);
  do a <- (if has h "rgb" then
             do r <- getUint8 dataview (add (add row (off h "rgb")) (of_Z 2));
             do g <- getUint8 dataview (add (add row (off h "rgb")) (of_Z 1));
             do b <- getUint8 dataview (add (add row (off h "rgb")) (of_Z 0));
             Ok (push_color a (linear_color (div r (of_Z 255)) (div g (of_Z 255))
                                            (div b (of_Z 255))))
           else Ok a);
  do a <- (if has h "normal_x" then
             do x <- getFloat32 dataview (add row (off h "normal_x")) littleEndian;
             do y <- getFloat32 dataview (add row (off h "normal_y")) littleEndian;
             do z <- getFloat32 dataview (add row (off h "normal_z")) littleEndian;
             Ok (push_normal a [x; y; z])
           else Ok a);
  do a <- (if has h "intensity" then
             do v <- getFloat32 dataview (add row (off h "intensity")) littleEndian;
             Ok (push_intensity a [v])
           else Ok a);
  do a <- (if has h "label" then
             do v <- getInt32 dataview (add row (off h "label")) littleEndian;
             Ok (push_label a [v])
           else Ok a);
  Ok (add row (rowSize h), a).

(** [new DataView(data, PCDheader.headerLen)] throws when the offset is
    past the end of the buffer. *)
Definition binary_body (h : PCDheader) (data : list byte) (a : arrays)
    : res arrays :=
  if Z.of_nat (length data) <? headerLen h then Throw RangeError
  else
    let dataview := drop (Z.to_nat (headerLen h)) data in
    do st <- for_points (points h) (binary_row h dataview) (of_Z 0, a);
    Ok (snd st).

(** *** The geometry (lines 398-418) *)

(** The attributes set on the geometry, each holding the array handed
    to its buffer attribute, and [material.vertexColors].  What the
    typed array of an attribute stores of these numbers is [stored],
    among the notions below. *)
Record geometry : Type := Geometry {
  attr_position : option (list num);
  attr_normal : option (list num);
  attr_color : option (list num);
  attr_intensity : option (list num);
  attr_label : option (list num);
  vertexColors : bool
}.

(** [if (a.length > 0) geometry.setAttribute(...)] *)
Definition attribute (a : list num) : option (list num) :=
  if (0 <? length a)%nat then Some a else None.

Definition build (a : arrays) : geometry :=
  Geometry (attribute (position a)) (attribute (normal a)) (attribute (color a))
           (attribute (intensity a)) (attribute (label a))
           (0 <? length (color a))%nat.

Definition parse (data : list byte) : res geometry :=
  let textData := TextDecoder_decode data in
  do h <- parseHeader textData;
  let a := Arrays [] [] [] [] [] in
  do a <- (if data_is h "ascii" then ascii_body h textData a else Ok a);
  do a <- (if data_is h "binary_compressed" then compressed_body h data a else Ok a);
  do a <- (if data_is h "binary" then binary_body h data a else Ok a);
  Ok (build a).

End Parse.

(** ** Notions used in the statements *)

(** [s] begins with the keyword [DATA], in any case. *)
Definition starts_DATA (s : jsstring) : bool :=
  match s with
  | d :: a :: t :: a' :: _ => chr_i 68 d && chr_i 65 a && chr_i 84 t && chr_i 65 a'
  | _ => false
  end.

(** The index of the first CR or LF that the keyword [DATA] follows
    immediately. *)
Fixpoint first_break_before_DATA (s : jsstring) : option nat :=
  match s with
  | [] => None
  | c :: s' =>
      if cr_or_lf c && starts_DATA s' then Some O
      else S <$> first_break_before_DATA s'
  end.

(** The code units of ASCII bytes. *)
Definition codes (bs : list byte) : jsstring := byte_val <$> bs.

Definition is_ascii (b : byte) : bool := byte_val b <? 128.

(** The sum of [size[j] * count[j]] over the indices [j] below [k],
    added up from 0 in index order as numbers are. *)
Fixpoint cumulative (size count : list num) (k : nat) : num :=
  match k with
  | O => of_Z 0
  | S k' => add (cumulative size count k') (mul (item size k') (item count k'))
  end.

(** [f] does not occur in [fields] after index [i]. *)
Definition last_occurrence (fields : list jsstring) (i : nat) (f : jsstring) : Prop :=
  fields !! i = Some f /\ forall j, (i < j)%nat -> fields !! j <> Some f.

(** The byte offset just after the line feed that ends the first line
    starting with the keyword [DATA]: the header length of section 3 of
    the specification. *)
Fixpoint after_line (bs : list byte) (i : nat) : option nat :=
  match bs with
  | [] => None
  | b :: bs' => if byte_val b =? LF then Some (S i) else after_line bs' (S i)
  end.

Fixpoint spec_headerByteLength (at_line_start : bool) (bs : list byte) (i : nat)
    : option nat :=
  match bs with
  | [] => None
  | b :: bs' =>
      if at_line_start && starts_DATA (codes bs) then after_line bs i
      else spec_headerByteLength (byte_val b =? LF) bs' (S i)
  end.

(** The lines of the body that are not empty. *)
Definition nonempty_lines (h : PCDheader) (textData : jsstring) : list jsstring :=
  filter (fun l => l <> []) (split LF (slice textData (headerLen h) None)).

(** The number of rows a decoder goes through: the body lines that are
    not empty, or the passes of the loop over the points. *)
Definition decoded_rows (h : PCDheader) (textData : jsstring) : option nat :=
  if data_is h "ascii" then Some (length (nonempty_lines h textData))
  else if data_is h "binary_compressed" || data_is h "binary"
       then iterations (points h)
       else Some O.

(** Elements pushed per row for a group of fields. *)
Definition group_size (h : PCDheader) (name : string) (k : nat) : nat :=
  if has h name then k else O.

(** [a'] is [a] after [n] rows. *)
Definition grown (h : PCDheader) (n : nat) (a a' : arrays) : Prop :=
  length (position a') = (length (position a) + n * group_size h "x" 3)%nat /\
  length (normal a') = (length (normal a) + n * group_size h "normal_x" 3)%nat /\
  length (color a') = (length (color a) + n * group_size h "rgb" 3)%nat /\
  length (intensity a') = (length (intensity a) + n * group_size h "intensity" 1)%nat /\
  length (label a') = (length (label a) + n * group_size h "label" 1)%nat.

(** [pointCount * fieldOffset[f] + size[f] * i], multiplied and added as
    numbers are; [size[f]] is the size at the first index of [f]. *)
Definition column_address_of (h : PCDheader) (name : string) (i : nat) : num :=
  add (mul (points h) (off h name))
      (mul (undefined_to_num
              (indexOf (fields h) (lit name) ≫= (default [] (size h) !!.)))
           (of_Z (Z.of_nat i))).

(** The three floats a row pushes for a group of fields, read from the
    buffer [buf] at the column addresses of row [i]. *)
Definition float_group (h : PCDheader) (littleEndian : bool) (buf : list byte)
    (i : nat) (n1 n2 n3 : string) (vs : list num) : Prop :=
  if has h n1 then
    exists x y z,
      vs = [x; y; z] /\
      getFloat32 buf (column_address_of h n1 i) littleEndian = Ok x /\
      getFloat32 buf (column_address_of h n2 i) littleEndian = Ok y /\
      getFloat32 buf (column_address_of h n3 i) littleEndian = Ok z
  else vs = [].

(** What row [i] of a compressed body pushes onto the five arrays. *)
Definition row_pushes (convertSRGBToLinear : num * num * num -> num * num * num)
    (littleEndian : bool) (h : PCDheader) (buf : list byte) (i : nat)
    (r : arrays) : Prop :=
  float_group h littleEndian buf i "x" "y" "z" (position r) /\
  float_group h littleEndian buf i "normal_x" "normal_y" "normal_z" (normal r) /\
  (if has h "rgb" then
     exists cr cg cb,
       color r = linear_color convertSRGBToLinear (div cr (of_Z 255))
                   (div cg (of_Z 255)) (div cb (of_Z 255)) /\
       getUint8 buf (add (column_address_of h "rgb" i) (of_Z 2)) = Ok cr /\
       getUint8 buf (add (column_address_of h "rgb" i) (of_Z 1)) = Ok cg /\
       getUint8 buf (add (column_address_of h "rgb" i) (of_Z 0)) = Ok cb
   else color r = []) /\
  (if has h "intensity" then
     exists v,
       intensity r = [v] /\
       getFloat32 buf (column_address_of h "intensity" i) littleEndian = Ok v
   else intensity r = []) /\
  (if has h "label" then
     exists v,
       label r = [v] /\
       getInt32 buf (column_address_of h "label" i) littleEndian = Ok v
   else label r = []).

(** The values [vs] of row [i] stand in the attribute [attr], one group
    of [length vs] elements per row. *)
Definition group_at (attr : option (list num)) (i : nat) (vs : list num) : Prop :=
  vs = [] \/
  exists l, attr = Some l /\
            forall j v, vs !! j = Some v -> l !! (i * length vs + j)%nat = Some v.

Definition append_arrays (a r : arrays) : arrays :=
  Arrays (position a ++ position r) (normal a ++ normal r) (color a ++ color r)
         (intensity a ++ intensity r) (label a ++ label r).

Definition concat_arrays (rows : list arrays) : arrays :=
  Arrays (concat (position <$> rows)) (concat (normal <$> rows))
         (concat (color <$> rows)) (concat (intensity <$> rows))
         (concat (label <$> rows)).

(** A text without its comments: each [#] and what follows it up to,
    not including, the next line terminator is left out.  [in_comment]
    says whether the text starts inside a comment. *)
Fixpoint strip_comments (in_comment : bool) (s : jsstring) : jsstring :=
  match s with
  | [] => []
  | c :: s' =>
      if in_comment then
        if dot c then strip_comments true s' else c :: strip_comments false s'
      else
        if c =? 35 then strip_comments true s' else c :: strip_comments false s'
  end.

(** What a line of an ascii body that is not empty pushes onto the five
    arrays: the numbers parsed from the tokens at the columns of the
    fields. *)
Definition ascii_pushes (convertSRGBToLinear : num * num * num -> num * num * num)
    (h : PCDheader) (text : jsstring) (r : arrays) : Prop :=
  let line := split SP text in
  position r =
    (if has h "x"
     then [parseFloat (token h line "x"); parseFloat (token h line "y");
           parseFloat (token h line "z")]
     else []) /\
  normal r =
    (if has h "normal_x"
     then [parseFloat (token h line "normal_x"); parseFloat (token h line "normal_y");
           parseFloat (token h line "normal_z")]
     else []) /\
  (if has h "rgb" then ascii_color convertSRGBToLinear h line = Ok (color r)
   else color r = []) /\
  intensity r =
    (if has h "intensity" then [parseFloat (token h line "intensity")] else []) /\
  label r = (if has h "label" then [parseInt (token h line "label") None] else []).

(** The value of [row] in pass [i] of the loop of line 358: [rowSize]
    added [i] times to 0, as numbers are added. *)
Fixpoint row_start (h : PCDheader) (i : nat) : num :=
  match i with
  | O => of_Z 0
  | S i' => add (row_start h i') (rowSize h)
  end.

(** What a pass over a binary body pushes onto the five arrays when its
    row starts at [row]: the values read from the view at [row] plus the
    offset of each field (the three colour bytes at that address plus
    2, 1 and 0). *)
Definition binary_pushes (convertSRGBToLinear : num * num * num -> num * num * num)
    (littleEndian : bool) (h : PCDheader) (view : list byte) (row : num)
    (r : arrays) : Prop :=
  (if has h "x" then
     exists x y z,
       position r = [x; y; z] /\
       getFloat32 view (add row (off h "x")) littleEndian = Ok x /\
       getFloat32 view (add row (off h "y")) littleEndian = Ok y /\
       getFloat32 view (add row (off h "z")) littleEndian = Ok z
   else position r = []) /\
  (if has h "normal_x" then
     exists x y z,
       normal r = [x; y; z] /\
       getFloat32 view (add row (off h "normal_x")) littleEndian = Ok x /\
       getFloat32 view (add row (off h "normal_y")) littleEndian = Ok y /\
       getFloat32 view (add row (off h "normal_z")) littleEndian = Ok z
   else normal r = []) /\
  (if has h "rgb" then
     exists cr cg cb,
       color r = linear_color convertSRGBToLinear (div cr (of_Z 255))
                   (div cg (of_Z 255)) (div cb (of_Z 255)) /\
       getUint8 view (add (add row (off h "rgb")) (of_Z 2)) = Ok cr /\
       getUint8 view (add (add row (off h "rgb")) (of_Z 1)) = Ok cg /\
       getUint8 view (add (add row (off h "rgb")) (of_Z 0)) = Ok cb
   else color r = []) /\
  (if has h "intensity" then
     exists v,
       intensity r = [v] /\
       getFloat32 view (add row (off h "intensity")) littleEndian = Ok v
   else intensity r = []) /\
  (if has h "label" then
     exists v,
       label r = [v] /\
       getInt32 view (add row (off h "label")) littleEndian = Ok v
   else label r = []).

(** The rows have the lengths of their groups. *)
Definition row_lengths (h : PCDheader) (r : arrays) : Prop :=
  length (position r) = group_size h "x" 3 /\
  length (normal r) = group_size h "normal_x" 3 /\
  length (color r) = group_size h "rgb" 3 /\
  length (intensity r) = group_size h "intensity" 1 /\
  length (label r) = group_size h "label" 1.

(** The sum of [size[j] * count[j]] over the indices [j] below [k], for
    integer sizes and counts; an index past the end of a list adds
    nothing. *)
Fixpoint integer_sum (size count : list Z) (k : nat) : Z :=
  match k with
  | O => 0
  | S k' => integer_sum size count k' + default 0 (size !! k') * default 0 (count !! k')
  end.

(** The binary32 number stored in the four bytes of [buf] from index
    [k] on. *)
Definition float32_at (littleEndian : bool) (buf : list byte) (k : Z) : num :=
  let bs := take 4 (drop (Z.to_nat k) buf) in
  f32_of_bits (little_endian (if littleEndian then bs else reverse bs)).

(** An integer that numbers hold exactly. *)
Definition small (z : Z) : Prop := 0 <= z < 2 ^ 53.

(** The UTF-8 byte order mark. *)
Definition byte_order_mark : list byte := [xef; xbb; xbf].

(** [s] starts with a line break and a DATA line: a CR or LF, the
    keyword [DATA] in any case, a white-space character, and a value
    ended by a white-space character (the value is what stands before
    the next white-space character, so there has to be one). *)
Definition DATA_line_after_break (s : jsstring) : bool :=
  match s with
  | nl :: d :: a :: t :: a' :: sp :: rest =>
      cr_or_lf nl && starts_DATA [d; a; t; a'] && is_space sp && existsb is_space rest
  | _ => false
  end.

(** The index of the first line break that a DATA line follows. *)
Fixpoint first_DATA_line (s : jsstring) : option nat :=
  match s with
  | [] => None
  | _ :: s' => if DATA_line_after_break s then Some O else S <$> first_DATA_line s'
  end.

(** What an element of a [Float32Array] holds after a number is stored
    in it, read back as a number: the nearest binary32 value, ties to
    even. *)
Definition fround (n : num) : num :=
  match n with
  | S754_finite s m e =>
      match binary_round 24 128 s m e with
      | S754_finite s' m' e' => binary_round 53 1024 s' m' e'
      | r => r
      end
  | _ => n
  end.

(** The elements of [new Float32BufferAttribute(array, itemSize)] and
    of [new Int32BufferAttribute(array, itemSize)]: the typed arrays
    [new Float32Array(array)] and [new Int32Array(array)] of the
    three.js library. *)
Definition Float32BufferAttribute (array : list num) : list num := fround <$> array.
Definition Int32BufferAttribute (array : list num) : list num :=
  (fun n => of_Z (to_int32 n)) <$> array.

(** The geometry with, for each attribute, the elements its typed array
    holds. *)
Definition stored (g : geometry) : geometry :=
  Geometry (Float32BufferAttribute <$> attr_position g)
           (Float32BufferAttribute <$> attr_normal g)
           (Float32BufferAttribute <$> attr_color g)
           (Float32BufferAttribute <$> attr_intensity g)
           (Int32BufferAttribute <$> attr_label g)
           (vertexColors g).

(** *** Sample files *)

Definition eol_LF : string := String (ascii_of_nat 10) EmptyString.
Definition eol_CRLF : string :=
  String (ascii_of_nat 13) (String (ascii_of_nat 10) EmptyString).

(** The lines of a file, each followed by the line ending [eol]. *)
Definition file (eol : string) (lines : list string) : list byte :=
  list_byte_of_string (fold_right (fun l acc => (l ++ eol ++ acc)%string) EmptyString lines).

(** The ASCII file of section 8 of the specification. *)
Definition file_ascii_xyz : list byte :=
  file eol_LF ["FIELDS x y z"; "SIZE 4 4 4"; "TYPE F F F"; "DATA ascii";
               "1 2 3"; "4 5 6"]%string.

(** The same file cut at the line break before its DATA line. *)
Definition ascii_xyz_before : list byte :=
  list_byte_of_string
    ("FIELDS x y z" ++ eol_LF ++ "SIZE 4 4 4" ++ eol_LF ++ "TYPE F F F")%string.

Definition ascii_xyz_payload : list byte :=
  file eol_LF ["1 2 3"; "4 5 6"]%string.

Definition file_width_height : list byte :=
  file eol_LF ["FIELDS x y z"; "SIZE 4 4 4"; "TYPE F F F"; "COUNT 1 1 1";
               "WIDTH 4"; "HEIGHT 2"; "DATA ascii"]%string.

Definition file_DATA_first : list byte :=
  file eol_LF ["DATA ascii"; "1 2 3"]%string.

Definition file_CRLF : list byte :=
  file eol_CRLF ["FIELDS x y z"; "SIZE 4 4 4"; "TYPE F F F"; "DATA ascii";
                 "1 2 3"]%string.

Definition file_proto : list byte :=
  file eol_LF ["FIELDS x __proto__ y"; "SIZE 4 4 4"; "TYPE F F F";
               "POINTS 0"; "DATA binary"]%string.

(** Two points with the fields [x] and [y], compressed as one literal
    run: the sizes 17 and 16, the control byte, then the block of the
    [x] values 1 and 2 and the block of the [y] values 3 and 4. *)
Definition file_compressed_xy : list byte :=
  file eol_LF ["FIELDS x y"; "SIZE 4 4"; "TYPE F F"; "COUNT 1 1"; "WIDTH 2";
               "HEIGHT 1"; "POINTS 2"; "DATA binary_compressed"]%string
  ++ [x11; x00; x00; x00; x10; x00; x00; x00]
  ++ [x0f]
  ++ [x00; x00; x80; x3f; x00; x00; x00; x40]
  ++ [x00; x00; x40; x40; x00; x00; x80; x40].

Definition file_no_points : list byte :=
  file eol_LF ["FIELDS x y z"; "SIZE 4 4 4"; "TYPE F F F"; "POINTS 0";
               "DATA ascii"]%string.

(** A header with comments, one of them naming a keyword. *)
Definition file_commented : list byte :=
  file eol_LF ["# .PCD v0.7 - POINTS 9"; "FIELDS x y z # the coordinates";
               "SIZE 4 4 4"; "TYPE F F F"; "WIDTH 2"; "HEIGHT 1"; "DATA ascii";
               "1 2 3"; "4 5 6"]%string.

(** The keyword of the DATA line is matched in any case, its value is
    not. *)
Definition file_DATA_upper : list byte :=
  file eol_LF ["FIELDS x y z"; "SIZE 4 4 4"; "TYPE F F F"; "DATA ASCII";
               "1 2 3"]%string.

(** A colour field and no TYPE line. *)
Definition file_rgb_untyped : list byte :=
  file eol_LF ["FIELDS x y z rgb"; "SIZE 4 4 4 4"; "DATA ascii";
               "1 2 3 4.2e-40"]%string.

(** A compressed file cut inside its two sizes. *)
Definition file_compressed_cut : list byte :=
  file eol_LF ["FIELDS x y"; "SIZE 4 4"; "TYPE F F"; "POINTS 2";
               "DATA binary_compressed"]%string
  ++ [x11; x00; x00; x00; x10; x00].

(** An ascii file that declares [x] alone. *)
Definition file_ascii_x : list byte :=
  file eol_LF ["FIELDS x"; "SIZE 4"; "TYPE F"; "DATA ascii"; "7"; "8"]%string.

(** Two points with the fields [x] and [y], row after row: 1 and 3,
    then 2 and 4. *)
Definition file_binary_xy : list byte :=
  file eol_LF ["FIELDS x y"; "SIZE 4 4"; "TYPE F F"; "COUNT 1 1"; "POINTS 2";
               "DATA binary"]%string
  ++ [x00; x00; x80; x3f; x00; x00; x40; x40]
  ++ [x00; x00; x00; x40; x00; x00; x80; x40].

(** A point count above 2^53 and no field that a decoder reads. *)
Definition file_unbounded : list byte :=
  file eol_LF ["FIELDS a"; "SIZE 4"; "TYPE F"; "POINTS 9007199254740994";
               "DATA binary"]%string.

(** No point count at all. *)
Definition file_binary_no_count : list byte :=
  file eol_LF ["FIELDS x y z"; "SIZE 4 4 4"; "TYPE F F F"; "DATA binary"]%string
  ++ [x00; x00; x80; x3f].

(** Two points with the fields [x], [y] and [z], row after row: the
    numbers 1 to 6. *)
Definition file_binary_xyz : list byte :=
  file eol_LF ["FIELDS x y z"; "SIZE 4 4 4"; "TYPE F F F"; "COUNT 1 1 1"; "POINTS 2";
               "DATA binary"]%string
  ++ [x00; x00; x80; x3f; x00; x00; x00; x40; x00; x00; x40; x40]
  ++ [x00; x00; x80; x40; x00; x00; xa0; x40; x00; x00; xc0; x40].

(** The same two points compressed as one literal run, field after
    field: the sizes 25 and 24, the control byte, the block of the [x]
    values 1 and 4, of the [y] values 2 and 5, of the [z] values 3 and
    6. *)
Definition file_compressed_xyz : list byte :=
  file eol_LF ["FIELDS x y z"; "SIZE 4 4 4"; "TYPE F F F"; "COUNT 1 1 1"; "POINTS 2";
               "DATA binary_compressed"]%string
  ++ [x19; x00; x00; x00; x18; x00; x00; x00]
  ++ [x17]
  ++ [x00; x00; x80; x3f; x00; x00; x80; x40]
  ++ [x00; x00; x00; x40; x00; x00; xa0; x40]
  ++ [x00; x00; x40; x40; x00; x00; xc0; x40].

(** The binary file of two points cut inside the [x] of its second
    point. *)
Definition file_binary_cut : list byte := take 82 file_binary_xyz.

(** A DATA line first, and a second one after it. *)
Definition file_DATA_twice : list byte :=
  file eol_LF ["DATA ascii"; "DATA ascii"; "1 2 3"]%string.

(** A DATA line first, and a line that starts with the letters of the
    keyword after it. *)
Definition file_DATA_database : list byte :=
  file eol_LF ["DATA ascii"; "database 1"]%string.

(** One point, the numbers 1, 2 and 3, after a header with CRLF line
    endings. *)
Definition file_binary_CRLF : list byte :=
  file eol_CRLF ["FIELDS x y z"; "SIZE 4 4 4"; "TYPE F F F"; "COUNT 1 1 1"; "POINTS 1";
                 "DATA binary"]%string
  ++ [x00; x00; x80; x3f; x00; x00; x00; x40; x00; x00; x40; x40].

(** Fields and no SIZE line, with an encoding in capital letters. *)
Definition file_upper_no_SIZE : list byte :=
  file eol_LF ["FIELDS x y z"; "DATA ASCII"; "1 2 3"]%string.

(** A coordinate that is not a binary32 number and a label above
    2^32. *)
Definition file_ascii_label : list byte :=
  file eol_LF ["FIELDS x y z label"; "SIZE 4 4 4 4"; "TYPE F F F U"; "DATA ascii";
               "0.1 2 3 4294967297"]%string.

End PCD.

(** * Theorems *)

(** ** Bytes *)

Lemma byte_val_range (b : byte) : 0 <= byte_val b < 256.
Proof.
  unfold byte_val. pose proof (Byte.to_N_bounded b). lia.
Qed.

Lemma byte_of_val (b : byte) : byte_of (byte_val b) = b.
Proof.
  unfold byte_of. pose proof (byte_val_range b) as Hr.
  rewrite Z.mod_small by lia. unfold byte_val.
  rewrite N2Z.id, Byte.of_to_N. reflexivity.
Qed.

Lemma byte_val_of (z : Z) : 0 <= z < 256 -> byte_val (byte_of z) = z.
Proof.
  intros Hz. unfold byte_of. rewrite Z.mod_small by lia.
  destruct (Byte.of_N (Z.to_N z)) as [b|] eqn:Hb.
  - apply Byte.to_of_N in Hb. unfold byte_val. rewrite Hb. lia.
  - apply Byte.of_N_None_iff in Hb. lia.
Qed.

(** ** The LZF decompressor *)

Module LZFProofs.
Import LZF.

Lemma rd_lookup (a : list byte) (i : nat) (b : byte) :
  a !! i = Some b -> rd a i = b.
Proof. unfold rd. intros ->. reflexivity. Qed.

Lemma lookup_rd (a : list byte) (i : nat) :
  (i < length a)%nat -> a !! i = Some (rd a i).
Proof.
  intros Hi. unfold rd.
  destruct (a !! i) eqn:E; [reflexivity|].
  apply lookup_ge_None in E. lia.
Qed.

(** *** The two copy loops *)

Lemma literal_loop_spec (n : nat) :
  forall (inData : list byte) (ip w : nat) (out : list byte),
    (w + S n <= length out)%nat ->
    let s' := literal_loop n inData (State ip w out) in
    inPtr s' = (ip + S n)%nat /\
    outPtr s' = (w + S n)%nat /\
    length (outData s') = length out /\
    (forall j, (j < w \/ w + S n <= j)%nat -> outData s' !! j = out !! j) /\
    (forall k, (k < S n)%nat -> outData s' !! (w + k)%nat = Some (rd inData (ip + k))).
Proof.
  induction n as [|n IH]; intros inData ip w out Hlen; cbn [literal_loop].
  - unfold literal_body; cbn.
    repeat split; try lia.
    + apply length_insert.
    + intros j Hj. apply list_lookup_insert_ne. lia.
    + intros k Hk. assert (k = 0)%nat as -> by lia.
      rewrite !Nat.add_0_r. apply list_lookup_insert_eq. lia.
  - unfold literal_body; cbn [inPtr outPtr outData].
    specialize (IH inData (S ip) (S w) (<[w := rd inData ip]> out)).
    rewrite length_insert in IH. specialize (IH ltac:(lia)).
    cbn zeta in IH. destruct IH as (Hi & Ho & Hl & Hout & Hin).
    repeat split; try lia.
    + intros j Hj. rewrite Hout by lia. apply list_lookup_insert_ne. lia.
    + intros k Hk. destruct k as [|k].
      * rewrite !Nat.add_0_r, Hout by lia. apply list_lookup_insert_eq. lia.
      * replace (w + S k)%nat with (S w + k)%nat by lia.
        replace (ip + S k)%nat with (S ip + k)%nat by lia.
        apply Hin. lia.
Qed.

Lemma ref_loop_spec (n : nat) :
  forall (r w ip : nat) (out : list byte),
    (r < w)%nat -> (w + S n <= length out)%nat ->
    let rs' := ref_loop n (r, State ip w out) in
    fst rs' = (r + S n)%nat /\
    inPtr (snd rs') = ip /\
    outPtr (snd rs') = (w + S n)%nat /\
    length (outData (snd rs')) = length out /\
    (forall j, (j < w \/ w + S n <= j)%nat -> outData (snd rs') !! j = out !! j) /\
    (forall k, (k < S n)%nat ->
       outData (snd rs') !! (w + k)%nat = out !! (r + k mod (w - r))%nat).
Proof.
  induction n as [|n IH]; intros r w ip out Hr Hlen; cbn [ref_loop].
  - cbn. repeat split; try lia.
    + apply length_insert.
    + intros j Hj. apply list_lookup_insert_ne. lia.
    + intros k Hk. assert (k = 0)%nat as -> by lia.
      rewrite Nat.Div0.mod_0_l, !Nat.add_0_r.
      rewrite list_lookup_insert_eq by lia.
      symmetry. apply lookup_rd. lia.
  - unfold ref_body; cbn [inPtr outPtr outData].
    specialize (IH (S r) (S w) ip (<[w := rd out r]> out)).
    rewrite length_insert in IH. specialize (IH ltac:(lia) ltac:(lia)).
    cbn zeta in IH. destruct IH as (Hf & Hi & Ho & Hl & Hout & Hpat).
    repeat split; try lia.
    + intros j Hj. rewrite Hout by lia. apply list_lookup_insert_ne. lia.
    + intros k Hk. destruct k as [|k].
      * rewrite Nat.Div0.mod_0_l, !Nat.add_0_r, Hout by lia.
        rewrite list_lookup_insert_eq by lia.
        symmetry. apply lookup_rd. lia.
      * replace (w + S k)%nat with (S w + k)%nat by lia.
        rewrite Hpat by lia.
        replace (S w - S r)%nat with (w - r)%nat by lia.
        set (d := (w - r)%nat). assert (Hd : (0 < d)%nat) by (subst d; lia).
        pose proof (Nat.mod_upper_bound k d ltac:(lia)) as Hk1.
        destruct (decide (k mod d = d - 1)%nat) as [Heq|Hne].
        -- assert (S k mod d = 0)%nat as ->.
           { replace (S k) with (k + 1)%nat by lia.
             rewrite <- Nat.Div0.add_mod_idemp_l, Heq.
             replace (d - 1 + 1)%nat with d by lia. apply Nat.Div0.mod_same. }
           replace (S r + k mod d)%nat with w by (subst d; lia).
           rewrite Nat.add_0_r, list_lookup_insert_eq by lia.
           symmetry. apply lookup_rd. lia.
        -- assert (S k mod d = S (k mod d))%nat as ->.
           { replace (S k) with (k + 1)%nat by lia.
             rewrite <- Nat.Div0.add_mod_idemp_l.
             rewrite Nat.mod_small; lia. }
           rewrite list_lookup_insert_ne by (subst d; lia).
           f_equal. lia.
Qed.

Lemma literal_loop_inPtr (n : nat) (inData : list byte) (s : state) :
  inPtr (literal_loop n inData s) = (inPtr s + S n)%nat.
Proof.
  revert s. induction n as [|n IH]; intros s; cbn [literal_loop].
  - cbn. lia.
  - rewrite IH. cbn. lia.
Qed.

Lemma ref_loop_inPtr (n : nat) (rs : nat * state) :
  inPtr (snd (ref_loop n rs)) = inPtr (snd rs).
Proof.
  revert rs. induction n as [|n IH]; intros [r s]; cbn [ref_loop].
  - reflexivity.
  - rewrite IH. reflexivity.
Qed.

(** *** One pass of the outer loop *)

Lemma shiftr5_bounds (c : Z) : 32 <= c < 256 -> 1 <= Z.shiftr c 5 <= 7.
Proof.
  intros Hc. rewrite Z.shiftr_div_pow2 by lia. change (2 ^ 5) with 32.
  split.
  - apply Z.div_le_lower_bound; lia.
  - apply Z.lt_succ_r. apply Z.div_lt_upper_bound; lia.
Qed.

Lemma land31_shiftl8_bounds (c : Z) :
  0 <= c -> 0 <= Z.shiftl (Z.land c 31) 8 <= 31 * 256.
Proof.
  intros Hc.
  assert (Z.land c 31 = c mod 32) as ->.
  { change 31 with (Z.ones 5). rewrite Z.land_ones by lia. reflexivity. }
  rewrite Z.shiftl_mul_pow2 by lia. change (2 ^ 8) with 256.
  pose proof (Z.mod_pos_bound c 32 ltac:(lia)). lia.
Qed.

(** A pass that reads nothing at the cursor throws. *)
Lemma iter_past_end (inData : list byte) (outLength : nat) (s : state) :
  inData !! inPtr s = None -> iter inData outLength s = Throw LzfInvalid.
Proof.
  intros Hn. unfold iter. rewrite Hn. cbn.
  apply lookup_ge_None in Hn.
  destruct (Nat.leb_spec (length inData) (S (inPtr s))); [reflexivity | lia].
Qed.

Lemma iter_literal_inv (inData : list byte) (outLength : nat) (s s' : state) (b : byte) :
  inData !! inPtr s = Some b -> byte_val b < 32 ->
  iter inData outLength s = Ok s' ->
  Z.of_nat (outPtr s) + byte_val b + 1 <= Z.of_nat outLength /\
  Z.of_nat (inPtr s) + 1 + byte_val b + 1 <= Z.of_nat (length inData) /\
  s' = literal_loop (Z.to_nat (byte_val b)) inData
                    (State (S (inPtr s)) (outPtr s) (outData s)).
Proof.
  intros Hb Hc. unfold iter. rewrite Hb. cbn [fmap option_fmap option_map default from_option id].
  destruct (Z.ltb_spec (byte_val b) 32); [|lia].
  destruct (Z.gtb_spec (Z.of_nat (outPtr s) + (byte_val b + 1)) (Z.of_nat outLength));
    [discriminate|].
  destruct (Z.gtb_spec (Z.of_nat (S (inPtr s)) + (byte_val b + 1))
                       (Z.of_nat (length inData))); [discriminate|].
  intros [= <-]. repeat split; try lia.
  do 2 f_equal. lia.
Qed.

Lemma iter_ref_inv (inData : list byte) (outLength : nat) (s s' : state) (b : byte) :
  inData !! inPtr s = Some b -> 32 <= byte_val b ->
  iter inData outLength s = Ok s' ->
  let c := byte_val b in
  let len := ref_len inData s c in
  let ref := ref_start inData s c in
  0 <= ref < Z.of_nat (outPtr s) /\
  Z.of_nat (outPtr s) + len + 2 <= Z.of_nat outLength /\
  (inPtr s + seq_size c <= length inData)%nat /\
  s' = snd (ref_loop (Z.to_nat (len + 1))
                     (Z.to_nat ref,
                      State (inPtr s + seq_size c) (outPtr s) (outData s))).
Proof.
  intros Hb Hc. unfold iter, ref_len, ref_start, distance_byte, seq_size.
  rewrite Hb. cbn [fmap option_fmap option_map default from_option id].
  destruct (Z.ltb_spec (byte_val b) 32); [lia|].
  destruct (Nat.leb_spec (length inData) (S (inPtr s))); [discriminate|].
  destruct (Z.eqb_spec (Z.shiftr (byte_val b) 5) 7) as [H7|H7].
  - destruct (Nat.leb_spec (length inData) (S (S (inPtr s)))); [discriminate|].
    match goal with |- context [?a >? ?b] => destruct (Z.gtb_spec a b) end;
      [discriminate|].
    match goal with |- context [?a <? 0] => destruct (Z.ltb_spec a 0) end;
      [discriminate|].
    match goal with |- context [?a >=? ?b] => destruct (Z.geb_spec a b) end;
      [discriminate|].
    intros [= <-]. repeat split; try lia.
    replace (inPtr s + 3)%nat with (S (S (S (inPtr s)))) by lia.
    rewrite H7. reflexivity.
  - match goal with |- context [?a >? ?b] => destruct (Z.gtb_spec a b) end;
      [discriminate|].
    match goal with |- context [?a <? 0] => destruct (Z.ltb_spec a 0) end;
      [discriminate|].
    match goal with |- context [?a >=? ?b] => destruct (Z.geb_spec a b) end;
      [discriminate|].
    intros [= <-]. repeat split; try lia.
    replace (inPtr s + 2)%nat with (S (S (inPtr s))) by lia.
    reflexivity.
Qed.

(** The output buffer keeps its length, and the write cursor stays
    inside it, at every loop head. *)
Lemma iter_outData_length (inData : list byte) (outLength : nat) (s s' : state) :
  length (outData s) = outLength ->
  iter inData outLength s = Ok s' ->
  length (outData s') = outLength /\ (outPtr s' <= outLength)%nat /\
  (inPtr s < inPtr s')%nat.
Proof.
  intros Hlen Hit.
  destruct (inData !! inPtr s) as [b|] eqn:Hb.
  - pose proof (byte_val_range b) as Hr.
    destruct (Z.lt_ge_cases (byte_val b) 32) as [Hc|Hc].
    + destruct (iter_literal_inv _ _ _ _ _ Hb Hc Hit) as (Ho & Hi & ->).
      rewrite literal_loop_inPtr.
      destruct (literal_loop_spec (Z.to_nat (byte_val b)) inData (S (inPtr s))
                  (outPtr s) (outData s) ltac:(lia)) as (_ & Hw & Hl & _).
      rewrite Hl, Hw. cbn. lia.
    + destruct (iter_ref_inv _ _ _ _ _ Hb Hc Hit) as (Hr0 & Ho & Hi & ->).
      rewrite ref_loop_inPtr.
      destruct (ref_loop_spec (Z.to_nat (ref_len inData s (byte_val b) + 1))
                  (Z.to_nat (ref_start inData s (byte_val b)))
                  (outPtr s) (inPtr s + seq_size (byte_val b)) (outData s)
                  ltac:(lia)) as (_ & _ & Hw & Hl & _).
      { pose proof (shiftr5_bounds (byte_val b) ltac:(lia)).
        pose proof (byte_val_range (rd inData (S (inPtr s)))).
        unfold ref_len in *. destruct (Z.shiftr (byte_val b) 5 =? 7); lia. }
      rewrite Hl, Hw. cbn.
      pose proof (shiftr5_bounds (byte_val b) ltac:(lia)).
      pose proof (byte_val_range (rd inData (S (inPtr s)))).
      unfold ref_len, seq_size in *.
      destruct (Z.ltb_spec (byte_val b) 32); [lia|].
      destruct (Z.shiftr (byte_val b) 5 =? 7); lia.
  - rewrite iter_past_end in Hit by assumption. discriminate.
Qed.

Lemma reach_inv (inData : list byte) (outLength : nat) (s : state) :
  reach inData outLength s ->
  length (outData s) = outLength /\ (outPtr s <= outLength)%nat.
Proof.
  induction 1 as [|s s' _ [IH1 IH2] Hit _].
  - cbn. rewrite length_replicate. lia.
  - destruct (iter_outData_length _ _ _ _ IH1 Hit) as (? & ? & _). auto.
Qed.

(** C3.  A control byte [c >= 32] at a loop head of a run, when the pass
    succeeds: the length is [c >> 5], plus the next input byte when that
    is 7; the reference starts at
    [outPtr - ((c & 0x1f) << 8) - 1 - distance byte], inside the bytes
    already written; exactly [len + 2] bytes are written, and the byte
    written at [outPtr + k] is the byte that stood at
    [ref + k mod (outPtr - ref)] before the copy: the bytes between the
    reference and the write cursor, repeated, also where the source of
    the copy overlaps its destination.  Nothing else changes. *)
Theorem back_reference_copy (inData : list byte) (outLength : nat)
    (s s' : state) (b : byte) :
  reach inData outLength s ->
  inData !! inPtr s = Some b ->
  32 <= byte_val b ->
  iter inData outLength s = Ok s' ->
  let c := byte_val b in
  let len := if Z.shiftr c 5 =? 7
             then Z.shiftr c 5 + byte_val (rd inData (S (inPtr s)))
             else Z.shiftr c 5 in
  let distance := byte_val (rd inData (if Z.shiftr c 5 =? 7
                                      then S (S (inPtr s)) else S (inPtr s))) in
  let ref := Z.of_nat (outPtr s) - Z.shiftl (Z.land c 31) 8 - 1 - distance in
  0 <= ref < Z.of_nat (outPtr s) /\
  inPtr s' = (inPtr s + (if (Z.shiftr c 5 =? 7)%Z then 3 else 2))%nat /\
  Z.of_nat (outPtr s') = Z.of_nat (outPtr s) + (len + 2) /\
  length (outData s') = length (outData s) /\
  (forall j, (j < outPtr s \/ outPtr s' <= j)%nat ->
     outData s' !! j = outData s !! j) /\
  (forall k, Z.of_nat k < len + 2 ->
     outData s' !! (outPtr s + k)%nat =
     outData s !! (Z.to_nat ref + k mod (outPtr s - Z.to_nat ref))%nat).
Proof.
  intros Hreach Hb Hc Hit c len distance ref.
  destruct (reach_inv _ _ _ Hreach) as [Hlen Hout].
  destruct (iter_ref_inv _ _ _ _ _ Hb Hc Hit) as (Hr0 & Ho & Hi & ->).
  pose proof (byte_val_range b) as Hrange.
  pose proof (shiftr5_bounds (byte_val b) ltac:(lia)) as Hs.
  pose proof (byte_val_range (rd inData (S (inPtr s)))) as Hx.
  assert (Hlen_eq : ref_len inData s (byte_val b) = len).
  { unfold ref_len, len, c. destruct (Z.eqb_spec (Z.shiftr (byte_val b) 5) 7) as [->|]; reflexivity. }
  assert (Href_eq : ref_start inData s (byte_val b) = ref) by reflexivity.
  rewrite Hlen_eq, Href_eq in *.
  assert (Hlen1 : 1 <= len) by (unfold len, c; destruct (Z.shiftr (byte_val b) 5 =? 7); lia).
  destruct (ref_loop_spec (Z.to_nat (len + 1)) (Z.to_nat ref) (outPtr s)
              (inPtr s + seq_size (byte_val b)) (outData s)
              ltac:(lia) ltac:(lia)) as (_ & Hip & Hw & Hl & Hkeep & Hpat).
  split; [exact Hr0|].
  split.
  { rewrite Hip. unfold seq_size, c.
    destruct (Z.ltb_spec (byte_val b) 32); [lia|].
    destruct (Z.shiftr (byte_val b) 5 =? 7); reflexivity. }
  split; [rewrite Hw; lia|].
  split; [exact Hl|].
  split.
  - intros j Hj. apply Hkeep. rewrite Hw in Hj. lia.
  - intros k Hk. apply Hpat. lia.
Qed.

(** *** The outer loop *)

Lemma iter_progress (inData : list byte) (outLength : nat) (s s' : state) :
  iter inData outLength s = Ok s' ->
  (inPtr s < inPtr s')%nat /\ (inPtr s < length inData)%nat.
Proof.
  intros Hit.
  destruct (inData !! inPtr s) as [b|] eqn:Hb.
  - split; [|apply lookup_lt_Some in Hb; exact Hb].
    destruct (Z.lt_ge_cases (byte_val b) 32) as [Hc|Hc].
    + destruct (iter_literal_inv _ _ _ _ _ Hb Hc Hit) as (_ & _ & ->).
      rewrite literal_loop_inPtr. cbn. lia.
    + destruct (iter_ref_inv _ _ _ _ _ Hb Hc Hit) as (_ & _ & _ & ->).
      rewrite ref_loop_inPtr. cbn. unfold seq_size.
      destruct (byte_val b <? 32); [lia|].
      destruct (Z.shiftr (byte_val b) 5 =? 7); lia.
  - rewrite iter_past_end in Hit by assumption. discriminate.
Qed.

(** Fuel beyond the unread input changes nothing. *)
Lemma loop_enough (inData : list byte) (outLength : nat) (f1 : nat) :
  forall (f2 : nat) (s : state),
    (length inData - inPtr s < f1)%nat ->
    (length inData - inPtr s < f2)%nat ->
    loop f1 inData outLength s = loop f2 inData outLength s.
Proof.
  induction f1 as [|f1 IH]; intros f2 s H1 H2; [lia|].
  destruct f2 as [|f2]; [lia|].
  cbn [loop]. destruct (iter inData outLength s) as [s'| |] eqn:Hit; cbn [bind];
    try reflexivity.
  destruct (iter_progress _ _ _ _ Hit) as [Hp Hq].
  destruct (Nat.ltb_spec (inPtr s') (length inData)); [|reflexivity].
  apply IH; lia.
Qed.

(** The loop always comes to an end. *)
Lemma loop_returns (inData : list byte) (outLength : nat) (f : nat) :
  forall s : state,
    (length inData - inPtr s < f)%nat ->
    loop f inData outLength s <> NoReturn.
Proof.
  induction f as [|f IH]; intros s Hf; [lia|].
  cbn [loop]. destruct (iter inData outLength s) as [s'| |] eqn:Hit; cbn [bind];
    try discriminate.
  - destruct (iter_progress _ _ _ _ Hit) as [Hp Hq].
    destruct (Nat.ltb_spec (inPtr s') (length inData)); [|discriminate].
    apply IH. lia.
  - unfold iter in Hit.
    repeat match type of Hit with
           | (if ?c then _ else _) = _ => destruct c
           | (let _ := _ in _) = _ => cbv zeta in Hit
           end; discriminate.
Qed.

Theorem decompressLZF_returns (inData : list byte) (outLength : nat) :
  decompressLZF inData outLength <> NoReturn.
Proof.
  unfold decompressLZF, res_map.
  pose proof (loop_returns inData outLength (S (length inData)) (init outLength)
                ltac:(lia)) as H.
  destruct (loop _ _ _ _); cbn; congruence.
Qed.

Lemma reach_loop (inData : list byte) (outLength : nat) (s : state) :
  reach inData outLength s ->
  loop (S (length inData)) inData outLength (init outLength) =
  loop (S (length inData)) inData outLength s.
Proof.
  induction 1 as [|s s' _ IH Hit Hlt]; [reflexivity|].
  rewrite IH.
  change (loop (S (length inData)) inData outLength s)
    with (do s1 <- iter inData outLength s;
          if (inPtr s1 <? length inData)%nat
          then loop (length inData) inData outLength s1
          else Ok s1).
  rewrite Hit. cbn [bind].
  destruct (Nat.ltb_spec (inPtr s') (length inData)); [|lia].
  destruct (iter_progress _ _ _ _ Hit).
  apply loop_enough; lia.
Qed.

Lemma reach_throw (inData : list byte) (outLength : nat) (s : state) (e : exn) :
  reach inData outLength s ->
  iter inData outLength s = Throw e ->
  decompressLZF inData outLength = Throw e.
Proof.
  intros Hr Hit. unfold decompressLZF.
  rewrite (reach_loop _ _ _ Hr). cbn [loop]. rewrite Hit. reflexivity.
Qed.

(** A malformed control sequence makes the pass throw. *)
Lemma malformed_iter (inData : list byte) (outLength : nat) (s : state) :
  malformed_at inData outLength s = true ->
  iter inData outLength s = Throw LzfOutput \/
  iter inData outLength s = Throw LzfInvalid.
Proof.
  unfold malformed_at, truncated, ref_before_start, ref_not_behind,
    write_past_end, ctrl_at.
  destruct (inData !! inPtr s) as [b|] eqn:Hb;
    cbn [fmap option_fmap option_map]; [|discriminate].
  pose proof (byte_val_range b) as Hrange.
  unfold iter, ref_start, ref_len, distance_byte, seq_size. rewrite Hb.
  cbn [fmap option_fmap option_map default from_option id].
  destruct (Z.ltb_spec (byte_val b) 32) as [Hc|Hc].
  - destruct (Z.leb_spec 32 (byte_val b)); [lia|].
    cbn [andb]. rewrite !orb_false_r.
    repeat match goal with
           | |- context [?a >? ?b] => destruct (Z.gtb_spec a b)
           end; auto.
    intros Hm. apply orb_true_iff in Hm as [Hm|Hm].
    + apply Nat.ltb_lt in Hm. lia.
    + apply Z.ltb_lt in Hm. lia.
  - destruct (Z.leb_spec 32 (byte_val b)); [|lia]. cbn [andb].
    destruct (Nat.leb_spec (length inData) (S (inPtr s))); [auto|].
    destruct (Z.eqb_spec (Z.shiftr (byte_val b) 5) 7) as [H7|H7].
    + destruct (Nat.leb_spec (length inData) (S (S (inPtr s)))); [auto|].
      repeat match goal with
             | |- context [?a >? ?b] => destruct (Z.gtb_spec a b)
             | |- context [?a >=? ?b] => destruct (Z.geb_spec a b)
             | |- context [if ?a <? 0 then _ else _] => destruct (Z.ltb_spec a 0)
             end; auto.
      intros Hm. rewrite !orb_true_iff in Hm.
      destruct Hm as [[[Hm|Hm]|Hm]|Hm]; try discriminate Hm;
        first [apply Nat.ltb_lt in Hm | apply Z.ltb_lt in Hm | apply Z.leb_le in Hm];
        lia.
    + repeat match goal with
             | |- context [?a >? ?b] => destruct (Z.gtb_spec a b)
             | |- context [?a >=? ?b] => destruct (Z.geb_spec a b)
             | |- context [if ?a <? 0 then _ else _] => destruct (Z.ltb_spec a 0)
             end; auto.
      intros Hm. rewrite !orb_true_iff in Hm.
      destruct Hm as [[[Hm|Hm]|Hm]|Hm]; try discriminate Hm;
        first [apply Nat.ltb_lt in Hm | apply Z.ltb_lt in Hm | apply Z.leb_le in Hm];
        lia.
Qed.

(** C2.  At any loop head of a run, if the control sequence under the
    read cursor is cut off by the end of the input, or is a
    back-reference that starts before the output or not behind the write
    cursor, or would write past the declared output length, then the
    whole call throws one of the two errors of the decompressor: it
    neither returns a buffer nor fails to return. *)
Theorem decompress_rejects_malformed (inData : list byte) (outLength : nat)
    (s : state) :
  reach inData outLength s ->
  truncated inData s = true \/
  ref_before_start inData s = true \/
  ref_not_behind inData s = true \/
  write_past_end inData outLength s = true ->
  decompressLZF inData outLength = Throw LzfOutput \/
  decompressLZF inData outLength = Throw LzfInvalid.
Proof.
  intros Hr Hm.
  assert (Hmal : malformed_at inData outLength s = true).
  { unfold malformed_at. rewrite !orb_true_iff. tauto. }
  destruct (malformed_iter _ _ _ Hmal) as [H|H];
    [left|right]; eapply reach_throw; eassumption.
Qed.

(** A reference never starts at or after the write cursor: the distance
    subtracted from it is at least one. *)
Lemma ref_not_behind_never (inData : list byte) (s : state) :
  ref_not_behind inData s = false.
Proof.
  unfold ref_not_behind, ctrl_at.
  destruct (inData !! inPtr s) as [b|]; cbn [fmap option_fmap option_map];
    [|reflexivity].
  apply andb_false_iff. right. apply Z.leb_gt.
  unfold ref_start, distance_byte.
  pose proof (byte_val_range b).
  pose proof (land31_shiftl8_bounds (byte_val b) ltac:(lia)).
  match goal with |- context [byte_val (rd ?a ?i)] =>
    pose proof (byte_val_range (rd a i)) end.
  lia.
Qed.

(** *** Decompressing a serialized token sequence *)

Lemma iter_literal_ok (inData : list byte) (outLength : nat) (s : state) (b : byte) :
  inData !! inPtr s = Some b -> byte_val b < 32 ->
  Z.of_nat (outPtr s) + byte_val b + 1 <= Z.of_nat outLength ->
  Z.of_nat (inPtr s) + 1 + byte_val b + 1 <= Z.of_nat (length inData) ->
  iter inData outLength s =
  Ok (literal_loop (Z.to_nat (byte_val b)) inData
                   (State (S (inPtr s)) (outPtr s) (outData s))).
Proof.
  intros Hb Hc Ho Hi. unfold iter. rewrite Hb.
  cbn [fmap option_fmap option_map default from_option id].
  destruct (Z.ltb_spec (byte_val b) 32); [|lia].
  destruct (Z.gtb_spec (Z.of_nat (outPtr s) + (byte_val b + 1)) (Z.of_nat outLength));
    [lia|].
  destruct (Z.gtb_spec (Z.of_nat (S (inPtr s)) + (byte_val b + 1))
                       (Z.of_nat (length inData))); [lia|].
  do 3 f_equal. lia.
Qed.

Lemma iter_ref_ok (inData : list byte) (outLength : nat) (s : state) (b : byte) :
  inData !! inPtr s = Some b -> 32 <= byte_val b ->
  let c := byte_val b in
  let len := ref_len inData s c in
  let ref := ref_start inData s c in
  0 <= ref ->
  Z.of_nat (outPtr s) + len + 2 <= Z.of_nat outLength ->
  (inPtr s + seq_size c <= length inData)%nat ->
  iter inData outLength s =
  Ok (snd (ref_loop (Z.to_nat (len + 1))
                    (Z.to_nat ref,
                     State (inPtr s + seq_size c) (outPtr s) (outData s)))).
Proof.
  intros Hb Hc c len ref Hr Ho Hi.
  pose proof (ref_not_behind_never inData s) as Hnb.
  unfold ref_not_behind, ctrl_at in Hnb. rewrite Hb in Hnb.
  cbn [fmap option_fmap option_map] in Hnb.
  apply andb_false_iff in Hnb as [Hnb|Hnb]; [apply Z.leb_gt in Hnb; lia|].
  apply Z.leb_gt in Hnb. fold c in Hnb. fold ref in Hnb.
  subst len ref c. revert Hr Ho Hi Hnb.
  unfold iter, ref_len, ref_start, distance_byte, seq_size. rewrite Hb.
  cbn [fmap option_fmap option_map default from_option id].
  destruct (Z.ltb_spec (byte_val b) 32); [lia|].
  destruct (Z.eqb_spec (Z.shiftr (byte_val b) 5) 7) as [H7|H7]; intros Hr Ho Hi Hnb.
  - destruct (Nat.leb_spec (length inData) (S (inPtr s))); [lia|].
    destruct (Nat.leb_spec (length inData) (S (S (inPtr s)))); [lia|].
    match goal with |- context [?a >? ?b] => destruct (Z.gtb_spec a b) end; [lia|].
    match goal with |- context [?a <? 0] => destruct (Z.ltb_spec a 0) end; [lia|].
    match goal with |- context [?a >=? ?b] => destruct (Z.geb_spec a b) end; [lia|].
    replace (inPtr s + 3)%nat with (S (S (S (inPtr s)))) by lia.
    rewrite H7. reflexivity.
  - destruct (Nat.leb_spec (length inData) (S (inPtr s))); [lia|].
    match goal with |- context [?a >? ?b] => destruct (Z.gtb_spec a b) end; [lia|].
    match goal with |- context [?a <? 0] => destruct (Z.ltb_spec a 0) end; [lia|].
    match goal with |- context [?a >=? ?b] => destruct (Z.geb_spec a b) end; [lia|].
    replace (inPtr s + 2)%nat with (S (S (inPtr s))) by lia.
    reflexivity.
Qed.

Lemma state_eq (s : state) (ip op : nat) (out : list byte) :
  inPtr s = ip -> outPtr s = op -> outData s = out -> s = State ip op out.
Proof. destruct s; cbn; congruence. Qed.

Lemma control_fields (l hi : Z) :
  0 <= l -> 0 <= hi < 32 ->
  Z.shiftr (l * 32 + hi) 5 = l /\ Z.land (l * 32 + hi) 31 = hi.
Proof.
  intros Hl Hhi. split.
  - rewrite Z.shiftr_div_pow2 by lia. change (2 ^ 5) with 32.
    symmetry. apply (Z.div_unique _ _ _ hi); lia.
  - change 31 with (Z.ones 5). rewrite Z.land_ones by lia. change (2 ^ 5) with 32.
    symmetry. apply (Z.mod_unique _ _ l); lia.
Qed.

Lemma length_pattern (out : list byte) (start n : nat) :
  length (pattern out start n) = n.
Proof. unfold pattern. rewrite length_fmap, length_seq. reflexivity. Qed.

Lemma lookup_pattern (out : list byte) (start n k : nat) :
  (k < n)%nat ->
  pattern out start n !! k = Some (rd out (start + k mod (length out - start))).
Proof.
  intros Hk. unfold pattern. rewrite list_lookup_fmap, lookup_seq_lt by lia.
  reflexivity.
Qed.

Lemma apply_token_length (out out' : list byte) (t : token) :
  apply_token out t = Some out' ->
  length out' = (length out + token_bytes t)%nat.
Proof.
  destruct t as [bs|len off]; cbn [apply_token token_bytes].
  - intros [= <-]. apply length_app.
  - destruct (off <? length out)%nat; [|discriminate].
    intros [= <-]. rewrite length_app, length_pattern. reflexivity.
Qed.

Lemma expand_length (ts : list token) :
  forall out s : list byte, expand out ts = Some s -> (length out <= length s)%nat.
Proof.
  induction ts as [|t ts IH]; intros out s; cbn [expand].
  - intros [= <-]. lia.
  - destruct (apply_token out t) as [out'|] eqn:Ht; [|discriminate].
    intros Hs. apply IH in Hs. apply apply_token_length in Ht. lia.
Qed.

Lemma serialize_token_length (t : token) :
  (2 <= length (serialize_token t))%nat \/
  (exists b, t = Lit [] /\ serialize_token t = [b]).
Proof.
  destruct t as [[|b bs]|len off]; cbn [serialize_token].
  - right. eauto.
  - left. cbn. lia.
  - left. destruct (len <? 7)%nat; cbn; lia.
Qed.

Lemma length_filled (out : list byte) (outLength : nat) :
  (length out <= outLength)%nat -> length (filled out outLength) = outLength.
Proof.
  intros H. unfold filled. rewrite length_app, length_replicate. lia.
Qed.

Lemma lookup_filled_lt (out : list byte) (outLength j : nat) :
  (j < length out)%nat -> filled out outLength !! j = out !! j.
Proof. intros H. unfold filled. apply lookup_app_l. exact H. Qed.

Lemma lookup_filled_ge (out : list byte) (outLength j : nat) (x : byte) :
  (length out <= j)%nat -> filled out outLength !! j = Some x -> x = x00.
Proof.
  intros H. unfold filled. rewrite lookup_app_r by exact H.
  intros Hx. apply lookup_replicate in Hx. tauto.
Qed.

Lemma iter_token (pre post out out' : list byte) (t : token) (outLength : nat) :
  wf_token t = true ->
  apply_token out t = Some out' ->
  (length out' <= outLength)%nat ->
  iter (pre ++ serialize_token t ++ post) outLength
       (State (length pre) (length out) (filled out outLength)) =
  Ok (State (length pre + length (serialize_token t)) (length out')
            (filled out' outLength)).
Proof.
  intros Hwf Happ Hlen.
  pose proof (apply_token_length _ _ _ Happ) as Hlen'.
  set (inData := pre ++ serialize_token t ++ post).
  assert (Hin : forall k x, serialize_token t !! k = Some x ->
                            inData !! (length pre + k)%nat = Some x).
  { intros k x Hk. unfold inData.
    rewrite lookup_app_r by lia.
    replace (length pre + k - length pre)%nat with k by lia.
    apply lookup_app_l_Some. exact Hk. }
  assert (Hinlen : (length pre + length (serialize_token t) <= length inData)%nat).
  { unfold inData. rewrite !length_app. lia. }
  destruct t as [bs|len off]; cbn [wf_token apply_token token_bytes] in *.
  - (* a literal run *)
    apply andb_true_iff in Hwf as [H1 H32].
    apply Nat.leb_le in H1, H32. injection Happ as <-.
    set (b := byte_of (Z.of_nat (length bs) - 1)).
    assert (Hbv : byte_val b = Z.of_nat (length bs) - 1)
      by (apply byte_val_of; lia).
    cbn [serialize_token length] in *. fold b in Hin.
    rewrite (iter_literal_ok _ _ _ b); cbn [inPtr outPtr outData];
      [| rewrite <- (Nat.add_0_r (length pre)); apply Hin; reflexivity
       | lia | lia | lia].
    f_equal.
    destruct (literal_loop_spec (Z.to_nat (byte_val b)) inData (S (length pre))
                (length out) (filled out outLength))
      as (Hi & Ho & Hl & Hkeep & Hnew).
    { rewrite length_filled by lia. lia. }
    apply state_eq; [lia | lia |].
    apply (list_eq_same_length _ _ outLength).
    + apply length_filled. lia.
    + rewrite Hl. apply length_filled. lia.
    + intros j x y Hj Hx Hy.
      destruct (Nat.lt_ge_cases j (length out)) as [Hlt|Hge].
      * rewrite Hkeep in Hx by lia.
        rewrite lookup_filled_lt in Hx by lia.
        rewrite lookup_filled_lt in Hy by (rewrite length_app; lia).
        rewrite lookup_app_l in Hy by lia. congruence.
      * destruct (Nat.lt_ge_cases j (length out + length bs)) as [Hlt2|Hge2].
        -- replace j with (length out + (j - length out))%nat in Hx by lia.
           rewrite Hnew in Hx by lia.
           rewrite lookup_filled_lt in Hy by (rewrite length_app; lia).
           rewrite lookup_app_r in Hy by lia.
           assert (Hsrc : inData !! (length pre + S (j - length out))%nat = Some y)
             by (apply Hin; exact Hy).
           replace (S (length pre) + (j - length out))%nat
             with (length pre + S (j - length out))%nat in Hx by lia.
           rewrite (rd_lookup _ _ _ Hsrc) in Hx. congruence.
        -- rewrite Hkeep in Hx by lia.
           apply lookup_filled_ge in Hx; [|lia].
           apply lookup_filled_ge in Hy; [|rewrite length_app; lia].
           congruence.
  - (* a back-reference *)
    apply andb_true_iff in Hwf as [Hwf Hoff]. apply andb_true_iff in Hwf as [H1 H262].
    apply Nat.leb_le in H1. apply Z.leb_le in H262. apply Z.ltb_lt in Hoff.
    change (2 ^ 13) with 8192 in Hoff.
    destruct (Nat.ltb_spec off (length out)) as [Hback|]; [|discriminate].
    injection Happ as <-.
    set (hi := Z.of_nat off / 256). set (lo := Z.of_nat off mod 256).
    assert (Hhi : 0 <= hi < 32).
    { subst hi. split; [apply Z.div_pos; lia | apply Z.div_lt_upper_bound; lia]. }
    assert (Hlo : 0 <= lo < 256) by (subst lo; apply Z.mod_pos_bound; lia).
    assert (Hoffeq : Z.of_nat off = hi * 256 + lo).
    { subst hi lo. pose proof (Z.div_mod (Z.of_nat off) 256 ltac:(lia)). lia. }
    set (l := if (len <? 7)%nat then Z.of_nat len else 7).
    set (b := byte_of (l * 32 + hi)).
    assert (Hl : 1 <= l <= 7) by (subst l; destruct (Nat.ltb_spec len 7); lia).
    assert (Hbv : byte_val b = l * 32 + hi) by (apply byte_val_of; lia).
    destruct (control_fields l hi ltac:(lia) Hhi) as [Hshr Hland].
    assert (Hser : serialize_token (Ref len off) =
                   if (len <? 7)%nat then [b; byte_of lo]
                   else [b; byte_of (Z.of_nat len - 7); byte_of lo]).
    { cbn [serialize_token]. subst b l hi lo. destruct (len <? 7)%nat; reflexivity. }
    rewrite Hser in *. clear Hser.
    assert (Hb : inData !! length pre = Some b).
    { rewrite <- (Nat.add_0_r (length pre)). apply Hin.
      destruct (len <? 7)%nat; reflexivity. }
    assert (Hreflen : ref_len inData (State (length pre) (length out)
                                            (filled out outLength)) (byte_val b)
                      = Z.of_nat len).
    { unfold ref_len. cbn [inPtr]. rewrite Hbv, Hshr. subst l.
      destruct (Nat.ltb_spec len 7) as [H7|H7].
      - destruct (Z.eqb_spec (Z.of_nat len) 7); [lia|reflexivity].
      - cbn [Z.eqb Pos.eqb].
        rewrite (rd_lookup inData (S (length pre)) (byte_of (Z.of_nat len - 7))).
        + rewrite byte_val_of by lia. lia.
        + replace (S (length pre)) with (length pre + 1)%nat by lia.
          apply Hin. reflexivity. }
    assert (Hrefstart : ref_start inData (State (length pre) (length out)
                                                (filled out outLength)) (byte_val b)
                        = Z.of_nat (length out - S off)).
    { unfold ref_start, distance_byte. cbn [inPtr outPtr].
      rewrite Hbv, Hshr, Hland. rewrite Z.shiftl_mul_pow2 by lia.
      change (2 ^ 8) with 256. subst l.
      destruct (Nat.ltb_spec len 7) as [H7|H7].
      - destruct (Z.eqb_spec (Z.of_nat len) 7); [lia|].
        rewrite (rd_lookup inData (S (length pre)) (byte_of lo)).
        + rewrite byte_val_of by lia. lia.
        + replace (S (length pre)) with (length pre + 1)%nat by lia.
          apply Hin. reflexivity.
      - cbn [Z.eqb Pos.eqb].
        rewrite (rd_lookup inData (S (S (length pre))) (byte_of lo)).
        + rewrite byte_val_of by lia. lia.
        + replace (S (S (length pre))) with (length pre + 2)%nat by lia.
          apply Hin. reflexivity. }
    assert (Hsize : seq_size (byte_val b) =
                    length (if (len <? 7)%nat then [b; byte_of lo]
                            else [b; byte_of (Z.of_nat len - 7); byte_of lo])).
    { unfold seq_size. rewrite Hbv, Hshr.
      destruct (Z.ltb_spec (l * 32 + hi) 32); [lia|]. subst l.
      destruct (Nat.ltb_spec len 7).
      - destruct (Z.eqb_spec (Z.of_nat len) 7); [lia|reflexivity].
      - reflexivity. }
    rewrite (iter_ref_ok _ _ _ b); cbn [inPtr outPtr outData];
      [| exact Hb | lia | rewrite Hrefstart; lia | rewrite Hreflen; lia
       | rewrite Hsize; exact Hinlen].
    rewrite Hreflen, Hrefstart, Hsize, Nat2Z.id. f_equal.
    destruct (ref_loop_spec (Z.to_nat (Z.of_nat len + 1)) (length out - S off)
                (length out)
                (length pre + length (if (len <? 7)%nat then [b; byte_of lo]
                            else [b; byte_of (Z.of_nat len - 7); byte_of lo]))
                (filled out outLength))
      as (_ & Hi & Ho & Hl' & Hkeep & Hnew).
    { lia. }
    { rewrite length_filled by lia. lia. }
    rewrite length_app, length_pattern in *.
    apply state_eq; [exact Hi | lia |].
    apply (list_eq_same_length _ _ outLength).
    + apply length_filled. rewrite length_app, length_pattern. lia.
    + rewrite Hl'. apply length_filled. lia.
    + intros j x y Hj Hx Hy.
      destruct (Nat.lt_ge_cases j (length out)) as [Hlt|Hge].
      * rewrite Hkeep in Hx by lia.
        rewrite lookup_filled_lt in Hx by lia.
        rewrite lookup_filled_lt in Hy by (rewrite length_app; lia).
        rewrite lookup_app_l in Hy by lia. congruence.
      * destruct (Nat.lt_ge_cases j (length out + (len + 2))) as [Hlt2|Hge2].
        -- replace j with (length out + (j - length out))%nat in Hx by lia.
           rewrite Hnew in Hx by lia.
           rewrite lookup_filled_lt in Hy
             by (rewrite length_app, length_pattern; lia).
           rewrite lookup_app_r in Hy by lia.
           rewrite lookup_pattern in Hy by lia.
           replace (length out - (length out - S off))%nat with (S off) in * by lia.
           pose proof (Nat.mod_upper_bound (j - length out) (S off) ltac:(lia)).
           rewrite lookup_filled_lt in Hx by lia.
           rewrite (lookup_rd out) in Hx by lia.
           congruence.
        -- rewrite Hkeep in Hx by lia.
           apply lookup_filled_ge in Hx; [|lia].
           apply lookup_filled_ge in Hy;
             [|rewrite length_app, length_pattern; lia].
           congruence.
Qed.

Lemma serialize_cons (t : token) (ts : list token) :
  serialize (t :: ts) = serialize_token t ++ serialize ts.
Proof. reflexivity. Qed.

Lemma serialize_wf_nonempty (ts : list token) :
  forallb wf_token ts = true -> ts <> [] -> (0 < length (serialize ts))%nat.
Proof.
  destruct ts as [|t ts]; [congruence|]. intros _ _.
  rewrite serialize_cons, length_app.
  destruct (serialize_token_length t) as [H|(b & _ & ->)]; cbn; lia.
Qed.

Lemma loop_tokens (ts : list token) :
  forall (pre out sf : list byte) (outLength fuel : nat),
    ts <> [] ->
    forallb wf_token ts = true ->
    expand out ts = Some sf ->
    (length sf <= outLength)%nat ->
    (length ts <= fuel)%nat ->
    loop fuel (pre ++ serialize ts) outLength
         (State (length pre) (length out) (filled out outLength)) =
    Ok (State (length pre + length (serialize ts)) (length sf)
              (filled sf outLength)).
Proof.
  induction ts as [|t ts IH]; intros pre out sf outLength fuel Hne Hwf Hex Hlen Hfuel;
    [congruence|].
  cbn [forallb] in Hwf. apply andb_true_iff in Hwf as [Hwt Hwts].
  cbn [expand] in Hex.
  destruct (apply_token out t) as [out1|] eqn:Happ; [|discriminate].
  pose proof (expand_length _ _ _ Hex) as Hmono.
  destruct fuel as [|fuel]; [cbn in Hfuel; lia|].
  cbn [loop]. rewrite serialize_cons.
  rewrite (iter_token pre (serialize ts) out out1 t outLength Hwt Happ) by lia.
  cbn [bind inPtr].
  destruct ts as [|t' ts'].
  - cbn [expand] in Hex. injection Hex as <-.
    cbn [serialize fmap list_fmap concat]. rewrite !app_nil_r.
    destruct (Nat.ltb_spec (length pre + length (serialize_token t))
                           (length (pre ++ serialize_token t))) as [H|H].
    + rewrite length_app in H. lia.
    + reflexivity.
  - pose proof (serialize_wf_nonempty (t' :: ts') Hwts ltac:(congruence)) as Hpos.
    destruct (Nat.ltb_spec (length pre + length (serialize_token t))
                (length (pre ++ serialize_token t ++ serialize (t' :: ts'))))
      as [H|H].
    2:{ rewrite !length_app in H. lia. }
    specialize (IH (pre ++ serialize_token t) out1 sf outLength fuel
                   ltac:(congruence) Hwts Hex Hlen ltac:(cbn in *; lia)).
    rewrite length_app, <- app_assoc in IH. rewrite IH.
    rewrite length_app. do 2 f_equal. lia.
Qed.

Lemma decompress_serialize (ts : list token) (s : list byte) :
  s <> [] ->
  encodes ts s ->
  decompressLZF (serialize ts) (length s) = Ok s.
Proof.
  intros Hne [Hwf Hex].
  assert (Hts : ts <> []).
  { intros ->. cbn in Hex. congruence. }
  pose proof (serialize_wf_nonempty ts Hwf Hts) as Hpos.
  assert (Hfuel : (length ts <= S (length (serialize ts)))%nat).
  { clear -Hwf. induction ts as [|t ts IH]; cbn [length]; [lia|].
    cbn [forallb] in Hwf. apply andb_true_iff in Hwf as [_ Hwf].
    rewrite serialize_cons, length_app.
    destruct (serialize_token_length t) as [H|(b & _ & ->)]; cbn [length];
      specialize (IH Hwf); lia. }
  unfold decompressLZF.
  pose proof (loop_tokens ts [] [] s (length s) (S (length (serialize ts)))
                Hts Hwf Hex ltac:(lia) Hfuel) as Hloop.
  cbn [app length] in Hloop.
  unfold init. unfold filled in Hloop at 1. cbn [app length] in Hloop.
  rewrite Nat.sub_0_r in Hloop. rewrite Hloop.
  unfold res_map, filled. cbn [bind outData].
  rewrite Nat.sub_diag. cbn [replicate]. rewrite app_nil_r. reflexivity.
Qed.

(** C1 (amended).  For every non-empty byte sequence [s] and every
    well-formed token sequence that stands for [s] (every output of a
    matching compressor), decompressing its serialization with the
    expected length [length s] returns exactly [s]. *)
Theorem decompress_roundtrip (ts : list token) (s : list byte) :
  s <> [] ->
  encodes ts s ->
  decompressLZF (serialize ts) (length s) = Ok s.
Proof. exact (decompress_serialize ts s). Qed.

(** The empty sequence has one compressed form, the empty stream ... *)
Lemma encodes_nil (ts : list token) : encodes ts [] -> ts = [].
Proof.
  intros [Hwf Hex]. destruct ts as [|t ts]; [reflexivity|exfalso].
  cbn [forallb] in Hwf. apply andb_true_iff in Hwf as [Hwt _].
  cbn [expand] in Hex.
  destruct (apply_token [] t) as [out1|] eqn:Happ; [|discriminate].
  apply expand_length in Hex. apply apply_token_length in Happ.
  destruct t as [bs|len off]; cbn [wf_token token_bytes] in *.
  - apply andb_true_iff in Hwt as [H1 _]. apply Nat.leb_le in H1.
    cbn [length] in *. lia.
  - cbn [length] in *. lia.
Qed.

(** ... and on the empty stream the decompressor throws: the loop body
    runs once before the input length is looked at. *)
Lemma decompress_roundtrip_empty_fails :
  encodes [] [] /\
  decompressLZF (serialize []) (length (@nil byte)) = Throw LzfInvalid.
Proof. split; [split|]; reflexivity. Qed.

(** The literal-run compressor is a matching compressor. *)
Lemma literal_runs_encodes (s : list byte) :
  forall run out : list byte,
    (length run <= 32)%nat ->
    forallb wf_token (literal_runs run s) = true /\
    expand out (literal_runs run s) = Some (out ++ run ++ s).
Proof.
  induction s as [|b s IH]; intros run out Hrun; cbn [literal_runs].
  - destruct run as [|r run].
    + split; [reflexivity|]. cbn. rewrite app_nil_r. reflexivity.
    + cbn [forallb wf_token expand apply_token andb]. split.
      * rewrite andb_true_r. apply andb_true_iff. split.
        -- apply Nat.leb_le. cbn. lia.
        -- apply Nat.leb_le. exact Hrun.
      * rewrite app_nil_r. reflexivity.
  - destruct (Nat.ltb_spec (length run) 32) as [Hlt|Hge].
    + destruct (IH (run ++ [b]) out) as [Hw He].
      { rewrite length_app. cbn. lia. }
      split; [exact Hw|]. rewrite He, <- app_assoc. reflexivity.
    + destruct (IH [b] (out ++ run)) as [Hw He]. { cbn. lia. }
      cbn [forallb wf_token expand apply_token]. split.
      * rewrite Hw, andb_true_r. apply andb_true_iff. split; apply Nat.leb_le; lia.
      * rewrite He, <- app_assoc. reflexivity.
Qed.

Lemma compress_literals_encodes (s : list byte) : encodes (compress_literals s) s.
Proof.
  destruct (literal_runs_encodes s [] [] ltac:(cbn; lia)) as [Hw He].
  split; assumption.
Qed.

Corollary compress_literals_roundtrip (s : list byte) :
  s <> [] ->
  decompressLZF (serialize (compress_literals s)) (length s) = Ok s.
Proof.
  intros Hne. apply decompress_serialize; [exact Hne|].
  apply compress_literals_encodes.
Qed.

(** *** Concrete streams *)

Example serialize_stream_abc :
  serialize stream_abc = [x02; x61; x62; x63; x80; x02; x00; x78].
Proof. reflexivity. Qed.

Lemma decompress_roundtrip_witness :
  bytes_abc <> [] /\ encodes stream_abc bytes_abc /\
  decompressLZF (serialize stream_abc) (length bytes_abc) = Ok bytes_abc.
Proof.
  assert (H1 : bytes_abc <> []) by discriminate.
  assert (H2 : encodes stream_abc bytes_abc) by (split; reflexivity).
  exact (conj H1 (conj H2 (decompress_roundtrip stream_abc bytes_abc H1 H2))).
Defined.

(** One byte. *)
Example decompress_one_byte :
  decompressLZF (serialize (compress_literals [x2a])) 1 = Ok [x2a].
Proof. reflexivity. Qed.

(** A reference with the extended length byte: [x61] followed by twelve
    copies of it. *)
Example decompress_long_run :
  decompressLZF [x00; x61; xe0; x03; x00] 13 = Ok (replicate 13 x61).
Proof. reflexivity. Qed.

(** A copy that overlaps its own output repeats the last two bytes; a
    block copy of the buffer as it stood would have read zeros. *)
Example decompress_overlapping :
  decompressLZF [x01; x61; x62; x60; x01] 7 =
  Ok [x61; x62; x61; x62; x61; x62; x61].
Proof. reflexivity. Qed.

Lemma back_reference_copy_witness :
  let inData := [x01; x61; x62; x60; x01] in
  let s := State 3 2 [x61; x62; x00; x00; x00; x00; x00] in
  let s' := State 5 7 [x61; x62; x61; x62; x61; x62; x61] in
  reach inData 7 s /\ inData !! inPtr s = Some x60 /\ 32 <= byte_val x60 /\
  iter inData 7 s = Ok s' /\
  forall k, (k < 5)%nat ->
    outData s' !! (2 + k)%nat = outData s !! (0 + k mod 2)%nat.
Proof.
  intros inData s s'.
  assert (H1 : reach inData 7 s).
  { apply (reach_iter inData 7 (init 7) s); [apply reach_init | reflexivity | cbn; lia]. }
  assert (H2 : inData !! inPtr s = Some x60) by reflexivity.
  assert (H3 : 32 <= byte_val x60) by (vm_compute; discriminate).
  assert (H4 : iter inData 7 s = Ok s') by reflexivity.
  repeat split; try assumption.
  intros k Hk.
  destruct (back_reference_copy inData 7 s s' x60 H1 H2 H3 H4)
    as (_ & _ & _ & _ & _ & Hpat).
  pose proof (Hpat k) as Hpk.
  change (Z.of_nat k < 5 ->
          outData s' !! (2 + k)%nat = outData s !! (0 + k mod 2)%nat) in Hpk.
  apply Hpk. lia.
Defined.

(** The four ways a stream is rejected. *)
Example reject_truncated_literal :
  decompressLZF [x05; x61] 10 = Throw LzfInvalid.
Proof. reflexivity. Qed.

Example reject_truncated_reference :
  decompressLZF [x00; x61; x20] 10 = Throw LzfInvalid.
Proof. reflexivity. Qed.

Example reject_truncated_long_reference :
  decompressLZF [x00; x61; xe0; x03] 20 = Throw LzfInvalid.
Proof. reflexivity. Qed.

Example reject_reference_before_start :
  decompressLZF [x00; x61; x20; x01] 10 = Throw LzfInvalid.
Proof. reflexivity. Qed.

Example reject_literal_past_end :
  decompressLZF [x01; x61; x62] 1 = Throw LzfOutput.
Proof. reflexivity. Qed.

Example reject_reference_past_end :
  decompressLZF [x00; x61; x20; x00] 3 = Throw LzfOutput.
Proof. reflexivity. Qed.

Lemma decompress_rejects_malformed_witness :
  let inData := [x00; x61; x20; x01] in
  let s := State 2 1 [x61; x00; x00; x00; x00] in
  reach inData 5 s /\
  ref_before_start inData s = true /\
  (decompressLZF inData 5 = Throw LzfOutput \/
   decompressLZF inData 5 = Throw LzfInvalid).
Proof.
  intros inData s.
  assert (H1 : reach inData 5 s).
  { apply (reach_iter inData 5 (init 5) s); [apply reach_init | reflexivity | cbn; lia]. }
  assert (H2 : ref_before_start inData s = true) by reflexivity.
  exact (conj H1 (conj H2
    (decompress_rejects_malformed inData 5 s H1 (or_intror (or_introl H2))))).
Defined.

(** A stream that ends early is accepted: the rest of the buffer keeps
    its zeros. *)
Example decompress_short_stream :
  decompressLZF [x00; x61] 3 = Ok [x61; x00; x00].
Proof. reflexivity. Qed.

(** ** Further properties of the decompressor *)

(** What a run that returns leaves behind: the buffer has its length,
    and the whole input has been read. *)
Lemma loop_final (inData : list byte) (outLength fuel : nat) :
  forall s s' : state,
    length (outData s) = outLength ->
    loop fuel inData outLength s = Ok s' ->
    length (outData s') = outLength /\ (outPtr s' <= outLength)%nat /\
    (length inData <= inPtr s')%nat.
Proof.
  induction fuel as [|fuel IH]; intros s s' Hlen Hloop; [discriminate|].
  cbn [loop] in Hloop.
  destruct (iter inData outLength s) as [s1| |] eqn:Hit; cbn [bind] in Hloop;
    try discriminate.
  destruct (iter_outData_length _ _ _ _ Hlen Hit) as (Hl1 & Ho1 & _).
  destruct (Nat.ltb_spec (inPtr s1) (length inData)).
  - eapply IH; eassumption.
  - injection Hloop as <-. auto.
Qed.

Lemma decompress_Ok_inv (inData : list byte) (outLength : nat) (out : list byte) :
  decompressLZF inData outLength = Ok out ->
  exists s', loop (S (length inData)) inData outLength (init outLength) = Ok s' /\
             out = outData s'.
Proof.
  unfold decompressLZF, res_map. intros H.
  destruct (loop (S (length inData)) inData outLength (init outLength)) as [s'| |];
    cbn [bind] in H; try discriminate.
  injection H as <-. eauto.
Qed.

(** X1.  The buffer returned has the declared length, whatever the
    stream says. *)
Theorem decompress_length (inData : list byte) (outLength : nat) (out : list byte) :
  decompressLZF inData outLength = Ok out -> length out = outLength.
Proof.
  intros H. destruct (decompress_Ok_inv _ _ _ H) as (s' & Hloop & ->).
  apply (loop_final inData outLength _ (init outLength) s' (length_replicate _ _) Hloop).
Qed.

(** X2.  The empty input is rejected for every declared length: the
    control byte is read before the input length is looked at, and the
    guard of line 97 fires. *)
Theorem decompress_empty_input (outLength : nat) :
  decompressLZF [] outLength = Throw LzfInvalid.
Proof.
  unfold decompressLZF. cbn [length loop].
  rewrite iter_past_end by reflexivity. reflexivity.
Qed.

(** X3.  The start of a back-reference, as line 104 leaves it in [ref],
    is always below the write cursor: the test of line 109 never
    succeeds. *)
Theorem reference_behind_cursor (inData : list byte) (s : state) (c : Z) :
  ctrl_at inData s = Some c ->
  ref_start inData s c < Z.of_nat (outPtr s).
Proof.
  unfold ctrl_at. intros Hc.
  destruct (inData !! inPtr s) as [b|]; [|discriminate].
  injection Hc as <-.
  pose proof (byte_val_range b) as Hb.
  pose proof (land31_shiftl8_bounds (byte_val b) ltac:(lia)) as Hs.
  unfold ref_start, distance_byte.
  pose proof (byte_val_range
                (rd inData (if Z.shiftr (byte_val b) 5 =? 7
                            then S (S (inPtr s)) else S (inPtr s)))).
  lia.
Qed.

(** A segment found at an index splits the list around it. *)
Lemma split_around (l seg : list byte) (i : nat) :
  (forall k x, seg !! k = Some x -> l !! (i + k)%nat = Some x) ->
  (i + length seg <= length l)%nat ->
  l = take i l ++ seg ++ drop (i + length seg) l.
Proof.
  intros Hseg Hlen.
  rewrite <- (take_drop i l) at 1. f_equal.
  rewrite <- (take_drop (length seg) (drop i l)) at 1.
  rewrite drop_drop. f_equal.
  apply (list_eq_same_length _ _ (length seg)).
  - reflexivity.
  - rewrite length_take, length_drop. lia.
  - intros k x y Hk Hx Hy.
    rewrite lookup_take_lt in Hx by lia. rewrite lookup_drop in Hx.
    rewrite (Hseg _ _ Hy) in Hx. congruence.
Qed.

(** A pass that succeeds has read one well-formed token. *)
Lemma iter_token_inv (inData : list byte) (outLength ip : nat) (o : list byte)
    (s1 : state) :
  (length o <= outLength)%nat ->
  iter inData outLength (State ip (length o) (filled o outLength)) = Ok s1 ->
  exists t o1,
    wf_token t = true /\
    apply_token o t = Some o1 /\
    (length o1 <= outLength)%nat /\
    inData = take ip inData ++ serialize_token t
             ++ drop (ip + length (serialize_token t)) inData /\
    (ip + length (serialize_token t) <= length inData)%nat /\
    s1 = State (ip + length (serialize_token t)) (length o1) (filled o1 outLength).
Proof.
  intros Hlo Hit.
  set (s := State ip (length o) (filled o outLength)) in *.
  destruct (inData !! ip) as [b|] eqn:Hb.
  2:{ rewrite iter_past_end in Hit by exact Hb. discriminate. }
  pose proof (byte_val_range b) as Hbr.
  assert (Hip : (ip < length inData)%nat) by (apply lookup_lt_Some in Hb; exact Hb).
  assert (Hfin : forall t o1,
            wf_token t = true -> apply_token o t = Some o1 ->
            (length o1 <= outLength)%nat ->
            (forall k x, serialize_token t !! k = Some x ->
                         inData !! (ip + k)%nat = Some x) ->
            (ip + length (serialize_token t) <= length inData)%nat ->
            exists t o1,
              wf_token t = true /\
              apply_token o t = Some o1 /\
              (length o1 <= outLength)%nat /\
              inData = take ip inData ++ serialize_token t
                       ++ drop (ip + length (serialize_token t)) inData /\
              (ip + length (serialize_token t) <= length inData)%nat /\
              s1 = State (ip + length (serialize_token t)) (length o1)
                         (filled o1 outLength)).
  { intros t o1 Hwf Happ Hl1 Hseg Hlen.
    exists t, o1.
    pose proof (split_around inData (serialize_token t) ip Hseg Hlen) as Hsplit.
    repeat split; try assumption.
    pose proof (iter_token (take ip inData)
                  (drop (ip + length (serialize_token t)) inData) o o1 t outLength
                  Hwf Happ Hl1) as Hfwd.
    rewrite <- Hsplit in Hfwd.
    rewrite length_take, Nat.min_l in Hfwd by lia.
    fold s in Hfwd. rewrite Hfwd in Hit. injection Hit as <-. reflexivity. }
  destruct (Z.lt_ge_cases (byte_val b) 32) as [Hc|Hc].
  - (* a literal run *)
    destruct (iter_literal_inv inData outLength s s1 b Hb Hc Hit) as (Ho & Hi & _).
    cbn [s inPtr outPtr] in Ho, Hi.
    set (n := S (Z.to_nat (byte_val b))).
    set (bs := take n (drop (S ip) inData)).
    assert (Hbs : length bs = n).
    { unfold bs. rewrite length_take, length_drop. lia. }
    assert (Hser : serialize_token (Lit bs) = b :: bs).
    { cbn [serialize_token]. rewrite Hbs. unfold n.
      replace (Z.of_nat (S (Z.to_nat (byte_val b))) - 1) with (byte_val b) by lia.
      rewrite byte_of_val. reflexivity. }
    apply (Hfin (Lit bs) (o ++ bs)).
    + cbn [wf_token]. rewrite Hbs. unfold n.
      apply andb_true_iff. split; [apply Nat.leb_le | apply Nat.leb_le]; lia.
    + reflexivity.
    + rewrite length_app, Hbs. unfold n. lia.
    + rewrite Hser. intros [|k] x Hx; cbn in Hx.
      * injection Hx as <-. rewrite Nat.add_0_r. exact Hb.
      * unfold bs in Hx. apply lookup_take_Some in Hx as [Hx _].
        rewrite lookup_drop in Hx.
        replace (ip + S k)%nat with (S ip + k)%nat by lia. exact Hx.
    + rewrite Hser. cbn [length]. rewrite Hbs. unfold n. lia.
  - (* a back-reference *)
    destruct (iter_ref_inv inData outLength s s1 b Hb Hc Hit) as (Hr & Ho & Hi & _).
    cbn [s inPtr outPtr] in Hr, Ho, Hi.
    pose proof (shiftr5_bounds (byte_val b) ltac:(lia)) as Hsh.
    pose proof (land31_shiftl8_bounds (byte_val b) ltac:(lia)) as Hla.
    set (c := byte_val b) in *.
    set (hi := Z.land c 31).
    assert (Hhi : 0 <= hi < 32).
    { subst hi. change 31 with (Z.ones 5). rewrite Z.land_ones by lia.
      apply Z.mod_pos_bound. lia. }
    assert (Hc_eq : c = Z.shiftr c 5 * 32 + hi).
    { subst hi. change 31 with (Z.ones 5). rewrite Z.land_ones by lia.
      rewrite Z.shiftr_div_pow2 by lia. change (2 ^ 5) with 32.
      pose proof (Z.div_mod c 32 ltac:(lia)). lia. }
    assert (Hshl : Z.shiftl hi 8 = hi * 256).
    { rewrite Z.shiftl_mul_pow2 by lia. reflexivity. }
    set (len := ref_len inData s c) in *.
    set (d := distance_byte inData s c) in *.
    assert (Hd : 0 <= d < 256) by (apply byte_val_range).
    assert (Href : ref_start inData s c = Z.of_nat (length o) - hi * 256 - 1 - d).
    { unfold ref_start. cbn [s outPtr]. fold hi. fold d. lia. }
    set (off := Z.to_nat (hi * 256 + d)).
    assert (Hoff : Z.of_nat off = hi * 256 + d) by (unfold off; lia).
    assert (Hdiv : Z.of_nat off / 256 = hi).
    { rewrite Hoff. symmetry. apply (Z.div_unique _ _ _ d); lia. }
    assert (Hmod : Z.of_nat off mod 256 = d).
    { rewrite Hoff. symmetry. apply (Z.mod_unique _ _ hi); lia. }
    assert (Hlen : 1 <= len <= 7 + 255).
    { unfold len, ref_len.
      pose proof (byte_val_range (rd inData (S (inPtr s)))).
      destruct (Z.shiftr c 5 =? 7) eqn:E; [apply Z.eqb_eq in E|]; lia. }
    assert (Hser : serialize_token (Ref (Z.to_nat len) off) =
                   if Z.shiftr c 5 =? 7
                   then [b; rd inData (S ip); rd inData (S (S ip))]
                   else [b; rd inData (S ip)]).
    { cbn [serialize_token]. rewrite Hdiv, Hmod.
      unfold len, ref_len, d, distance_byte. cbn [s inPtr].
      destruct (Z.eqb_spec (Z.shiftr c 5) 7) as [E|E].
      - pose proof (byte_val_range (rd inData (S ip))).
        destruct (Nat.ltb_spec (Z.to_nat (7 + byte_val (rd inData (S ip)))) 7); [lia|].
        rewrite Z2Nat.id by lia.
        replace (7 + byte_val (rd inData (S ip)) - 7)
          with (byte_val (rd inData (S ip))) by lia.
        rewrite !byte_of_val.
        replace (7 * 32 + hi) with c by lia.
        unfold c. rewrite byte_of_val. reflexivity.
      - destruct (Nat.ltb_spec (Z.to_nat (Z.shiftr c 5)) 7); [|lia].
        rewrite Z2Nat.id by lia. rewrite <- Hc_eq.
        unfold c. rewrite !byte_of_val. reflexivity. }
    assert (Hsize : length (serialize_token (Ref (Z.to_nat len) off)) = seq_size c).
    { rewrite Hser. unfold seq_size.
      destruct (Z.ltb_spec c 32); [lia|].
      destruct (Z.shiftr c 5 =? 7); reflexivity. }
    apply (Hfin (Ref (Z.to_nat len) off)
                (o ++ pattern o (length o - S off) (Z.to_nat len + 2))).
    + cbn [wf_token]. rewrite Z2Nat.id by lia.
      apply andb_true_iff. split; [apply andb_true_iff; split|].
      * apply Nat.leb_le. lia.
      * apply Z.leb_le. lia.
      * apply Z.ltb_lt. change (2 ^ 13) with 8192. lia.
    + cbn [apply_token].
      destruct (Nat.ltb_spec off (length o)); [reflexivity|lia].
    + rewrite length_app, length_pattern. lia.
    + rewrite Hser. intros k x Hx.
      assert (Hrd : forall j, (j < length inData)%nat ->
                              inData !! j = Some (rd inData j))
        by (intros j Hj; apply lookup_rd; exact Hj).
      unfold seq_size in Hi.
      destruct (Z.ltb_spec c 32); [lia|].
      destruct (Z.shiftr c 5 =? 7).
      * destruct k as [|[|[|k]]]; cbn in Hx; try discriminate;
          injection Hx as <-.
        -- rewrite Nat.add_0_r. exact Hb.
        -- replace (ip + 1)%nat with (S ip) by lia. apply Hrd. lia.
        -- replace (ip + 2)%nat with (S (S ip)) by lia. apply Hrd. lia.
      * destruct k as [|[|k]]; cbn in Hx; try discriminate;
          injection Hx as <-.
        -- rewrite Nat.add_0_r. exact Hb.
        -- replace (ip + 1)%nat with (S ip) by lia. apply Hrd. lia.
    + rewrite Hsize. exact Hi.
Qed.

Lemma tokens_fuel (ts : list token) :
  forallb wf_token ts = true -> (length ts <= S (length (serialize ts)))%nat.
Proof.
  induction ts as [|t ts IH]; cbn [length]; [lia|]. intros Hwf.
  cbn [forallb] in Hwf. apply andb_true_iff in Hwf as [_ Hwf].
  rewrite serialize_cons, length_app.
  destruct (serialize_token_length t) as [H|(b & _ & ->)]; cbn [length];
    specialize (IH Hwf); lia.
Qed.

Lemma filled_nil (outLength : nat) : filled [] outLength = replicate outLength x00.
Proof. unfold filled. cbn [app length]. rewrite Nat.sub_0_r. reflexivity. Qed.

(** A run that returns has read a sequence of well-formed tokens. *)
Lemma loop_tokens_inv (inData : list byte) (outLength fuel : nat) :
  forall (ip : nat) (o : list byte) (s' : state),
    (length o <= outLength)%nat ->
    loop fuel inData outLength (State ip (length o) (filled o outLength)) = Ok s' ->
    exists ts sf,
      ts <> [] /\
      forallb wf_token ts = true /\
      drop ip inData = serialize ts /\
      expand o ts = Some sf /\
      (length sf <= outLength)%nat /\
      outData s' = filled sf outLength.
Proof.
  induction fuel as [|fuel IH]; intros ip o s' Hlo Hloop; [discriminate|].
  cbn [loop] in Hloop.
  destruct (iter inData outLength (State ip (length o) (filled o outLength)))
    as [s1| |] eqn:Hit; cbn [bind] in Hloop; try discriminate.
  destruct (iter_token_inv inData outLength ip o s1 Hlo Hit)
    as (t & o1 & Hwf & Happ & Hl1 & Hsplit & Hin & ->).
  cbn [inPtr] in Hloop.
  assert (Hdrop : drop ip inData =
                  serialize_token t ++ drop (ip + length (serialize_token t)) inData).
  { rewrite Hsplit at 1. rewrite drop_app_length'; [reflexivity|].
    rewrite length_take. lia. }
  destruct (Nat.ltb_spec (ip + length (serialize_token t)) (length inData)) as [Hlt|Hge].
  - destruct (IH _ _ _ Hl1 Hloop) as (ts & sf & Hne & Hwfs & Hser & Hex & Hlsf & Hout).
    exists (t :: ts), sf. repeat split; try assumption.
    + congruence.
    + cbn [forallb]. rewrite Hwf, Hwfs. reflexivity.
    + rewrite serialize_cons, <- Hser. exact Hdrop.
    + cbn [expand]. rewrite Happ. exact Hex.
  - injection Hloop as <-. exists [t], o1. repeat split; try assumption.
    + congruence.
    + cbn [forallb]. rewrite Hwf. reflexivity.
    + rewrite Hdrop, drop_ge by lia. reflexivity.
    + cbn [expand]. rewrite Happ. reflexivity.
Qed.

(** X4.  The streams the decompressor accepts are exactly the non-empty
    sequences of well-formed tokens whose expansion fits the declared
    length; the result is the expansion, followed by zero bytes when it
    is shorter than the declared length. *)
Theorem decompress_accepts (inData : list byte) (outLength : nat) (out : list byte) :
  decompressLZF inData outLength = Ok out <->
  exists ts s,
    ts <> [] /\
    forallb wf_token ts = true /\
    inData = serialize ts /\
    expand [] ts = Some s /\
    (length s <= outLength)%nat /\
    out = filled s outLength.
Proof.
  split.
  - intros H. destruct (decompress_Ok_inv _ _ _ H) as (s' & Hloop & ->).
    unfold init in Hloop. rewrite <- filled_nil in Hloop.
    change 0%nat with (length (@nil byte)) in Hloop at 2.
    destruct (loop_tokens_inv inData outLength _ 0 [] s' ltac:(cbn; lia) Hloop)
      as (ts & sf & Hne & Hwf & Hser & Hex & Hl & Hout).
    exists ts, sf. repeat split; assumption.
  - intros (ts & s & Hne & Hwf & -> & Hex & Hl & ->).
    unfold decompressLZF.
    pose proof (loop_tokens ts [] [] s outLength (S (length (serialize ts)))
                  Hne Hwf Hex Hl (tokens_fuel ts Hwf)) as Hloop.
    cbn [app length] in Hloop. rewrite filled_nil in Hloop.
    unfold init. rewrite Hloop. reflexivity.
Qed.

(** X5.  The outer loop ends: every pass moves the read cursor forward,
    so no run makes more passes than the input has bytes (one pass on
    an empty input), and any larger bound on the passes gives the same
    outcome, which is a buffer or an error. *)
Theorem decompress_terminates (inData : list byte) (outLength fuel : nat) :
  (length inData < fuel)%nat ->
  res_map outData (loop fuel inData outLength (init outLength)) =
    decompressLZF inData outLength /\
  decompressLZF inData outLength <> NoReturn.
Proof.
  intros Hfuel. split.
  - unfold decompressLZF. f_equal. apply loop_enough; cbn [init inPtr]; lia.
  - unfold decompressLZF, res_map.
    pose proof (loop_returns inData outLength (S (length inData)) (init outLength)
                  ltac:(cbn [init inPtr]; lia)) as H.
    destruct (loop (S (length inData)) inData outLength (init outLength));
      cbn [bind]; congruence.
Qed.

Lemma decompress_length_witness :
  decompressLZF [x00; x61] 3 = Ok [x61; x00; x00] /\
  length [x61; x00; x00] = 3%nat.
Proof.
  assert (H : decompressLZF [x00; x61] 3 = Ok [x61; x00; x00]) by reflexivity.
  exact (conj H (decompress_length [x00; x61] 3 [x61; x00; x00] H)).
Defined.

Lemma reference_behind_cursor_witness :
  let inData := [x01; x61; x62; x60; x01] in
  let s := State 3 2 [x61; x62; x00; x00; x00; x00; x00] in
  ctrl_at inData s = Some 96 /\
  ref_start inData s 96 = 0 /\
  ref_start inData s 96 < Z.of_nat (outPtr s).
Proof.
  intros inData s.
  assert (H : ctrl_at inData s = Some 96) by reflexivity.
  exact (conj H (conj eq_refl (reference_behind_cursor inData s 96 H))).
Defined.

Lemma decompress_terminates_witness :
  (length [x01; x61; x62; x60; x01] < 100)%nat /\
  res_map outData (loop 100 [x01; x61; x62; x60; x01] 7 (init 7)) =
    decompressLZF [x01; x61; x62; x60; x01] 7 /\
  decompressLZF [x01; x61; x62; x60; x01] 7 <> NoReturn.
Proof.
  assert (H : (length [x01; x61; x62; x60; x01] < 100)%nat) by (cbn; lia).
  exact (conj H (decompress_terminates [x01; x61; x62; x60; x01] 7 100 H)).
Defined.

End LZFProofs.

(** ** Numbers *)

Example parseFloat_samples :
  parseFloat (Some (lit "1")) = of_Z 1 /\
  parseFloat (Some (lit " -2.5e1x")) = of_Z (-25) /\
  parseFloat (Some (lit ".5")) = div (of_Z 1) (of_Z 2) /\
  parseFloat (Some (lit "0.1")) = div (of_Z 1) (of_Z 10) /\
  parseFloat (Some (lit "x")) = NaN /\
  parseFloat None = NaN.
Proof. repeat split. Qed.

Example parseInt_samples :
  parseInt (Some (lit "42")) (Some 10) = of_Z 42 /\
  parseInt (Some (lit "0x10")) None = of_Z 16 /\
  parseInt (Some (lit "0x10")) (Some 10) = of_Z 0 /\
  parseInt (Some (lit "")) (Some 10) = NaN.
Proof. repeat split. Qed.

(** 1.0 and -2.5 as binary32, and back. *)
Example binary32_samples :
  f32_of_bits 1065353216 = of_Z 1 /\
  f32_of_bits 3223322624 = div (of_Z (-5)) (of_Z 2) /\
  bits_of_f32 (of_Z 1) = 1065353216 /\
  bits_of_f32 (div (of_Z (-5)) (of_Z 2)) = 3223322624 - 2 ^ 32.
Proof. repeat split. Qed.

(** The loop over three points: the condition [i < points] holds for
    0, 1 and 2 and fails for 3; and a loop variable that has reached
    2^53 stays there. *)
Example loop_over_three_points :
  (fun i => ltb (PCD.loop_var i) (of_Z 3)) <$> [0; 1; 2; 3]%nat
    = [true; true; true; false] /\
  PCD.iterations (of_Z 3) = Some 3%nat /\
  add (of_Z (2 ^ 53)) (of_Z 1) = of_Z (2 ^ 53).
Proof. repeat split. Qed.

(** ** The header parser *)

Module PCDProofs.
Import PCD.

(** *** Locating the DATA line *)

Lemma re_DATA_eq :
  re_DATA = [Chr cr_or_lf; Chr (chr_i 68); Chr (chr_i 65); Chr (chr_i 84);
             Chr (chr_i 65); Chr is_space; Open; Star non_space; Close;
             Chr is_space].
Proof. reflexivity. Qed.

(** A match starts with CR or LF and the keyword. *)
Lemma match_DATA_inv (s : jsstring) (m : nat * nat * nat) :
  match_here re_DATA s 0 0 0 = Some m ->
  exists c rest, s = c :: rest /\ cr_or_lf c = true /\ starts_DATA rest = true.
Proof.
  rewrite re_DATA_eq.
  destruct s as [|c [|d [|a [|t [|a' rest]]]]]; cbn [match_here]; try discriminate;
    repeat match goal with
           | |- (if ?b then _ else _) = _ -> _ => destruct b eqn:?; [|discriminate]
           | |- None = Some _ -> _ => discriminate
           end.
  intros _. exists c, (d :: a :: t :: a' :: rest).
  cbn [starts_DATA]. repeat split; auto.
  repeat (apply andb_true_iff; split); assumption.
Qed.

Lemma slice_to_end {A : Type} (s : list A) (start : Z) :
  slice s start None = drop (slice_index (length s) start) s.
Proof.
  unfold slice. apply take_ge. rewrite length_drop. lia.
Qed.

(** *** Text of an ASCII prefix *)

Lemma utf8_decode_ascii (a rest : list byte) :
  forallb is_ascii a = true ->
  utf8_decode (a ++ rest) 0 0 128 191 = codes a ++ utf8_decode rest 0 0 128 191.
Proof.
  induction a as [|b a IH]; intros Ha; [reflexivity|].
  cbn [forallb] in Ha. apply andb_true_iff in Ha as [Hb Ha].
  unfold is_ascii in Hb. apply Z.ltb_lt in Hb.
  cbn [app utf8_decode codes fmap list_fmap]. unfold utf8_lead.
  destruct (Z.leb_spec (byte_val b) 127); [|lia].
  cbn [app]. f_equal. apply IH. exact Ha.
Qed.

Lemma concat_utf16_ascii (a : list byte) (cps : list Z) :
  forallb is_ascii a = true ->
  concat (utf16 <$> (codes a ++ cps)) = codes a ++ concat (utf16 <$> cps).
Proof.
  induction a as [|b a IH]; intros Ha; [reflexivity|].
  cbn [forallb] in Ha. apply andb_true_iff in Ha as [Hb Ha].
  unfold is_ascii in Hb. apply Z.ltb_lt in Hb.
  cbn [codes fmap list_fmap app concat]. unfold utf16 at 1.
  destruct (Z.ltb_spec (byte_val b) 65536); [|lia].
  cbn [app]. f_equal. apply IH. exact Ha.
Qed.

(** The text of a buffer that starts with ASCII bytes starts with their
    codes. *)
Lemma decode_ascii_prefix (a rest : list byte) :
  a <> [] -> forallb is_ascii a = true ->
  exists t, TextDecoder_decode (a ++ rest) = codes a ++ t.
Proof.
  intros Hne Ha. unfold TextDecoder_decode.
  rewrite (utf8_decode_ascii a rest Ha).
  destruct a as [|b a]; [congruence|].
  cbn [codes fmap list_fmap app].
  cbn [forallb] in Ha. apply andb_true_iff in Ha as [Hb Ha'].
  unfold is_ascii in Hb. apply Z.ltb_lt in Hb.
  destruct (Z.eqb_spec (byte_val b) 65279); [lia|].
  exists (concat (utf16 <$> utf8_decode rest 0 0 128 191)).
  apply (concat_utf16_ascii (b :: a)).
  cbn [forallb]. apply andb_true_iff. split; [apply Z.ltb_lt; exact Hb | exact Ha'].
Qed.

(** *** The first match *)

Lemma starts_DATA_app (s t : jsstring) :
  starts_DATA s = true -> starts_DATA (s ++ t) = true.
Proof.
  destruct s as [|d [|a [|c [|a' rest]]]]; cbn; try discriminate. auto.
Qed.

Lemma starts_DATA_app_false (s t : jsstring) :
  (4 <= length s)%nat -> starts_DATA s = false -> starts_DATA (s ++ t) = false.
Proof.
  destruct s as [|d [|a [|c [|a' rest]]]]; cbn; try lia. auto.
Qed.

Lemma first_break_length (s : jsstring) :
  forall k, first_break_before_DATA s = Some k -> (k + 5 <= length s)%nat.
Proof.
  induction s as [|c s IH]; intros k; cbn [first_break_before_DATA];
    [discriminate|].
  destruct (cr_or_lf c && starts_DATA s) eqn:Hc.
  - intros [= <-]. apply andb_true_iff in Hc as [_ Hs].
    destruct s as [|d [|a [|t [|a' rest]]]]; cbn in Hs; try discriminate.
    cbn. lia.
  - destruct (first_break_before_DATA s) as [k'|]; [|discriminate].
    intros [= <-]. specialize (IH k' eq_refl). cbn. lia.
Qed.

Lemma first_break_app (s t : jsstring) :
  forall k, first_break_before_DATA s = Some k ->
            first_break_before_DATA (s ++ t) = Some k.
Proof.
  induction s as [|c s IH]; intros k; cbn [first_break_before_DATA app];
    [discriminate|].
  destruct (cr_or_lf c && starts_DATA s) eqn:Hc.
  - intros [= <-]. apply andb_true_iff in Hc as [Hc Hs].
    rewrite Hc, (starts_DATA_app _ _ Hs). reflexivity.
  - destruct (first_break_before_DATA s) as [k'|] eqn:Hk; [|discriminate].
    intros [= <-].
    pose proof (first_break_length _ _ Hk) as Hlen.
    rewrite (IH k' eq_refl).
    apply andb_false_iff in Hc as [Hc|Hc].
    + rewrite Hc. reflexivity.
    + rewrite (starts_DATA_app_false s t ltac:(lia) Hc), andb_false_r. reflexivity.
Qed.

Lemma first_break_skip (s : jsstring) :
  forall k j, first_break_before_DATA s = Some k -> (j <= k)%nat ->
              first_break_before_DATA (drop j s) = Some (k - j)%nat.
Proof.
  induction s as [|c s IH]; intros k j; cbn [first_break_before_DATA];
    [discriminate|].
  destruct j as [|j].
  - intros H _. rewrite Nat.sub_0_r. exact H.
  - destruct (cr_or_lf c && starts_DATA s); [intros [= <-]; lia|].
    destruct (first_break_before_DATA s) as [k'|] eqn:Hk; [|discriminate].
    intros [= <-] Hj. cbn [drop]. rewrite (IH k' j eq_refl) by lia.
    f_equal.
Qed.

Lemma exec_from_first_break (s : jsstring) :
  forall k i, first_break_before_DATA s = Some k ->
              exec_from re_DATA s i = exec_from re_DATA (drop k s) (i + k).
Proof.
  induction s as [|c s IH]; intros k i; cbn [first_break_before_DATA];
    [discriminate|].
  destruct (cr_or_lf c && starts_DATA s) eqn:Hc.
  - intros [= <-]. rewrite Nat.add_0_r. reflexivity.
  - destruct (first_break_before_DATA s) as [k'|] eqn:Hk; [|discriminate].
    intros [= <-]. cbn [exec_from drop].
    destruct (match_here re_DATA (c :: s) 0 0 0) as [m|] eqn:Hm.
    + apply match_DATA_inv in Hm as (c' & rest & [= <- <-] & H1 & H2).
      rewrite H1, H2 in Hc. discriminate.
    + rewrite (IH k' (S i) eq_refl). f_equal. lia.
Qed.

(** A greedy star followed by a character outside its class takes the
    whole run and gives nothing back. *)
Lemma match_star_run (p : Z -> bool) (r : regex) (run : jsstring) :
  forall (c : Z) (rest : jsstring) (pos cs ce : nat) (m : nat * nat * nat),
    forallb p run = true ->
    p c = false ->
    match_here r (c :: rest) (pos + length run) cs ce = Some m ->
    match_here (Star p :: r) (run ++ c :: rest) pos cs ce = Some m.
Proof.
  induction run as [|x run IH]; intros c rest pos cs ce m Hrun Hc Hm.
  - cbn [app length] in *. rewrite Nat.add_0_r in Hm.
    cbn [match_here]. rewrite Hc. exact Hm.
  - cbn [forallb] in Hrun. apply andb_true_iff in Hrun as [Hx Hrun].
    specialize (IH c rest (S pos) cs ce m Hrun Hc).
    cbn [length] in Hm.
    replace (pos + S (length run))%nat with (S pos + length run)%nat in Hm by lia.
    specialize (IH Hm).
    cbn [app]. cbn [match_here]. rewrite Hx.
    cbn [match_here] in IH. rewrite IH. reflexivity.
Qed.

Lemma match_Chr (p : Z -> bool) (r : regex) (c : Z) (s : jsstring) (pos cs ce : nat) :
  match_here (Chr p :: r) (c :: s) pos cs ce =
  if p c then match_here r s (S pos) cs ce else None.
Proof. reflexivity. Qed.

Lemma match_Open (r : regex) (s : jsstring) (pos cs ce : nat) :
  match_here (Open :: r) s pos cs ce = match_here r s pos pos ce.
Proof. destruct s; reflexivity. Qed.

Lemma match_Close (r : regex) (s : jsstring) (pos cs ce : nat) :
  match_here (Close :: r) s pos cs ce = match_here r s pos cs pos.
Proof. destruct s; reflexivity. Qed.

Lemma is_space_non_space (c : Z) : is_space c = true -> non_space c = false.
Proof. unfold non_space. intros ->. reflexivity. Qed.

(** The pattern at a DATA line: line break, keyword, a space, the
    value, a space. *)
Lemma match_DATA_line (nl sp ws : Z) (kw value rest : jsstring) :
  cr_or_lf nl = true ->
  length kw = 4%nat -> starts_DATA kw = true ->
  is_space sp = true ->
  forallb non_space value = true ->
  is_space ws = true ->
  match_here re_DATA (nl :: kw ++ sp :: value ++ ws :: rest) 0 0 0 =
  Some (7 + length value, 6, 6 + length value)%nat.
Proof.
  intros Hnl Hkw4 Hkw Hsp Hval Hws.
  destruct kw as [|d [|a [|t [|a' [|]]]]]; try discriminate Hkw4.
  cbn [starts_DATA] in Hkw.
  apply andb_true_iff in Hkw as [Hkw Ha']. apply andb_true_iff in Hkw as [Hkw Ht].
  apply andb_true_iff in Hkw as [Hd Ha].
  rewrite re_DATA_eq. cbn [app].
  rewrite !match_Chr, Hnl, Hd, Ha, Ht, Ha', Hsp, match_Open.
  apply match_star_run; [exact Hval | apply is_space_non_space; exact Hws |].
  rewrite match_Close, match_Chr, Hws. cbn [match_here].
  reflexivity.
Qed.

Lemma exec_from_match (r : regex) (s : jsstring) (i n cs ce : nat) :
  match_here r s 0 0 0 = Some (n, cs, ce) ->
  exec_from r s i = Some (Match i (take n s) (take (ce - cs) (drop cs s))).
Proof. intros H. destruct s; cbn [exec_from]; rewrite H; reflexivity. Qed.

(** Lines 126-132 on a text whose first line break before the keyword
    is at index [k >= 1] and starts a well-formed DATA line. *)
Lemma find_DATA_at (text : jsstring) (k : nat) (nl sp ws : Z)
    (kw value rest : jsstring) :
  first_break_before_DATA text = Some k ->
  (1 <= k)%nat ->
  drop k text = nl :: kw ++ sp :: value ++ ws :: rest ->
  length kw = 4%nat ->
  is_space sp = true ->
  forallb non_space value = true ->
  is_space ws = true ->
  find_DATA text = Ok (value, Z.of_nat (k + (7 + length value))).
Proof.
  intros Hfirst Hk Hdrop Hkw4 Hsp Hval Hws.
  pose proof (first_break_length _ _ Hfirst) as Hlen.
  pose proof (first_break_skip _ _ k Hfirst ltac:(lia)) as Hat.
  rewrite Hdrop, Nat.sub_diag in Hat. cbn [first_break_before_DATA] in Hat.
  destruct (cr_or_lf nl && starts_DATA (kw ++ sp :: value ++ ws :: rest)) eqn:Hc.
  2:{ destruct (first_break_before_DATA (kw ++ sp :: value ++ ws :: rest));
        discriminate. }
  apply andb_true_iff in Hc as [Hnl Hkw'].
  assert (Hkw : starts_DATA kw = true).
  { destruct kw as [|d [|a [|t [|a' [|]]]]]; try discriminate Hkw4. exact Hkw'. }
  pose proof (match_DATA_line nl sp ws kw value rest Hnl Hkw4 Hkw Hsp Hval Hws)
    as Hmatch.
  assert (Hsearch : search re_DATA text = Z.of_nat k).
  { unfold search, exec. rewrite (exec_from_first_break _ _ 0 Hfirst), Hdrop.
    rewrite (exec_from_match _ _ _ _ _ _ Hmatch). reflexivity. }
  unfold find_DATA. rewrite Hsearch, slice_to_end.
  assert (Hidx : slice_index (length text) (Z.of_nat k - 1) = (k - 1)%nat).
  { unfold slice_index. destruct (Z.ltb_spec (Z.of_nat k - 1) 0); lia. }
  rewrite Hidx. unfold exec.
  pose proof (first_break_skip _ _ (k - 1) Hfirst ltac:(lia)) as Hprev.
  replace (k - (k - 1))%nat with 1%nat in Hprev by lia.
  rewrite (exec_from_first_break _ _ 0 Hprev), drop_drop.
  replace (k - 1 + 1)%nat with k by lia.
  rewrite Hdrop, (exec_from_match _ _ _ _ _ _ Hmatch).
  cbn [m_group m_text].
  f_equal. f_equal.
  - replace (6 + length value - 6)%nat with (length value) by lia.
    destruct kw as [|d [|a [|t [|a' [|]]]]]; try discriminate Hkw4.
    change (drop 6 (nl :: [d; a; t; a'] ++ sp :: value ++ ws :: rest))
      with (value ++ ws :: rest).
    rewrite take_app_length. reflexivity.
  - rewrite length_take, Nat.min_l; [cbn; lia|].
    cbn [length]. rewrite !length_app. cbn [length]. rewrite length_app.
    cbn [length]. lia.
Qed.

(** With LF line endings the header length is as the specification has
    it.  Let the buffer start with an ASCII header that ends with the
    line [DATA <value>] terminated by LF, where the line is not the
    first one and its line break is the first to be followed by the
    keyword.  Then the header length is the byte offset just after that
    LF, and the payload begins exactly there. *)
Theorem headerLen_after_LF (before kw value payload : list byte) (nl sp : byte) :
  let header := before ++ [nl] ++ kw ++ [sp] ++ value ++ [x0a] in
  forallb is_ascii header = true ->
  before <> [] ->
  first_break_before_DATA (codes header) = Some (length before) ->
  length kw = 4%nat ->
  is_space (byte_val sp) = true ->
  forallb non_space (codes value) = true ->
  find_DATA (TextDecoder_decode (header ++ payload)) =
    Ok (codes value, Z.of_nat (length header)) /\
  (forall h, parseHeader (TextDecoder_decode (header ++ payload)) = Ok h ->
     data h = codes value /\
     headerLen h = Z.of_nat (length header) /\
     drop (Z.to_nat (headerLen h)) (header ++ payload) = payload).
Proof.
  intros header Hascii Hne Hfirst Hkw4 Hsp Hval.
  assert (Hhne : header <> []).
  { unfold header. destruct before; [congruence|discriminate]. }
  destruct (decode_ascii_prefix header payload Hhne Hascii) as [t Ht].
  assert (Hfind : find_DATA (TextDecoder_decode (header ++ payload)) =
                  Ok (codes value, Z.of_nat (length header))).
  { rewrite Ht.
    rewrite (find_DATA_at (codes header ++ t) (length before) (byte_val nl)
               (byte_val sp) LF (codes kw) (codes value) t).
    - do 3 f_equal. unfold header, codes.
      rewrite !length_app, length_fmap. cbn [length]. lia.
    - apply first_break_app. exact Hfirst.
    - destruct before; [congruence|cbn; lia].
    - unfold header, codes. rewrite !fmap_app, <- !app_assoc.
      rewrite drop_app_length'; [|rewrite length_fmap; reflexivity].
      reflexivity.
    - unfold codes. rewrite length_fmap. exact Hkw4.
    - exact Hsp.
    - exact Hval.
    - reflexivity. }
  split; [exact Hfind|].
  intros h Hh. unfold parseHeader in Hh. rewrite Hfind in Hh. cbn [bind] in Hh.
  match type of Hh with
  | (do st <- ?e; _) = _ => destruct e as [st| |]; cbn [bind] in Hh; try discriminate
  end.
  injection Hh as <-. cbn [data headerLen].
  repeat split.
  rewrite Nat2Z.id. apply drop_app_length.
Qed.

Lemma headerLen_after_LF_witness :
  let header := ascii_xyz_before ++ [x0a] ++ list_byte_of_string "DATA" ++ [x20]
                ++ list_byte_of_string "ascii" ++ [x0a] in
  header ++ ascii_xyz_payload = file_ascii_xyz /\
  find_DATA (TextDecoder_decode file_ascii_xyz) = Ok (lit "ascii", 46) /\
  drop 46 file_ascii_xyz = ascii_xyz_payload.
Proof.
  intros header.
  assert (H1 : forallb is_ascii header = true) by reflexivity.
  assert (H2 : ascii_xyz_before <> []) by discriminate.
  assert (H3 : first_break_before_DATA (codes header) = Some (length ascii_xyz_before))
    by reflexivity.
  assert (H4 : length (list_byte_of_string "DATA") = 4%nat) by reflexivity.
  assert (H5 : is_space (byte_val x20) = true) by reflexivity.
  assert (H6 : forallb non_space (codes (list_byte_of_string "ascii")) = true)
    by reflexivity.
  destruct (headerLen_after_LF ascii_xyz_before (list_byte_of_string "DATA")
              (list_byte_of_string "ascii") ascii_xyz_payload x0a x20
              H1 H2 H3 H4 H5 H6) as [Hfind _].
  split; [reflexivity|]. split; [exact Hfind | reflexivity].
Defined.

(** C7.  With CRLF line endings the pattern ends at the CR: the header
    length is the offset of the LF that ends the DATA line, one less than
    the offset just after it, where the payload begins. *)
Lemma headerLen_CRLF :
  res_map headerLen (parseHeader (TextDecoder_decode file_CRLF)) = Ok 49 /\
  file_CRLF !! 49%nat = Some x0a /\
  spec_headerByteLength true file_CRLF 0 = Some 50%nat.
Proof. repeat split; reflexivity. Qed.

(** The view over the payload starts at the LF of the DATA line: each
    number is read one byte early. *)
Lemma binary_CRLF_read_early :
  res_map headerLen (parseHeader (TextDecoder_decode file_binary_CRLF)) = Ok 73 /\
  file_binary_CRLF !! 73%nat = Some x0a /\
  float32_at true file_binary_CRLF 74 = of_Z 1 /\
  parse (fun c => c) true file_binary_CRLF =
  Ok (Geometry (Some (f32_of_bits <$> [2147483658; 63; 1073741888]))
               None None None None false).
Proof. repeat split; vm_compute; reflexivity. Qed.

(** The rest of the header is read from the text before the header
    length. *)
Lemma parseHeader_inv (text : jsstring) (h : PCDheader) :
  parseHeader text = Ok h ->
  find_DATA text = Ok (data h, headerLen h) /\
  str h = replace_all_empty re_comment (slice text 0 (Some (headerLen h))) /\
  fields h = match keyword "FIELDS" (str h) with
             | Some v => split SP v
             | None => []
             end /\
  size h = (fun v => (fun x => parseInt (Some x) (Some 10)) <$> split SP v)
             <$> keyword "SIZE" (str h) /\
  count h = match keyword "COUNT" (str h) with
            | Some v => (fun x => parseInt (Some x) (Some 10)) <$> split SP v
            | None => replicate (length (fields h)) (of_Z 1)
            end /\
  width h = (fun v => parseInt (Some v) None) <$> keyword "WIDTH" (str h) /\
  height h = (fun v => parseInt (Some v) None) <$> keyword "HEIGHT" (str h) /\
  points h = match keyword "POINTS" (str h) with
             | Some v => parseInt (Some v) (Some 10)
             | None => mul (null_to_num (width h)) (null_to_num (height h))
             end /\
  offset_loop (bool_decide (data h = lit "ascii")) (size h) (count h) (fields h) 0
              (∅, of_Z 0) = Ok (offset h, rowSize h).
Proof.
  unfold parseHeader.
  destruct (find_DATA text) as [[d hl]| |]; cbn [bind]; try discriminate.
  match goal with
  | |- (do st <- ?e; _) = _ -> _ =>
      destruct e as [[o sum]| |] eqn:Hloop; cbn [bind]; try discriminate
  end.
  intros [= <-]. cbn. repeat split; assumption.
Qed.

(** C5.  When the header has no POINTS keyword (its pattern finds
    nothing in the header text), the point count is the product of the
    width and the height. *)
Theorem points_default (text : jsstring) (h : PCDheader) :
  parseHeader text = Ok h ->
  keyword "POINTS" (str h) = None ->
  points h = mul (null_to_num (width h)) (null_to_num (height h)).
Proof.
  intros Hh Hnone.
  destruct (parseHeader_inv text h Hh) as (_ & _ & _ & _ & _ & _ & _ & Hp & _).
  rewrite Hp, Hnone. reflexivity.
Qed.

Lemma points_default_witness :
  exists h,
    parseHeader (TextDecoder_decode file_width_height) = Ok h /\
    keyword "POINTS" (str h) = None /\
    width h = Some (of_Z 4) /\ height h = Some (of_Z 2) /\
    points h = of_Z 8.
Proof.
  eexists. split; [vm_compute; reflexivity|].
  match goal with
  | |- keyword _ (str ?h0) = None /\ _ =>
      assert (Hh : parseHeader (TextDecoder_decode file_width_height) = Ok h0)
        by (vm_compute; reflexivity);
      assert (Hk : keyword "POINTS" (str h0) = None) by (vm_compute; reflexivity);
      pose proof (points_default _ h0 Hh Hk) as Hp
  end.
  split; [exact Hk|].
  split; [vm_compute; reflexivity|]. split; [vm_compute; reflexivity|].
  rewrite Hp. vm_compute. reflexivity.
Defined.

(** *** The offset table *)

Lemma lookup_set_property (o : gmap jsstring num) (k g : jsstring) (v : num) :
  set_property o k v !! g =
  if decide (k = g /\ k <> lit "__proto__") then Some v else o !! g.
Proof.
  unfold set_property. destruct (decide (k = lit "__proto__")) as [Hp|Hp].
  - destruct (decide (k = g /\ k <> lit "__proto__")) as [[_ ?]|_]; [contradiction|].
    reflexivity.
  - rewrite lookup_insert. destruct (decide (k = g)) as [->|Hne].
    + destruct (decide (g = g /\ g <> lit "__proto__")) as [_|Hn]; [reflexivity|].
      exfalso. apply Hn. auto.
    + destruct (decide (k = g /\ k <> lit "__proto__")) as [[? _]|_]; [contradiction|].
      reflexivity.
Qed.

Lemma last_occurrence_cons (f g : jsstring) (rest : list jsstring) (j : nat) :
  last_occurrence (f :: rest) j g ->
  (j = O /\ g = f /\ g ∉ rest) \/
  (exists j', j = S j' /\ last_occurrence rest j' g).
Proof.
  intros [Hj Hlast]. destruct j as [|j'].
  - left. cbn in Hj. injection Hj as <-. repeat split.
    intros Hin. apply list_elem_of_lookup in Hin as [i Hi].
    apply (Hlast (S i)); [lia | exact Hi].
  - right. exists j'. split; [reflexivity|]. split; [exact Hj|].
    intros i Hi. apply (Hlast (S i)). lia.
Qed.

(** What the loop of lines 190-197 leaves in the table and in
    [sizeSum], started at index [i] with the sum of the fields before
    [i]. *)
Lemma offset_loop_spec (ascii : bool) (size : option (list num)) (count : list num)
    (rest : list jsstring) :
  forall (i : nat) (o o' : gmap jsstring num) (sum sum' : num),
    offset_loop ascii size count rest i (o, sum) = Ok (o', sum') ->
    (forall g, g ∉ rest -> o' !! g = o !! g) /\
    (forall g, g <> lit "__proto__" -> is_Some (o' !! g) <-> is_Some (o !! g) \/ g ∈ rest) /\
    (ascii = true ->
     sum' = sum /\
     forall j g, last_occurrence rest j g -> g <> lit "__proto__" ->
                 o' !! g = Some (of_Z (Z.of_nat (i + j)))) /\
    (ascii = false ->
     sum = cumulative (default [] size) count i ->
     sum' = cumulative (default [] size) count (i + length rest) /\
     forall j g, last_occurrence rest j g -> g <> lit "__proto__" ->
                 o' !! g = Some (cumulative (default [] size) count (i + j))).
Proof.
  induction rest as [|f rest IH]; intros i o o' sum sum' Hloop.
  - cbn [offset_loop] in Hloop. injection Hloop as <- <-.
    split; [reflexivity|]. split.
    { intros g _. split; [auto|]. intros [H|H]; [exact H|]. inversion H. }
    split.
    + intros _. split; [reflexivity|]. intros j g [Hj _]. discriminate Hj.
    + intros _ Hsum. rewrite Nat.add_0_r. split; [exact Hsum|].
      intros j g [Hj _]. discriminate Hj.
  - cbn [offset_loop] in Hloop.
    destruct ascii.
    + cbn [bind] in Hloop.
      destruct (IH _ _ _ _ _ Hloop) as (Hkeep & Hdom & Hasc & _).
      destruct (Hasc eq_refl) as [Hsum Hoff].
      split; [|split; [|split]].
      * intros g Hg. rewrite Hkeep by (intros ?; apply Hg; right; assumption).
        rewrite lookup_set_property.
        destruct (decide (f = g /\ f <> lit "__proto__")) as [[-> _]|_];
          [exfalso; apply Hg; left | reflexivity].
      * intros g Hg. rewrite (Hdom g Hg), lookup_set_property.
        destruct (decide (f = g /\ f <> lit "__proto__")) as [[-> _]|Hn].
        -- split; [intros _; right; left | intros _; left; eauto].
        -- split.
           ++ intros [H|H]; [left; exact H | right; right; exact H].
           ++ intros [H|H]; [left; exact H |].
              apply elem_of_cons in H as [->|H]; [|right; exact H].
              exfalso. apply Hn. auto.
      * intros _. split; [exact Hsum|].
        intros j g Hlast Hg.
        destruct (last_occurrence_cons _ _ _ _ Hlast) as [(-> & -> & Hnot)|(j' & -> & Hl')].
        -- rewrite Hkeep by exact Hnot. rewrite lookup_set_property.
           destruct (decide (f = f /\ f <> lit "__proto__")) as [_|Hn];
             [rewrite Nat.add_0_r; reflexivity | exfalso; apply Hn; auto].
        -- rewrite (Hoff j' g Hl' Hg). do 3 f_equal. lia.
      * discriminate.
    + destruct size as [sz|]; cbn [bind] in Hloop; [|discriminate].
      destruct (IH _ _ _ _ _ Hloop) as (Hkeep & Hdom & _ & Hbin).
      split; [|split; [|split]].
      * intros g Hg. rewrite Hkeep by (intros ?; apply Hg; right; assumption).
        rewrite lookup_set_property.
        destruct (decide (f = g /\ f <> lit "__proto__")) as [[-> _]|_];
          [exfalso; apply Hg; left | reflexivity].
      * intros g Hg. rewrite (Hdom g Hg), lookup_set_property.
        destruct (decide (f = g /\ f <> lit "__proto__")) as [[-> _]|Hn].
        -- split; [intros _; right; left | intros _; left; eauto].
        -- split.
           ++ intros [H|H]; [left; exact H | right; right; exact H].
           ++ intros [H|H]; [left; exact H |].
              apply elem_of_cons in H as [->|H]; [|right; exact H].
              exfalso. apply Hn. auto.
      * discriminate.
      * intros _ Hsum. cbn [default from_option id] in *.
        destruct (Hbin eq_refl) as [Hsum' Hoff].
        { rewrite Hsum. reflexivity. }
        split.
        -- rewrite Hsum'. cbn [length]. f_equal. lia.
        -- intros j g Hlast Hg.
           destruct (last_occurrence_cons _ _ _ _ Hlast)
             as [(-> & -> & Hnot)|(j' & -> & Hl')].
           ++ rewrite Hkeep by exact Hnot. rewrite lookup_set_property.
              destruct (decide (f = f /\ f <> lit "__proto__")) as [_|Hn];
                [rewrite Nat.add_0_r, Hsum; reflexivity | exfalso; apply Hn; auto].
           ++ rewrite (Hoff j' g Hl' Hg). do 2 f_equal. lia.
Qed.

(** The offsets the loop of lines 190-197 leaves in a parsed header. *)
Lemma header_offsets (text : jsstring) (h : PCDheader) :
  parseHeader text = Ok h ->
  (keyword "COUNT" (str h) = None ->
   count h = replicate (length (fields h)) (of_Z 1)) /\
  (data h <> lit "ascii" ->
   rowSize h = cumulative (default [] (size h)) (count h) (length (fields h)) /\
   forall i f, last_occurrence (fields h) i f -> f <> lit "__proto__" ->
               offset h !! f = Some (cumulative (default [] (size h)) (count h) i)) /\
  (data h = lit "ascii" ->
   forall i f, last_occurrence (fields h) i f -> f <> lit "__proto__" ->
               offset h !! f = Some (of_Z (Z.of_nat i))).
Proof.
  intros Hh.
  destruct (parseHeader_inv text h Hh) as (_ & _ & _ & _ & Hc & _ & _ & _ & Hloop).
  split; [intros Hnone; rewrite Hc, Hnone; reflexivity|].
  destruct (offset_loop_spec _ _ _ _ _ _ _ _ _ Hloop) as (_ & _ & Hasc & Hbin).
  split.
  - intros Hne. rewrite bool_decide_eq_false_2 in Hbin by exact Hne.
    exact (Hbin eq_refl eq_refl).
  - intros He. rewrite bool_decide_eq_true_2 in Hasc by exact He.
    exact (proj2 (Hasc eq_refl)).
Qed.

(** X11.  The offset table of a parsed header.  For every field name other
    than [__proto__], at its last occurrence [i] among the fields: under
    any encoding but [ascii] the offset is the sum of [size * count]
    over the fields before [i], and the row size is the sum over all
    fields; under [ascii] the offset is [i].  The counts are all ones
    when the header has no COUNT keyword. *)
Lemma offsets_of_header (text : jsstring) (h : PCDheader) :
  parseHeader text = Ok h ->
  (keyword "COUNT" (str h) = None ->
   count h = replicate (length (fields h)) (of_Z 1)) /\
  (data h <> lit "ascii" ->
   rowSize h = cumulative (default [] (size h)) (count h) (length (fields h)) /\
   forall i f, last_occurrence (fields h) i f -> f <> lit "__proto__" ->
               offset h !! f = Some (cumulative (default [] (size h)) (count h) i)) /\
  (data h = lit "ascii" ->
   forall i f, last_occurrence (fields h) i f -> f <> lit "__proto__" ->
               offset h !! f = Some (of_Z (Z.of_nat i))).
Proof. exact (header_offsets text h). Qed.

(** A declared name is a property of the table, [__proto__] apart. *)
Lemma has_field (text : jsstring) (h : PCDheader) (name : string) :
  parseHeader text = Ok h ->
  lit name <> lit "__proto__" ->
  has h name = true <-> lit name ∈ fields h.
Proof.
  intros Hh Hne.
  destruct (parseHeader_inv text h Hh) as (_ & _ & _ & _ & _ & _ & _ & _ & Hloop).
  destruct (offset_loop_spec _ _ _ _ _ _ _ _ _ Hloop) as (_ & Hdom & _).
  unfold has. rewrite bool_decide_eq_true, (Hdom _ Hne), lookup_empty.
  split; [intros [H|H]; [destruct H; discriminate | exact H] | auto].
Qed.

(** C6 at the field name [__proto__]: the header declares it with size
    4 after [x], so its offset should be 4, but the table has no entry
    for it (the other two offsets, 0 and 8, are as claimed). *)
Theorem offset_of_proto_missing :
  exists h,
    parseHeader (TextDecoder_decode file_proto) = Ok h /\
    fields h = [lit "x"; lit "__proto__"; lit "y"] /\
    cumulative (default [] (size h)) (count h) 1 = of_Z 4 /\
    offset h !! lit "__proto__" = None /\
    offset h !! lit "x" = Some (of_Z 0) /\
    offset h !! lit "y" = Some (of_Z 8).
Proof.
  eexists. split; [vm_compute; reflexivity|].
  repeat split; vm_compute; reflexivity.
Qed.

(** ** The body decoders *)

Lemma Ok_inj {A : Type} (a b : A) : Ok a = Ok b -> a = b.
Proof. intros [= ->]. reflexivity. Qed.

Ltac inv_res :=
  repeat match goal with
         | H : bind ?e _ = Ok _ |- _ =>
             let E := fresh "E" in
             destruct e eqn:E; cbn [bind] in H; try discriminate H
         | H : (if ?b then _ else _) = Ok _ |- _ => destruct b eqn:?
         | H : match ?o with Some _ => _ | None => _ end = Ok _ |- _ =>
             destruct o eqn:?; try discriminate H
         | H : Ok _ = Ok _ |- _ => apply Ok_inj in H; subst
         | H : (_, _) = (_, _) |- _ =>
             apply pair_equal_spec in H; destruct H; subst
         end.

(** ** The search for the DATA line (lines 126-132) *)

(** What [exec] returns: the leftmost index at which the pattern
    matches. *)
Lemma exec_from_Some (r : regex) (s : jsstring) :
  forall (i : nat) (m : match_result),
    exec_from r s i = Some m ->
    exists k n cs ce,
      (k <= length s)%nat /\
      (forall j, (j < k)%nat -> match_here r (drop j s) 0 0 0 = None) /\
      match_here r (drop k s) 0 0 0 = Some (n, cs, ce) /\
      m = Match (i + k) (take n (drop k s)) (take (ce - cs) (drop cs (drop k s))).
Proof.
  induction s as [|c s IH]; intros i m H.
  - cbn [exec_from] in H.
    destruct (match_here r [] 0 0 0) as [[[n cs] ce]|] eqn:E; [|discriminate].
    injection H as <-. exists 0%nat, n, cs, ce.
    rewrite Nat.add_0_r. repeat split; [cbn; lia | intros j Hj; lia | exact E].
  - cbn [exec_from] in H.
    destruct (match_here r (c :: s) 0 0 0) as [[[n cs] ce]|] eqn:E.
    + injection H as <-. exists 0%nat, n, cs, ce.
      rewrite Nat.add_0_r. repeat split; [cbn; lia | intros j Hj; lia | exact E].
    + destruct (IH _ _ H) as (k & n & cs & ce & Hk & Hbefore & Hat & ->).
      exists (S k), n, cs, ce. repeat split.
      * cbn [length]. lia.
      * intros [|j] Hj; [exact E|]. apply Hbefore. lia.
      * exact Hat.
      * f_equal. lia.
Qed.

Lemma exec_from_None (r : regex) (s : jsstring) :
  forall i, exec_from r s i = None <-> forall j, match_here r (drop j s) 0 0 0 = None.
Proof.
  induction s as [|c s IH]; intros i; cbn [exec_from].
  - destruct (match_here r [] 0 0 0) as [[[n cs] ce]|] eqn:E.
    + split; [discriminate|]. intros H. specialize (H 0%nat). cbn in H. congruence.
    + split; [|reflexivity]. intros _ j. rewrite drop_nil. exact E.
  - destruct (match_here r (c :: s) 0 0 0) as [[[n cs] ce]|] eqn:E.
    + split; [discriminate|]. intros H. specialize (H 0%nat). cbn in H. congruence.
    + rewrite IH. split.
      * intros H [|j]; [exact E | apply H].
      * intros H j. apply (H (S j)).
Qed.

Lemma exec_from_at (r : regex) (k : nat) :
  forall (s : jsstring) (i n cs ce : nat),
    (forall j, (j < k)%nat -> match_here r (drop j s) 0 0 0 = None) ->
    match_here r (drop k s) 0 0 0 = Some (n, cs, ce) ->
    (k <= length s)%nat ->
    exec_from r s i =
    Some (Match (i + k) (take n (drop k s)) (take (ce - cs) (drop cs (drop k s)))).
Proof.
  induction k as [|k IH]; intros s i n cs ce Hbefore Hat Hk.
  - rewrite Nat.add_0_r. apply exec_from_match. exact Hat.
  - destruct s as [|c s]; [cbn in Hk; lia|].
    pose proof (Hbefore 0%nat ltac:(lia)) as H0.
    change (drop 0 (c :: s)) with (c :: s) in H0.
    cbn [exec_from]. rewrite H0.
    change (drop (S k) (c :: s)) with (drop k s) in *.
    rewrite (IH s (S i) n cs ce).
    + do 2 f_equal. lia.
    + intros j Hj. apply (Hbefore (S j)). lia.
    + exact Hat.
    + cbn in Hk. lia.
Qed.

(** What a star has taken is a run of its class. *)
Lemma match_Star_inv (p : Z -> bool) (r : regex) (s : jsstring) :
  forall (pos cs ce : nat) (m : nat * nat * nat),
    match_here (Star p :: r) s pos cs ce = Some m ->
    exists run rest,
      s = run ++ rest /\ forallb p run = true /\
      match_here r rest (pos + length run) cs ce = Some m.
Proof.
  induction s as [|c s IH]; intros pos cs ce m H.
  - exists [], []. cbn [match_here] in H. rewrite Nat.add_0_r. auto.
  - cbn [match_here] in H.
    destruct (p c) eqn:Hc.
    + change ((fix star (s0 : jsstring) (pos0 : nat) {struct s0} :=
                 match s0 with
                 | [] => match_here r s0 pos0 cs ce
                 | c0 :: s' =>
                     if p c0
                     then match star s' (S pos0) with
                          | Some m0 => Some m0
                          | None => match_here r s0 pos0 cs ce
                          end
                     else match_here r s0 pos0 cs ce
                 end) s (S pos))
        with (match_here (Star p :: r) s (S pos) cs ce) in H.
      destruct (match_here (Star p :: r) s (S pos) cs ce) as [m'|] eqn:E.
      * injection H as <-.
        destruct (IH _ _ _ _ E) as (run & rest & -> & Hrun & Hm).
        exists (c :: run), rest. cbn [app forallb length]. rewrite Hc, Hrun.
        replace (pos + S (length run))%nat with (S pos + length run)%nat by lia.
        auto.
      * exists [], (c :: s). rewrite Nat.add_0_r. auto.
    + exists [], (c :: s). rewrite Nat.add_0_r. auto.
Qed.

(** The shape of a match of the pattern of the DATA line. *)
Lemma match_DATA_shape (s : jsstring) (n cs ce : nat) :
  match_here re_DATA s 0 0 0 = Some (n, cs, ce) ->
  exists nl kw sp value ws rest,
    s = nl :: kw ++ sp :: value ++ ws :: rest /\
    cr_or_lf nl = true /\
    length kw = 4%nat /\ starts_DATA kw = true /\
    is_space sp = true /\
    forallb non_space value = true /\
    is_space ws = true /\
    n = (7 + length value)%nat /\ cs = 6%nat /\ ce = (6 + length value)%nat.
Proof.
  rewrite re_DATA_eq. intros H.
  destruct s as [|nl [|d [|a [|t [|a' [|sp s]]]]]]; try discriminate H;
    rewrite ?match_Chr in H;
    repeat match type of H with
           | (if ?b then _ else _) = Some _ => destruct b eqn:?; [|discriminate H]
           | _ => rewrite match_Chr in H
           end;
    try discriminate H.
  rewrite match_Open in H.
  destruct (match_Star_inv _ _ _ _ _ _ _ H) as (value & rest & -> & Hval & Hm).
  rewrite match_Close in Hm.
  destruct rest as [|ws rest]; [discriminate Hm|].
  rewrite match_Chr in Hm. destruct (is_space ws) eqn:Hws; [|discriminate Hm].
  cbn [match_here] in Hm. injection Hm as <- <- <-.
  exists nl, [d; a; t; a'], sp, value, ws, rest.
  repeat split; try assumption; try reflexivity; try lia.
  cbn [starts_DATA].
  repeat match goal with H : _ = true |- _ => rewrite H end. reflexivity.
Qed.

Lemma match_DATA_short (s : jsstring) :
  (length s < 7)%nat -> match_here re_DATA s 0 0 0 = None.
Proof.
  intros Hs. destruct (match_here re_DATA s 0 0 0) as [[[n cs] ce]|] eqn:E;
    [|reflexivity].
  destruct (match_DATA_shape _ _ _ _ E)
    as (nl & kw & sp & value & ws & rest & -> & _ & Hkw & _).
  cbn [length] in Hs. rewrite length_app in Hs. cbn [length] in Hs.
  rewrite length_app in Hs. cbn [length] in Hs. lia.
Qed.

(** Lines 126-132 in terms of one search: [search] gives the index of
    the leftmost match, and [exec] on the text from one character
    before it finds the same match; at index 0 the slice is the last
    character of the text, where nothing matches. *)
Lemma find_DATA_exec (text : jsstring) :
  find_DATA text =
  match exec re_DATA text with
  | Some m =>
      if (m_index m =? 0)%nat then Throw TypeError
      else Ok (m_group m, Z.of_nat (m_index m + length (m_text m)))
  | None => Throw TypeError
  end.
Proof.
  unfold find_DATA, search.
  destruct (exec re_DATA text) as [m|] eqn:E.
  - unfold exec in E.
    destruct (exec_from_Some _ _ _ _ E) as (k & n & cs & ce & Hk & Hbefore & Hat & ->).
    cbn [m_index m_text m_group]. rewrite Nat.add_0_l.
    rewrite slice_to_end.
    destruct k as [|k].
    + cbn [Nat.eqb]. 
      assert (Hnone : exec re_DATA
                        (drop (slice_index (length text) (Z.of_nat 0 - 1)) text)
                      = None).
      { unfold exec. apply exec_from_None. intros j. apply match_DATA_short.
        rewrite !length_drop. unfold slice_index.
        change (Z.of_nat 0 - 1 <? 0) with true. cbv iota. lia. }
      rewrite Hnone. reflexivity.
    + cbn [Nat.eqb].
      assert (Hidx : slice_index (length text) (Z.of_nat (S k) - 1) = k).
      { unfold slice_index. destruct (Z.ltb_spec (Z.of_nat (S k) - 1) 0); lia. }
      rewrite Hidx. unfold exec.
      rewrite (exec_from_at re_DATA 1 (drop k text) 0 n cs ce).
      * rewrite drop_drop. replace (k + 1)%nat with (S k) by lia.
        cbn [m_group m_text]. do 2 f_equal. lia.
      * intros j Hj. replace j with 0%nat by lia.
        change (drop 0 (drop k text)) with (drop k text).
        apply Hbefore. lia.
      * rewrite drop_drop. replace (k + 1)%nat with (S k) by lia. exact Hat.
      * rewrite length_drop. lia.
  - assert (Hnone : exec re_DATA (slice text (-1 - 1) None) = None).
    { unfold exec in *. rewrite slice_to_end. apply exec_from_None. intros j.
      rewrite drop_drop. apply (proj1 (exec_from_None _ _ _) E). }
    rewrite Hnone. reflexivity.
Qed.

(** The shape of a text in which the header is found. *)
Lemma parseHeader_shape (text : jsstring) (h : PCDheader) :
  parseHeader text = Ok h ->
  exists before nl kw sp ws rest,
    text = before ++ nl :: kw ++ sp :: data h ++ ws :: rest /\
    before <> [] /\
    cr_or_lf nl = true /\
    length kw = 4%nat /\ starts_DATA kw = true /\
    is_space sp = true /\
    forallb non_space (data h) = true /\
    is_space ws = true /\
    headerLen h = Z.of_nat (length before + 7 + length (data h)) /\
    forall j, (j < length before)%nat -> match_here re_DATA (drop j text) 0 0 0 = None.
Proof.
  intros Hh. destruct (parseHeader_inv _ _ Hh) as (Hfind & _).
  rewrite find_DATA_exec in Hfind.
  destruct (exec re_DATA text) as [m|] eqn:E; [|discriminate].
  destruct (Nat.eqb_spec (m_index m) 0) as [|Hidx]; [discriminate|].
  apply Ok_inj in Hfind. apply pair_equal_spec in Hfind as [Hdata Hlen].
  unfold exec in E.
  destruct (exec_from_Some _ _ _ _ E) as (k & n & cs & ce & Hk & Hbefore & Hat & ->).
  cbn [m_index m_text m_group] in *.
  destruct (match_DATA_shape _ _ _ _ Hat)
    as (nl & kw & sp & value & ws & rest & Hdrop & Hnl & Hkw4 & Hkw & Hsp & Hval
        & Hws & -> & -> & ->).
  assert (Hvalue : data h = value).
  { rewrite <- Hdata, Hdrop.
    replace (6 + length value - 6)%nat with (length value) by lia.
    destruct kw as [|d [|a [|t [|a' [|]]]]]; try discriminate Hkw4.
    cbn [app]. change (drop 6 (nl :: d :: a :: t :: a' :: sp :: value ++ ws :: rest))
      with (value ++ ws :: rest).
    rewrite take_app_length. reflexivity. }
  exists (take k text), nl, kw, sp, ws, rest.
  rewrite Hvalue. repeat split; try assumption.
  - rewrite <- Hdrop. symmetry. apply take_drop.
  - intros Hnil. apply (f_equal length) in Hnil.
    rewrite length_take in Hnil. cbn [length] in Hnil. lia.
  - rewrite <- Hlen, Hdrop. rewrite !length_take. cbn [length].
    rewrite length_app. cbn [length]. rewrite length_app. cbn [length].
    rewrite Hkw4. lia.
  - intros j Hj. apply Hbefore. rewrite length_take in Hj. lia.
Qed.

(** X6.  When the header is found, the text is: at least one character,
    a CR or LF, the keyword in any case, one white-space character, the
    value, which has no white space in it, and one more white-space
    character; the header ends with that character, whatever follows,
    and nowhere before does the pattern match. *)
Theorem header_ends_after_DATA_value (text : jsstring) (h : PCDheader) :
  parseHeader text = Ok h ->
  exists before nl kw sp ws rest,
    text = before ++ nl :: kw ++ sp :: data h ++ ws :: rest /\
    before <> [] /\
    cr_or_lf nl = true /\
    length kw = 4%nat /\ starts_DATA kw = true /\
    is_space sp = true /\
    forallb non_space (data h) = true /\
    is_space ws = true /\
    headerLen h = Z.of_nat (length before + 7 + length (data h)) /\
    forall j, (j < length before)%nat -> match_here re_DATA (drop j text) 0 0 0 = None.
Proof. exact (parseHeader_shape text h). Qed.

(** X7.  A text that begins with the line break of its DATA line is
    rejected: the slice of line 128 then starts at index -1 and is the
    last character of the text, in which the pattern finds nothing. *)
Theorem DATA_line_at_start_rejected
    (convertSRGBToLinear : num * num * num -> num * num * num)
    (littleEndian : bool) (bytes : list byte) (nl sp ws : Z) (kw value rest : jsstring) :
  TextDecoder_decode bytes = nl :: kw ++ sp :: value ++ ws :: rest ->
  cr_or_lf nl = true ->
  length kw = 4%nat -> starts_DATA kw = true ->
  is_space sp = true ->
  forallb non_space value = true ->
  is_space ws = true ->
  parse convertSRGBToLinear littleEndian bytes = Throw TypeError.
Proof.
  intros Htext Hnl Hkw4 Hkw Hsp Hval Hws.
  pose proof (match_DATA_line nl sp ws kw value rest Hnl Hkw4 Hkw Hsp Hval Hws) as Hm.
  unfold parse, parseHeader. rewrite find_DATA_exec, Htext. unfold exec.
  rewrite (exec_from_match _ _ 0 _ _ _ Hm). reflexivity.
Qed.

(** ** No DATA line after a line break *)

Lemma match_DATA_line_after_break (s : jsstring) (n cs ce : nat) :
  match_here re_DATA s 0 0 0 = Some (n, cs, ce) -> DATA_line_after_break s = true.
Proof.
  intros H.
  destruct (match_DATA_shape _ _ _ _ H)
    as (nl & kw & sp & value & ws & rest & -> & Hnl & Hkw4 & Hkw & Hsp & _ & Hws & _).
  destruct kw as [|d [|a [|t [|a' [|]]]]]; try discriminate Hkw4.
  cbn [app DATA_line_after_break]. rewrite Hnl, Hkw, Hsp.
  rewrite existsb_app. cbn [existsb]. rewrite Hws.
  cbn [andb]. apply orb_true_r.
Qed.

Lemma first_DATA_line_None (s : jsstring) :
  first_DATA_line s = None -> forall j, match_here re_DATA (drop j s) 0 0 0 = None.
Proof.
  induction s as [|c s IH]; intros Hnone j.
  - rewrite drop_nil. apply match_DATA_short. cbn. lia.
  - cbn [first_DATA_line] in Hnone.
    destruct (DATA_line_after_break (c :: s)) eqn:Hc; [discriminate|].
    destruct (first_DATA_line s) eqn:Hs; [discriminate|].
    destruct j as [|j].
    + change (drop 0 (c :: s)) with (c :: s).
      destruct (match_here re_DATA (c :: s) 0 0 0) as [[[n cs] ce]|] eqn:Hm;
        [|reflexivity].
      apply match_DATA_line_after_break in Hm. congruence.
    + change (drop (S j) (c :: s)) with (drop j s). apply IH. reflexivity.
Qed.

(** C10 (amended).  When no CR or LF of the decoded text is followed by
    a DATA line (the keyword, a white-space character, and a value
    ended by a white-space character), as when the only DATA line of
    the file is its first line, the header parser finds no DATA line and
    [parse] throws a [TypeError] instead of returning a geometry. *)
Theorem parse_needs_DATA_line_after_break
    (convertSRGBToLinear : num * num * num -> num * num * num)
    (littleEndian : bool) (data : list byte) :
  first_DATA_line (TextDecoder_decode data) = None ->
  parse convertSRGBToLinear littleEndian data = Throw TypeError.
Proof.
  intros Hnone. unfold parse, parseHeader. rewrite find_DATA_exec.
  unfold exec.
  rewrite (proj2 (exec_from_None re_DATA _ 0) (first_DATA_line_None _ Hnone)).
  reflexivity.
Qed.

Lemma parse_needs_DATA_line_after_break_witness :
  starts_DATA (TextDecoder_decode file_DATA_database) = true /\
  first_break_before_DATA (TextDecoder_decode file_DATA_database) = Some 10%nat /\
  first_DATA_line (TextDecoder_decode file_DATA_database) = None /\
  parse (fun c => c) true file_DATA_database = Throw TypeError.
Proof.
  split; [reflexivity|]. split; [reflexivity|].
  assert (H : first_DATA_line (TextDecoder_decode file_DATA_database) = None)
    by reflexivity.
  exact (conj H (parse_needs_DATA_line_after_break (fun c => c) true
                   file_DATA_database H)).
Defined.

(** The DATA line is the first line of the file, no line break stands
    before its keyword, and [parse] returns a geometry: the pattern
    finds the second DATA line. *)
Lemma DATA_first_line_parsed :
  take 11 (TextDecoder_decode file_DATA_twice) = lit "DATA ascii" ++ [LF] /\
  res_map headerLen (parseHeader (TextDecoder_decode file_DATA_twice)) = Ok 22 /\
  forall convertSRGBToLinear littleEndian,
    parse convertSRGBToLinear littleEndian file_DATA_twice =
    Ok (Geometry None None None None None false).
Proof.
  split; [reflexivity|]. split; [reflexivity|].
  intros. vm_compute. reflexivity.
Qed.

(** ** What [parseHeader] returns *)

Lemma split_not_nil (sep : Z) (s : jsstring) : split sep s <> [].
Proof.
  induction s as [|c s IH]; cbn [split]; [discriminate|].
  destruct (c =? sep); [discriminate|]. destruct (split sep s); discriminate.
Qed.

Lemma offset_loop_returns (ascii : bool) (size : option (list num)) (count : list num)
    (rest : list jsstring) :
  forall (i : nat) (st : gmap jsstring num * num),
    ascii = true \/ is_Some size ->
    exists st', offset_loop ascii size count rest i st = Ok st'.
Proof.
  induction rest as [|f rest IH]; intros i [o sum] H; cbn [offset_loop]; [eauto|].
  destruct ascii; cbn [bind]; [apply IH; exact H|].
  destruct H as [H|[sz ->]]; [discriminate|]. cbn [bind]. apply IH. eauto.
Qed.

Lemma find_DATA_throws (text : jsstring) (e : exn) :
  find_DATA text = Throw e -> e = TypeError.
Proof.
  unfold find_DATA. destruct (exec re_DATA _); [discriminate|]. congruence.
Qed.

Lemma find_DATA_returns (text : jsstring) : find_DATA text <> NoReturn.
Proof. unfold find_DATA. destruct (exec re_DATA _); discriminate. Qed.

(** When the header parser returns, and what it does otherwise. *)
Lemma parseHeader_outcome (text : jsstring) :
  ((exists h, parseHeader text = Ok h) <->
   exists d n,
     find_DATA text = Ok (d, n) /\
     (d = lit "ascii" \/
      keyword "FIELDS" (replace_all_empty re_comment (slice text 0 (Some n))) = None \/
      is_Some (keyword "SIZE" (replace_all_empty re_comment (slice text 0 (Some n)))))) /\
  ((exists h, parseHeader text = Ok h) \/ parseHeader text = Throw TypeError).
Proof.
  unfold parseHeader.
  destruct (find_DATA text) as [[d n]|e|] eqn:Hf; cbn [bind].
  2:{ apply find_DATA_throws in Hf as ->. split; [|right; reflexivity].
      split; [intros [h Hh]; discriminate | intros (d & n & Hd & _); discriminate]. }
  2:{ exfalso. exact (find_DATA_returns _ Hf). }
  cbv zeta.
  set (str := replace_all_empty re_comment (slice text 0 (Some n))).
  destruct (keyword "FIELDS" str) as [fv|] eqn:Hfields.
  - destruct (keyword "SIZE" str) as [sv|] eqn:Hsize.
    + match goal with
      | |- context [offset_loop ?a ?sz ?c ?r ?i ?st] =>
          destruct (offset_loop_returns a sz c r i st) as [st' Hst];
            [right; cbn [fmap option_fmap option_map]; eauto|]
      end.
      cbn [fmap option_fmap option_map] in Hst |- *.
      rewrite Hst. cbn [bind]. split; [|left; eauto].
      split; [|eauto]. intros _. exists d, n. split; [reflexivity|].
      right. right. eauto.
    + cbn [fmap option_fmap option_map].
      destruct (decide (d = lit "ascii")) as [Hd|Hd].
      * match goal with
        | |- context [offset_loop ?a ?sz ?c ?r ?i ?st] =>
            destruct (offset_loop_returns a sz c r i st) as [st' Hst];
              [left; apply bool_decide_eq_true; exact Hd|]
        end.
        rewrite Hst. cbn [bind]. split; [|left; eauto].
        split; [|eauto]. intros _. exists d, n. split; [reflexivity|]. left. exact Hd.
      * rewrite (bool_decide_eq_false_2 _ Hd).
        destruct (split SP fv) as [|f rest] eqn:Hsplit;
          [exfalso; exact (split_not_nil _ _ Hsplit)|].
        cbn [offset_loop bind]. split; [|right; reflexivity].
        split; [intros [h Hh]; discriminate|].
        intros (d' & n' & Heq & Hcase). apply Ok_inj in Heq.
        apply pair_equal_spec in Heq as [<- <-]. fold str in Hcase.
        rewrite Hsize in Hcase.
        destruct Hcase as [?|[?|[? ?]]]; [contradiction|congruence|discriminate].
  - cbn [offset_loop bind]. split; [|left; eauto].
    split; [|eauto]. intros _. exists d, n. split; [reflexivity|].
    right. left. exact Hfields.
Qed.

(** X8.  The header parser returns a header or throws a [TypeError].
    It returns exactly when the DATA line is found and the offsets can
    be computed: the encoding is ascii, or there is no FIELDS line, or
    there is a SIZE line.  A binary file with fields and no SIZE line is
    rejected when the size of the first field is read from [null]. *)
Theorem parseHeader_returns_iff (text : jsstring) :
  ((exists h, parseHeader text = Ok h) <->
   exists d n,
     find_DATA text = Ok (d, n) /\
     (d = lit "ascii" \/
      keyword "FIELDS" (replace_all_empty re_comment (slice text 0 (Some n))) = None \/
      is_Some (keyword "SIZE" (replace_all_empty re_comment (slice text 0 (Some n)))))) /\
  ((exists h, parseHeader text = Ok h) \/ parseHeader text = Throw TypeError).
Proof. exact (parseHeader_outcome text). Qed.

(** ** Comments (line 136) *)

Lemma chr_i_hash (c : Z) : chr_i 35 c = (c =? 35).
Proof.
  unfold chr_i, upper. cbn [Z.leb Z.compare Pos.compare Pos.compare_cont andb].
  destruct (97 <=? c) eqn:H1; destruct (c <=? 122) eqn:H2; cbn [andb];
    try reflexivity.
  apply Z.leb_le in H1. destruct (Z.eqb_spec (c - 32) 35), (Z.eqb_spec c 35);
    try reflexivity; lia.
Qed.

Lemma dot_false_not_hash (c : Z) : dot c = false -> (c =? 35) = false.
Proof.
  unfold dot, is_line_terminator. intros H. destruct (Z.eqb_spec c 35) as [->|];
    [discriminate H | reflexivity].
Qed.

(** The tail of the comment pattern takes what is left of the line. *)
Lemma match_rest_of_line (s : jsstring) :
  forall pos cs ce : nat,
    exists n,
      match_here [Star dot] s pos cs ce = Some ((pos + n)%nat, cs, ce) /\
      (n <= length s)%nat /\
      strip_comments true s = strip_comments false (drop n s).
Proof.
  induction s as [|c s IH]; intros pos cs ce.
  - exists 0%nat. rewrite Nat.add_0_r. repeat split; cbn; lia.
  - cbn [match_here]. destruct (dot c) eqn:Hc.
    + destruct (IH (S pos) cs ce) as (n & Hm & Hn & Hs).
      cbn [match_here] in Hm. rewrite Hm.
      exists (S n). repeat split.
      * do 3 f_equal. lia.
      * cbn [length]. lia.
      * cbn [strip_comments]. rewrite Hc. exact Hs.
    + exists 0%nat. rewrite Nat.add_0_r. repeat split; [cbn; lia|].
      change (drop 0 (c :: s)) with (c :: s). cbn [strip_comments].
      rewrite Hc, (dot_false_not_hash c Hc). reflexivity.
Qed.

Lemma remove_comments (fuel : nat) :
  forall s : jsstring,
    (length s < fuel)%nat ->
    remove_all fuel re_comment s = strip_comments false s.
Proof.
  induction fuel as [|fuel IH]; intros s Hs; [lia|].
  destruct s as [|c s]; [reflexivity|].
  cbn [remove_all]. unfold re_comment. rewrite match_Chr, chr_i_hash.
  cbn [strip_comments]. destruct (c =? 35) eqn:Hc.
  - destruct (match_rest_of_line s 1 0 0) as (n & Hm & Hn & Hstrip).
    rewrite Hm. change (1 + n)%nat with (S n). cbv iota.
    change (drop (S n) (c :: s)) with (drop n s).
    fold re_comment. rewrite IH.
    + symmetry. exact Hstrip.
    + rewrite length_drop. cbn [length] in Hs. lia.
  - fold re_comment. rewrite IH by (cbn [length] in Hs; lia). reflexivity.
Qed.

Lemma strip_comments_no_hash (s : jsstring) :
  forall b, 35 ∉ strip_comments b s.
Proof.
  induction s as [|c s IH]; intros b; cbn [strip_comments].
  - apply not_elem_of_nil.
  - destruct b.
    + destruct (dot c) eqn:Hc; [apply IH|].
      apply not_elem_of_cons. split; [|apply IH].
      intros <-. discriminate Hc.
    + destruct (Z.eqb_spec c 35) as [|Hc]; [apply IH|].
      apply not_elem_of_cons. split; [congruence|apply IH].
Qed.

Lemma strip_comments_keeps (s : jsstring) :
  35 ∉ s -> strip_comments false s = s.
Proof.
  induction s as [|c s IH]; intros H; [reflexivity|].
  apply not_elem_of_cons in H as [Hc Hs]. cbn [strip_comments].
  destruct (Z.eqb_spec c 35); [congruence|]. rewrite IH by exact Hs. reflexivity.
Qed.

(** X9.  The header text in which the keywords are looked up is the
    header without its comments: from each [#] to the end of its line,
    the line terminator being kept.  No [#] is left in it, and a header
    without [#] is searched as it is. *)
Theorem comments_removed (text : jsstring) (h : PCDheader) :
  parseHeader text = Ok h ->
  str h = strip_comments false (slice text 0 (Some (headerLen h))) /\
  (35 ∉ str h) /\
  ((35 ∉ slice text 0 (Some (headerLen h))) ->
   str h = slice text 0 (Some (headerLen h))).
Proof.
  intros Hh. destruct (parseHeader_inv _ _ Hh) as (_ & Hstr & _).
  assert (H : str h = strip_comments false (slice text 0 (Some (headerLen h)))).
  { rewrite Hstr. unfold replace_all_empty. apply remove_comments. lia. }
  split; [exact H|]. rewrite H. split.
  - apply strip_comments_no_hash.
  - apply strip_comments_keeps.
Qed.

(** ** The header length and the buffer *)

Lemma length_utf16 (c : Z) :
  (length (utf16 c) <= 2)%nat /\ (c < 65536 -> length (utf16 c) = 1%nat).
Proof.
  unfold utf16. destruct (Z.ltb_spec c 65536); cbn; split; intros; lia.
Qed.

Lemma utf8_lead_inl (v c : Z) : utf8_lead v = inl c -> c < 65536.
Proof.
  unfold utf8_lead.
  destruct (Z.leb_spec v 127); [intros [= <-]; lia|].
  destruct ((194 <=? v) && (v <=? 223)); [discriminate|].
  destruct ((224 <=? v) && (v <=? 239)); [discriminate|].
  destruct ((240 <=? v) && (v <=? 244)); [discriminate|].
  intros [= <-]. lia.
Qed.

(** Decoding gives at most one code unit per byte; a sequence that has
    been started is owed one. *)
Lemma utf8_units (bs : list byte) :
  forall (cp : Z) (needed : nat) (lower upper : Z),
    (length (concat (utf16 <$> utf8_decode bs cp needed lower upper))
     <= length bs + match needed with O => 0 | S _ => 1 end)%nat.
Proof.
  induction bs as [|b bs IH]; intros cp needed lower upper.
  - destruct needed; cbn; lia.
  - cbn [utf8_decode]. cbv zeta.
    assert (Hstart : forall pre : list Z,
              (length (concat (utf16 <$> pre)) <= length pre)%nat ->
              (length (concat (utf16 <$>
                 match utf8_lead (byte_val b) with
                 | inl c => pre ++ c :: utf8_decode bs 0 0 128 191
                 | inr (cp', n, lo, hi) => pre ++ utf8_decode bs cp' n lo hi
                 end)) <= length pre + S (length bs))%nat).
    { intros pre Hpre.
      destruct (utf8_lead (byte_val b)) as [c|[[[cp' n] lo] hi]] eqn:Hlead.
      - rewrite fmap_app, concat_app, length_app. cbn [fmap list_fmap concat].
        rewrite length_app.
        rewrite (proj2 (length_utf16 c) (utf8_lead_inl _ _ Hlead)).
        specialize (IH 0 0%nat 128 191). cbn in IH. lia.
      - rewrite fmap_app, concat_app, length_app.
        specialize (IH cp' n lo hi). destruct n; lia. }
    destruct needed as [|n].
    + specialize (Hstart [] ltac:(cbn; lia)). cbn [length app] in *. lia.
    + destruct ((lower <=? byte_val b) && (byte_val b <=? upper)).
      * destruct n as [|n].
        -- cbn [fmap list_fmap concat]. rewrite length_app.
           pose proof (proj1 (length_utf16
                         (Z.lor (Z.shiftl cp 6) (Z.land (byte_val b) 63)))).
           specialize (IH 0 0%nat 128 191). cbn [length] in *. lia.
        -- specialize (IH (Z.lor (Z.shiftl cp 6) (Z.land (byte_val b) 63))
                          (S n) 128 191). cbv iota in IH. cbn [length]. lia.
      * specialize (Hstart [65533] ltac:(cbn; lia)). cbn [length] in *. lia.
Qed.

Lemma length_TextDecoder_decode (data : list byte) :
  (length (TextDecoder_decode data) <= length data)%nat.
Proof.
  unfold TextDecoder_decode.
  pose proof (utf8_units data 0 0 128 191) as H. rewrite Nat.add_0_r in H.
  destruct (utf8_decode data 0 0 128 191) as [|c rest]; [exact H|].
  destruct (c =? 65279); [|exact H].
  cbn [fmap list_fmap concat] in H. rewrite length_app in H. lia.
Qed.

(** The header length lies inside the text and inside the buffer. *)
Lemma headerLen_bounds (bytes : list byte) (h : PCDheader) :
  parseHeader (TextDecoder_decode bytes) = Ok h ->
  8 <= headerLen h <= Z.of_nat (length (TextDecoder_decode bytes)) /\
  headerLen h <= Z.of_nat (length bytes).
Proof.
  intros Hh.
  destruct (parseHeader_shape _ _ Hh)
    as (before & nl & kw & sp & ws & rest & Htext & Hne & _ & Hkw & _ & _ & _ & _
        & Hlen & _).
  pose proof (length_TextDecoder_decode bytes) as Hbytes.
  assert (Hl : length (TextDecoder_decode bytes) =
               (length before + 7 + length (data h) + length rest)%nat).
  { rewrite Htext, length_app. cbn [length]. rewrite length_app. cbn [length].
    rewrite length_app. cbn [length]. lia. }
  destruct before; [congruence|]. cbn [length] in *. lia.
Qed.

(** X10.  The header length counts code units of the decoded text and
    never exceeds the byte length of the buffer: the [DataView] of line
    354 can always be made, and no slice at the header length starts
    past the end. *)
Theorem headerLen_within_buffer (bytes : list byte) (h : PCDheader) :
  parseHeader (TextDecoder_decode bytes) = Ok h ->
  8 <= headerLen h <= Z.of_nat (length (TextDecoder_decode bytes)) /\
  headerLen h <= Z.of_nat (length bytes).
Proof. exact (headerLen_bounds bytes h). Qed.

Lemma header_ends_after_DATA_value_witness :
  exists h,
    parseHeader (TextDecoder_decode file_ascii_xyz) = Ok h /\
    exists before nl kw sp ws rest,
      TextDecoder_decode file_ascii_xyz
        = before ++ nl :: kw ++ sp :: data h ++ ws :: rest /\
      before <> [] /\
      cr_or_lf nl = true /\
      length kw = 4%nat /\ starts_DATA kw = true /\
      is_space sp = true /\
      forallb non_space (data h) = true /\
      is_space ws = true /\
      headerLen h = Z.of_nat (length before + 7 + length (data h)) /\
      forall j, (j < length before)%nat ->
        match_here re_DATA (drop j (TextDecoder_decode file_ascii_xyz)) 0 0 0 = None.
Proof.
  eexists. split; [vm_compute; reflexivity|].
  apply header_ends_after_DATA_value. vm_compute. reflexivity.
Defined.

Lemma DATA_line_at_start_rejected_witness :
  TextDecoder_decode (x0a :: file_DATA_first)
    = 10 :: lit "DATA" ++ 32 :: lit "ascii" ++ 10 :: lit "1 2 3" ++ [10] /\
  parse (fun c => c) true (x0a :: file_DATA_first) = Throw TypeError.
Proof.
  assert (H : TextDecoder_decode (x0a :: file_DATA_first)
              = 10 :: lit "DATA" ++ 32 :: lit "ascii" ++ 10 :: lit "1 2 3" ++ [10])
    by reflexivity.
  exact (conj H (DATA_line_at_start_rejected (fun c => c) true _ 10 32 10
                   (lit "DATA") (lit "ascii") _ H eq_refl eq_refl eq_refl eq_refl
                   eq_refl eq_refl)).
Defined.

Lemma comments_removed_witness :
  exists h,
    parseHeader (TextDecoder_decode file_commented) = Ok h /\
    fields h = [lit "x"; lit "y"; lit "z"; []] /\
    points h = of_Z 2 /\
    str h = strip_comments false
              (slice (TextDecoder_decode file_commented) 0 (Some (headerLen h))) /\
    (35 ∉ str h) /\
    ((35 ∉ slice (TextDecoder_decode file_commented) 0 (Some (headerLen h))) ->
     str h = slice (TextDecoder_decode file_commented) 0 (Some (headerLen h))).
Proof.
  eexists. split; [vm_compute; reflexivity|].
  split; [vm_compute; reflexivity|]. split; [vm_compute; reflexivity|].
  apply (comments_removed (TextDecoder_decode file_commented)).
  vm_compute. reflexivity.
Defined.

Lemma headerLen_within_buffer_witness :
  exists h,
    parseHeader (TextDecoder_decode file_ascii_xyz) = Ok h /\
    headerLen h = 46 /\
    8 <= headerLen h <= Z.of_nat (length (TextDecoder_decode file_ascii_xyz)) /\
    headerLen h <= Z.of_nat (length file_ascii_xyz).
Proof.
  eexists. split; [vm_compute; reflexivity|]. split; [reflexivity|].
  apply headerLen_within_buffer. vm_compute. reflexivity.
Defined.

Lemma offsets_of_header_witness :
  exists h,
    parseHeader (TextDecoder_decode file_compressed_xy) = Ok h /\
    offset h !! lit "y" = Some (of_Z 4) /\ rowSize h = of_Z 8 /\
    (keyword "COUNT" (str h) = None ->
     count h = replicate (length (fields h)) (of_Z 1)) /\
    (data h <> lit "ascii" ->
     rowSize h = cumulative (default [] (size h)) (count h) (length (fields h)) /\
     forall i f, last_occurrence (fields h) i f -> f <> lit "__proto__" ->
                 offset h !! f = Some (cumulative (default [] (size h)) (count h) i)) /\
    (data h = lit "ascii" ->
     forall i f, last_occurrence (fields h) i f -> f <> lit "__proto__" ->
                 offset h !! f = Some (of_Z (Z.of_nat i))).
Proof.
  eexists. split; [vm_compute; reflexivity|].
  split; [vm_compute; reflexivity|]. split; [vm_compute; reflexivity|].
  apply (offsets_of_header (TextDecoder_decode file_compressed_xy)).
  vm_compute. reflexivity.
Defined.

Section Bodies.

Variable convertSRGBToLinear : num * num * num -> num * num * num.
Variable littleEndian : bool.

Lemma length_linear_color (r g b : num) :
  length (linear_color convertSRGBToLinear r g b) = 3%nat.
Proof.
  unfold linear_color. destruct (convertSRGBToLinear (r, g, b)) as [[? ?] ?].
  reflexivity.
Qed.

Lemma grown_refl (h : PCDheader) (a : arrays) : grown h 0 a a.
Proof. unfold grown. cbn. repeat split; lia. Qed.

Lemma grown_step (h : PCDheader) (n : nat) (a a1 a2 : arrays) :
  grown h 1 a a1 -> grown h n a1 a2 -> grown h (S n) a a2.
Proof.
  unfold grown. intros (H1 & H2 & H3 & H4 & H5) (K1 & K2 & K3 & K4 & K5).
  repeat split; lia.
Qed.

Ltac solve_grown :=
  unfold grown, group_size;
  repeat match goal with H : has _ _ = _ |- _ => rewrite H end;
  repeat match goal with
         | |- context [has ?h ?n] => destruct (has h n) eqn:?
         end;
  unfold push_position, push_normal, push_color, push_intensity, push_label;
  cbn [position normal color intensity label];
  rewrite ?length_app, ?length_linear_color; cbn [length];
  repeat split; lia.

Lemma ascii_color_length (h : PCDheader) (line : list jsstring) (c : list num) :
  ascii_color convertSRGBToLinear h line = Ok c -> length c = 3%nat.
Proof.
  unfold ascii_color. destruct (type h); [|discriminate].
  intros H. apply Ok_inj in H. subst c. apply length_linear_color.
Qed.

Lemma ascii_line_grown (h : PCDheader) (text : jsstring) (a a' : arrays) :
  ascii_line convertSRGBToLinear h text a = Ok a' ->
  if bool_decide (text = []) then a' = a else grown h 1 a a'.
Proof.
  unfold ascii_line. destruct (bool_decide (text = [])); [congruence|].
  intros H. inv_res;
    repeat match goal with
           | E : ascii_color _ _ _ = Ok _ |- _ => apply ascii_color_length in E
           end;
    solve_grown.
Qed.

Lemma ascii_lines_grown (h : PCDheader) (lines : list jsstring) :
  forall a a',
    ascii_lines convertSRGBToLinear h lines a = Ok a' ->
    grown h (length (filter (fun l => l <> []) lines)) a a'.
Proof.
  induction lines as [|text lines IH]; intros a a' H; cbn [ascii_lines] in H.
  - injection H as <-. apply grown_refl.
  - destruct (ascii_line convertSRGBToLinear h text a) as [a1| |] eqn:E;
      cbn [bind] in H; try discriminate H.
    apply ascii_line_grown in E. specialize (IH _ _ H).
    destruct (decide (text = [])) as [He|Hne].
    + rewrite bool_decide_eq_true_2 in E by exact He. subst a1.
      rewrite filter_cons_False by (intros Hn; apply Hn; exact He).
      exact IH.
    + rewrite bool_decide_eq_false_2 in E by exact Hne.
      rewrite filter_cons_True by exact Hne.
      cbn [length]. eapply grown_step; eassumption.
Qed.

Lemma compressed_row_grown (h : PCDheader) (dataview : list byte) (i : num)
    (a a' : arrays) :
  compressed_row convertSRGBToLinear littleEndian h dataview i a = Ok a' ->
  grown h 1 a a'.
Proof.
  unfold compressed_row. intros H. inv_res; solve_grown.
Qed.

Lemma binary_row_grown (h : PCDheader) (dataview : list byte) (i row row' : num)
    (a a' : arrays) :
  binary_row convertSRGBToLinear littleEndian h dataview i (row, a) = Ok (row', a') ->
  grown h 1 a a'.
Proof.
  unfold binary_row. intros H. inv_res; solve_grown.
Qed.

Lemma for_rows_compressed_grown (h : PCDheader) (dataview : list byte) (n : nat) :
  forall i a a',
    for_rows n i (compressed_row convertSRGBToLinear littleEndian h dataview) a = Ok a' ->
    grown h n a a'.
Proof.
  induction n as [|n IH]; intros i a a' H; cbn [for_rows] in H.
  - injection H as <-. apply grown_refl.
  - destruct (compressed_row _ _ h dataview (loop_var i) a) as [a1| |] eqn:E;
      cbn [bind] in H; try discriminate H.
    eapply grown_step; [eapply compressed_row_grown; exact E | eapply IH; exact H].
Qed.

Lemma for_rows_binary_grown (h : PCDheader) (dataview : list byte) (n : nat) :
  forall i row a row' a',
    for_rows n i (binary_row convertSRGBToLinear littleEndian h dataview) (row, a)
      = Ok (row', a') ->
    grown h n a a'.
Proof.
  induction n as [|n IH]; intros i row a row' a' H; cbn [for_rows] in H.
  - injection H as <- <-. apply grown_refl.
  - destruct (binary_row _ _ h dataview (loop_var i) (row, a)) as [[row1 a1]| |] eqn:E;
      cbn [bind] in H; try discriminate H.
    eapply grown_step; [eapply binary_row_grown; exact E | eapply IH; exact H].
Qed.

Lemma for_points_Ok {St : Type} (points : num) (body : num -> St -> res St)
    (s s' : St) :
  for_points points body s = Ok s' ->
  exists n, iterations points = Some n /\ for_rows n 0 body s = Ok s'.
Proof.
  unfold for_points. destruct (iterations points) as [n|].
  - intros H. exists n. auto.
  - destruct (for_rows _ _ _ _); cbn [bind]; discriminate.
Qed.

Lemma data_is_exclusive (h : PCDheader) (s t : string) :
  lit s <> lit t -> data_is h s = true -> data_is h t = false.
Proof.
  unfold data_is. intros Hne Hs. apply bool_decide_eq_true in Hs.
  apply bool_decide_eq_false. congruence.
Qed.

(** What a successful [parse] went through: a header, a number of rows,
    and arrays that grew by one group of elements per declared group and
    row. *)
Lemma parse_inv (data : list byte) (g : geometry) :
  parse convertSRGBToLinear littleEndian data = Ok g ->
  exists h n a,
    parseHeader (TextDecoder_decode data) = Ok h /\
    decoded_rows h (TextDecoder_decode data) = Some n /\
    grown h n (Arrays [] [] [] [] []) a /\
    g = build a.
Proof.
  unfold parse. set (text := TextDecoder_decode data).
  destruct (parseHeader text) as [h| |] eqn:Hh; cbn [bind]; try discriminate.
  intros H. exists h. unfold decoded_rows.
  destruct (data_is h "ascii") eqn:Hascii.
  - rewrite (data_is_exclusive h "ascii" "binary_compressed") in H
      by (assumption || discriminate).
    rewrite (data_is_exclusive h "ascii" "binary") in H
      by (assumption || discriminate).
    destruct (ascii_body convertSRGBToLinear h text _) as [a| |] eqn:E;
      cbn [bind] in H; try discriminate H.
    injection H as <-.
    exists (length (nonempty_lines h text)), a.
    split; [reflexivity|]. split; [reflexivity|]. split; [|reflexivity].
    unfold ascii_body in E.
    apply ascii_lines_grown in E. exact E.
  - cbn [bind] in H. destruct (data_is h "binary_compressed") eqn:Hcomp.
    + rewrite (data_is_exclusive h "binary_compressed" "binary") in H
        by (assumption || discriminate).
      destruct (compressed_body _ _ h data _) as [a| |] eqn:E;
        cbn [bind] in H; try discriminate H.
      injection H as <-.
      unfold compressed_body in E.
      destruct (uint32_elements _) as [|c [|d [|]]]; try discriminate E.
      destruct (_ <? _)%nat; [discriminate E|].
      destruct (LZF.decompressLZF _ _) as [buf| |]; cbn [bind] in E;
        try discriminate E.
      apply for_points_Ok in E as (n & Hn & E).
      exists n, a. cbn [orb].
      split; [reflexivity|]. split; [exact Hn|]. split; [|reflexivity].
      eapply for_rows_compressed_grown. exact E.
    + cbn [bind orb] in H. destruct (data_is h "binary") eqn:Hbin.
      * destruct (binary_body _ _ h data _) as [a| |] eqn:E;
          cbn [bind] in H; try discriminate H.
        injection H as <-.
        unfold binary_body in E.
        destruct (_ <? _); [discriminate E|].
        destruct (for_points _ _ _) as [[row a']| |] eqn:E'; cbn [bind] in E;
          try discriminate E.
        injection E as <-.
        apply for_points_Ok in E' as (n & Hn & E').
        exists n, a'.
        split; [reflexivity|]. split; [exact Hn|]. split; [|reflexivity].
        eapply for_rows_binary_grown. exact E'.
      * cbn [bind] in H. injection H as <-.
        exists O, (Arrays [] [] [] [] []).
        split; [reflexivity|]. split; [reflexivity|]. split; [|reflexivity].
        apply grown_refl.
Qed.

End Bodies.

(** ** The loop condition

    [iterations] gives the number of passes in closed form.  For a
    point count that is an integer from 0 to 2^53 it agrees with the
    loop that tests [i < points] before each pass: a positive integer
    below 2^53 is held with a 53-bit significand, and two such numbers
    compare as their values. *)

Lemma digits2_pos_bounds (p : positive) :
  2 ^ (Z.pos (digits2_pos p) - 1) <= Z.pos p < 2 ^ Z.pos (digits2_pos p).
Proof.
  induction p as [p IH|p IH|]; cbn [digits2_pos].
  - rewrite Pos2Z.inj_succ.
    replace (Z.succ (Z.pos (digits2_pos p)) - 1) with (Z.succ (Z.pos (digits2_pos p) - 1)) by lia.
    rewrite !Z.pow_succ_r by lia. lia.
  - rewrite Pos2Z.inj_succ.
    replace (Z.succ (Z.pos (digits2_pos p)) - 1) with (Z.succ (Z.pos (digits2_pos p) - 1)) by lia.
    rewrite !Z.pow_succ_r by lia. lia.
  - cbn. lia.
Qed.

Lemma iter_xO (m k : positive) :
  Z.pos (Pos.iter xO m k) = Z.pos m * 2 ^ Z.pos k /\
  digits2_pos (Pos.iter xO m k) = (digits2_pos m + k)%positive.
Proof.
  induction k as [|k IH] using Pos.peano_ind.
  - cbn. split; [lia|]. lia.
  - rewrite Pos.iter_succ. destruct IH as [IH1 IH2]. split.
    + rewrite Pos2Z.inj_xO, IH1, Pos2Z.inj_succ, Z.pow_succ_r by lia. lia.
    + cbn [digits2_pos]. rewrite IH2. lia.
Qed.

Lemma digits2_pos_small (N : positive) :
  Z.pos N < 2 ^ 53 -> Z.pos (digits2_pos N) <= 53.
Proof.
  intros HN. pose proof (digits2_pos_bounds N) as [Hlo Hhi].
  destruct (Z.le_gt_cases (Z.pos (digits2_pos N)) 53) as [H|H]; [exact H|].
  assert (2 ^ 53 <= 2 ^ (Z.pos (digits2_pos N) - 1)) by (apply Z.pow_le_mono_r; lia).
  lia.
Qed.

Lemma binary_round_aux_canonical (m : positive) (e : Z) :
  Z.pos (digits2_pos m) = 53 -> -1074 <= e <= 971 ->
  binary_round_aux 53 1024 false (Z.pos m) e loc_Exact = S754_finite false m e.
Proof.
  intros Hd He.
  assert (Hz : Z.max (53 + e - 53) (3 - 1024 - 53) - e = 0) by lia.
  unfold binary_round_aux, shr_fexp, fexp, emin, Zdigits2.
  rewrite Hd, Hz.
  cbv beta iota zeta delta [shr shr_record_of_loc shr_m loc_of_shr_record round_nearest_even].
  rewrite Hd, Hz.
  cbv beta iota zeta delta [shr shr_record_of_loc shr_m loc_of_shr_record round_nearest_even].
  destruct (Z.leb_spec e (1024 - 53)); [reflexivity|lia].
Qed.

(** The representation of a positive integer below 2^53. *)
Lemma of_Z_canonical (N : positive) :
  Z.pos N < 2 ^ 53 ->
  exists m e,
    of_Z (Z.pos N) = S754_finite false m e /\
    Z.pos (digits2_pos m) = 53 /\
    e = Z.pos (digits2_pos N) - 53 /\
    Z.pos m = Z.pos N * 2 ^ (- e).
Proof.
  intros HN.
  pose proof (digits2_pos_bounds N) as [Hlo Hhi].
  pose proof (digits2_pos_small N HN) as Hd.
  unfold of_Z, binary_normalize, binary_round.
  unfold fexp, emin. rewrite Z.add_0_r.
  rewrite Z.max_l by lia.
  unfold shl_align.
  destruct (Z.pos (digits2_pos N) - 53 - 0) as [|q|q] eqn:Hq; try lia.
  - exists N, 0.
    assert (HdN : Z.pos (digits2_pos N) = 53) by lia.
    split; [|split; [exact HdN|split; [lia|cbn; lia]]].
    apply binary_round_aux_canonical; [exact HdN|lia].
  - destruct (iter_xO N q) as [Hv Hdig].
    exists (Pos.iter xO N q), (Z.pos (digits2_pos N) - 53).
    assert (Hd53 : Z.pos (digits2_pos (Pos.iter xO N q)) = 53).
    { rewrite Hdig, Pos2Z.inj_add. lia. }
    split; [|split; [exact Hd53|split; [reflexivity|]]].
    + apply binary_round_aux_canonical; [exact Hd53|lia].
    + rewrite Hv. f_equal. f_equal. lia.
Qed.

(** Comparing two numbers in this form compares their values. *)
Lemma ltb_canonical (m1 m2 : positive) (e1 e2 : Z) (N1 N2 : positive) :
  Z.pos (digits2_pos m1) = 53 -> Z.pos (digits2_pos m2) = 53 ->
  e1 <= 0 -> e2 <= 0 ->
  Z.pos m1 = Z.pos N1 * 2 ^ (- e1) -> Z.pos m2 = Z.pos N2 * 2 ^ (- e2) ->
  ltb (S754_finite false m1 e1) (S754_finite false m2 e2) = (Z.pos N1 <? Z.pos N2).
Proof.
  intros Hd1 Hd2 He1 He2 Hm1 Hm2.
  pose proof (digits2_pos_bounds m1) as B1. pose proof (digits2_pos_bounds m2) as B2.
  rewrite Hd1 in B1. rewrite Hd2 in B2.
  change (2 ^ (53 - 1)) with (2 ^ 52) in *.
  assert (P1 : 0 < 2 ^ (- e1)) by (apply Z.pow_pos_nonneg; lia).
  assert (P2 : 0 < 2 ^ (- e2)) by (apply Z.pow_pos_nonneg; lia).
  unfold ltb, SFltb, SFcompare.
  destruct (Z.compare_spec e1 e2) as [Heq|Hlt|Hgt].
  - subst e2. rewrite Pos.compare_cont_spec. cbn [Pos.switch_Eq].
    destruct (Z.ltb_spec (Z.pos N1) (Z.pos N2)) as [H|H].
    + assert (Z.pos m1 < Z.pos m2) by nia.
      destruct (Pos.compare_spec m1 m2); try reflexivity; lia.
    + assert (Z.pos m2 <= Z.pos m1) by nia.
      destruct (Pos.compare_spec m1 m2); try reflexivity; lia.
  - (* e1 < e2: the first is smaller *)
    assert (H : 2 ^ (- e1) = 2 ^ (- e2) * 2 ^ (e2 - e1)).
    { rewrite <- Z.pow_add_r by lia. f_equal. lia. }
    assert (2 <= 2 ^ (e2 - e1)).
    { change 2 with (2 ^ 1) at 1. apply Z.pow_le_mono_r; lia. }
    destruct (Z.ltb_spec (Z.pos N1) (Z.pos N2)) as [Hlt'|Hge]; [reflexivity|exfalso].
    nia.
  - assert (H : 2 ^ (- e2) = 2 ^ (- e1) * 2 ^ (e1 - e2)).
    { rewrite <- Z.pow_add_r by lia. f_equal. lia. }
    assert (2 <= 2 ^ (e1 - e2)).
    { change 2 with (2 ^ 1) at 1. apply Z.pow_le_mono_r; lia. }
    destruct (Z.ltb_spec (Z.pos N1) (Z.pos N2)) as [Hlt'|Hge]; [exfalso|reflexivity].
    nia.
Qed.

Lemma of_Z_2_53 : of_Z (2 ^ 53) = S754_finite false 4503599627370496 1.
Proof. reflexivity. Qed.

(** Among the integers from 0 to 2^53, numbers compare as their
    values. *)
Lemma ltb_of_Z (i N : Z) :
  0 <= i <= 2 ^ 53 -> 0 <= N <= 2 ^ 53 ->
  ltb (of_Z i) (of_Z N) = (i <? N).
Proof.
  intros Hi HN.
  destruct (Z.eq_dec i (2 ^ 53)) as [->|Hi53]; [|destruct (Z.eq_dec N (2 ^ 53)) as [->|HN53]].
  - (* 2^53 is below nothing *)
    destruct (Z.ltb_spec (2 ^ 53) N); [lia|].
    destruct N as [|N|N]; [reflexivity| |lia].
    destruct (Z.eq_dec (Z.pos N) (2 ^ 53)) as [->|Hne]; [reflexivity|].
    pose proof (digits2_pos_small N ltac:(lia)).
    destruct (of_Z_canonical N ltac:(lia)) as (m & e & -> & Hd & He & Hm).
    rewrite of_Z_2_53. unfold ltb, SFltb, SFcompare.
    destruct (Z.compare_spec 1 e); try reflexivity; lia.
  - destruct (Z.ltb_spec i (2 ^ 53)); [|lia].
    destruct i as [|i|i]; [reflexivity| |lia].
    pose proof (digits2_pos_small i ltac:(lia)).
    destruct (of_Z_canonical i ltac:(lia)) as (m & e & -> & Hd & He & Hm).
    rewrite of_Z_2_53. unfold ltb, SFltb, SFcompare.
    destruct (Z.compare_spec e 1); try reflexivity; lia.
  - destruct i as [|i|i]; [|destruct N as [|N|N]|]; try lia.
    + destruct N as [|N|N]; [reflexivity| |lia].
      destruct (of_Z_canonical N ltac:(lia)) as (m & e & -> & _).
      reflexivity.
    + destruct (of_Z_canonical i ltac:(lia)) as (m & e & -> & _). reflexivity.
    + pose proof (digits2_pos_small i ltac:(lia)).
      pose proof (digits2_pos_small N ltac:(lia)).
      destruct (of_Z_canonical i ltac:(lia)) as (m1 & e1 & -> & Hd1 & He1 & Hm1).
      destruct (of_Z_canonical N ltac:(lia)) as (m2 & e2 & -> & Hd2 & He2 & Hm2).
      apply (ltb_canonical m1 m2 e1 e2 i N); try assumption; lia.
Qed.

Lemma iterations_of_Z (N : Z) :
  0 <= N <= 2 ^ 53 -> iterations (of_Z N) = Some (Z.to_nat N).
Proof.
  intros HN. destruct (Z.eq_dec N (2 ^ 53)) as [->|Hne]; [reflexivity|].
  destruct N as [|N|N]; [reflexivity| |lia].
  pose proof (digits2_pos_small N ltac:(lia)).
  destruct (of_Z_canonical N ltac:(lia)) as (m & e & -> & Hd & He & Hm).
  cbn [iterations].
  destruct (Z.leb_spec 0 e) as [He0|He0].
  - assert (He' : e = 0) by lia. rewrite He' in Hm |- *. change (- 0) with 0 in Hm.
    rewrite Z.pow_0_r, Z.mul_1_r in Hm. rewrite Z.pow_0_r, Z.mul_1_r, Hm.
    destruct (Z.leb_spec (Z.pos N) (2 ^ 53)); [reflexivity|lia].
  - assert (P : 0 < 2 ^ (- e)) by (apply Z.pow_pos_nonneg; lia).
    assert (Hc : (Z.pos m + 2 ^ (- e) - 1) / 2 ^ (- e) = Z.pos N).
    { symmetry. apply (Z.div_unique _ _ _ (2 ^ (- e) - 1)); lia. }
    rewrite Hc. destruct (Z.leb_spec (Z.pos N) (2 ^ 53)); [reflexivity|lia].
Qed.

Lemma loop_test (i : nat) (N : Z) :
  Z.of_nat i <= 2 ^ 53 -> 0 <= N <= 2 ^ 53 ->
  ltb (loop_var i) (of_Z N) = (Z.of_nat i <? N).
Proof.
  intros Hi HN. unfold loop_var. rewrite Z.min_l by exact Hi.
  apply ltb_of_Z; lia.
Qed.

Lemma for_tested_rows {St : Type} (N : Z) (body : num -> St -> res St) (k : nat) :
  0 <= N <= 2 ^ 53 ->
  forall (i fuel : nat) (s : St),
    Z.of_nat i + Z.of_nat k = N -> (k < fuel)%nat ->
    for_tested fuel i (of_Z N) body s = for_rows k i body s.
Proof.
  intros HN. induction k as [|k IH]; intros i fuel s Hik Hfuel.
  - destruct fuel as [|fuel]; [lia|]. cbn [for_tested for_rows].
    rewrite loop_test by lia.
    destruct (Z.ltb_spec (Z.of_nat i) N); [lia|reflexivity].
  - destruct fuel as [|fuel]; [lia|]. cbn [for_tested for_rows].
    rewrite loop_test by lia.
    destruct (Z.ltb_spec (Z.of_nat i) N); [|lia].
    destruct (body (loop_var i) s) as [s'| |]; cbn [bind]; try reflexivity.
    apply IH; lia.
Qed.

(** For an integer point count the closed form and the tested loop are
    the same loop. *)
Lemma for_points_tested {St : Type} (N : Z) (fuel : nat)
    (body : num -> St -> res St) (s : St) :
  0 <= N <= 2 ^ 53 -> (Z.to_nat N < fuel)%nat ->
  for_tested fuel 0 (of_Z N) body s = for_points (of_Z N) body s.
Proof.
  intros HN Hfuel. unfold for_points. rewrite iterations_of_Z by exact HN.
  apply for_tested_rows; [exact HN|lia|exact Hfuel].
Qed.

(** The loop over the points makes as many passes as the point count
    says, when that is an integer that is not negative. *)
Lemma iterations_integer (p : num) (n : nat) (z : Z) :
  iterations p = Some n -> integer_value p = Some z -> 0 <= z -> Z.of_nat n = z.
Proof.
  destruct p as [s|s| |s m e]; cbn [iterations integer_value]; try discriminate.
  - intros [= <-] [= <-] _. reflexivity.
  - destruct (Z.leb_spec 0 e) as [He|He].
    + assert (Hpos : 0 < Z.pos m * 2 ^ e) by (apply Z.mul_pos_pos; lia).
      destruct s.
      * intros _ [= <-] Hz. lia.
      * destruct (_ <=? _); [|discriminate].
        intros [= <-] [= <-] _. lia.
    + assert (Hd : 0 < 2 ^ (- e)) by (apply Z.pow_pos_nonneg; lia).
      destruct (Z.eqb_spec (Z.pos m mod 2 ^ (- e)) 0) as [Hm|Hm]; [|discriminate].
      pose proof (Z.div_mod (Z.pos m) (2 ^ (- e)) ltac:(lia)) as Hdm.
      rewrite Hm in Hdm.
      assert (Hq : 0 < Z.pos m / 2 ^ (- e)) by nia.
      destruct s.
      * intros _ [= <-] Hz. lia.
      * assert (Hc : (Z.pos m + 2 ^ (- e) - 1) / 2 ^ (- e) = Z.pos m / 2 ^ (- e)).
        { symmetry. apply (Z.div_unique _ _ _ (2 ^ (- e) - 1)); lia. }
        rewrite Hc. destruct (_ <=? _); [|discriminate].
        intros [= <-] [= <-] _. lia.
Qed.

(** *** Column-major addressing *)

Lemma iterations_bound (p : num) (n : nat) :
  iterations p = Some n -> Z.of_nat n <= 2 ^ 53.
Proof.
  destruct p as [s|[|]| |[|] m e]; cbn [iterations]; try discriminate;
    try (intros [= <-]; cbn; lia).
  destruct (Z.leb_spec (if 0 <=? e then Z.pos m * 2 ^ e
                        else (Z.pos m + 2 ^ (- e) - 1) / 2 ^ (- e)) (2 ^ 53));
    [|discriminate].
  intros [= <-]. lia.
Qed.

Lemma column_address_inv (h : PCDheader) (name : string) (i : nat) (v : num) :
  Z.of_nat i <= 2 ^ 53 ->
  column_address h name (loop_var i) = Ok v ->
  v = column_address_of h name i.
Proof.
  intros Hi. unfold column_address, size_of, column_address_of, loop_var.
  rewrite Z.min_l by exact Hi.
  destruct (size h) as [sz|]; cbn [bind default from_option id]; [|discriminate].
  intros [= <-]. reflexivity.
Qed.

Section Columns.

Variable convertSRGBToLinear : num * num * num -> num * num * num.
Variable littleEndian : bool.

Lemma compressed_row_inv (h : PCDheader) (buf : list byte) (i : nat)
    (a a' : arrays) :
  Z.of_nat i <= 2 ^ 53 ->
  compressed_row convertSRGBToLinear littleEndian h buf (loop_var i) a = Ok a' ->
  exists r,
    row_pushes convertSRGBToLinear littleEndian h buf i r /\
    a' = append_arrays a r.
Proof.
  intros Hi H. unfold compressed_row in H. inv_res;
    repeat match goal with
           | E : column_address _ _ _ = Ok _ |- _ =>
               apply (column_address_inv _ _ _ _ Hi) in E; subst
           end;
    eexists (Arrays _ _ _ _ _); (split; [
      unfold row_pushes, float_group;
      repeat match goal with E : has _ _ = _ |- _ => rewrite E end;
      cbn [position normal color intensity label];
      repeat split; eauto 10
    | repeat match goal with x : arrays |- _ => destruct x end;
      unfold append_arrays, push_position, push_normal, push_color,
        push_intensity, push_label;
      cbn [position normal color intensity label];
      rewrite ?app_nil_r; reflexivity ]).
Qed.

Lemma append_arrays_assoc (a r s : arrays) :
  append_arrays (append_arrays a r) s =
  append_arrays a (append_arrays r s).
Proof.
  unfold append_arrays. cbn [position normal color intensity label].
  rewrite <- !app_assoc. reflexivity.
Qed.

Lemma for_rows_compressed_values (h : PCDheader) (buf : list byte) (n : nat) :
  forall i0 a a',
    Z.of_nat (i0 + n) <= 2 ^ 53 ->
    for_rows n i0 (compressed_row convertSRGBToLinear littleEndian h buf) a = Ok a' ->
    exists rows,
      length rows = n /\
      (forall i r, rows !! i = Some r ->
         row_pushes convertSRGBToLinear littleEndian h buf (i0 + i) r) /\
      a' = append_arrays a (concat_arrays rows).
Proof.
  induction n as [|n IH]; intros i0 a a' Hb H; cbn [for_rows] in H.
  - injection H as <-. exists []. split; [reflexivity|]. split.
    + intros i r Hr. discriminate Hr.
    + unfold append_arrays, concat_arrays. cbn. rewrite !app_nil_r.
      destruct a; reflexivity.
  - destruct (compressed_row _ _ h buf (loop_var i0) a) as [a1| |] eqn:E;
      cbn [bind] in H; try discriminate H.
    apply compressed_row_inv in E as (r0 & Hr0 & ->); [|lia].
    destruct (IH (S i0) _ _ ltac:(lia) H) as (rows & Hlen & Hrows & ->).
    exists (r0 :: rows). split; [cbn; lia|]. split.
    + intros [|i] r Hr.
      * injection Hr as <-. rewrite Nat.add_0_r. exact Hr0.
      * replace (i0 + S i)%nat with (S i0 + i)%nat by lia. apply Hrows. exact Hr.
    + rewrite append_arrays_assoc. reflexivity.
Qed.

End Columns.

Lemma lookup_concat_uniform {A : Type} (k : nat) (ls : list (list A)) :
  Forall (fun l => length l = k) ls ->
  forall i j, (j < k)%nat -> concat ls !! (i * k + j)%nat = ls !! i ≫= (.!! j).
Proof.
  induction 1 as [|l ls Hl _ IH]; intros i j Hj.
  - destruct i; reflexivity.
  - cbn [concat]. destruct i as [|i].
    + cbn. rewrite lookup_app_l by lia. reflexivity.
    + rewrite lookup_app_r by lia.
      replace (S i * k + j - length l)%nat with (i * k + j)%nat by lia.
      cbn. apply IH. exact Hj.
Qed.

Lemma row_pushes_lengths
    (convertSRGBToLinear : num * num * num -> num * num * num)
    (littleEndian : bool) (h : PCDheader) (buf : list byte) (i : nat) (r : arrays) :
  row_pushes convertSRGBToLinear littleEndian h buf i r ->
  length (position r) = group_size h "x" 3 /\
  length (normal r) = group_size h "normal_x" 3 /\
  length (color r) = group_size h "rgb" 3 /\
  length (intensity r) = group_size h "intensity" 1 /\
  length (label r) = group_size h "label" 1.
Proof.
  unfold row_pushes, float_group, group_size.
  intros (Hp & Hn & Hc & Hi & Hl).
  destruct (has h "x"), (has h "normal_x"), (has h "rgb"), (has h "intensity"),
    (has h "label");
    repeat match goal with
           | H : exists _, _ |- _ => destruct H
           | H : _ /\ _ |- _ => destruct H
           end;
    repeat match goal with
           | H : _ r = _ |- _ => rewrite H; clear H
           end;
    rewrite ?length_linear_color; repeat split.
Qed.

Lemma group_at_concat (proj : arrays -> list num) (rows : list arrays)
    (i k : nat) (r : arrays) :
  (forall j r', rows !! j = Some r' -> length (proj r') = k) ->
  rows !! i = Some r ->
  group_at (attribute (concat (proj <$> rows))) i (proj r).
Proof.
  intros Hk Hr. destruct (proj r) as [|v0 vs] eqn:Hv; [left; reflexivity|].
  right. rewrite <- Hv.
  assert (Hlen : length (proj r) = k) by (eapply Hk; exact Hr).
  assert (Hall : Forall (fun l => length l = k) (proj <$> rows)).
  { apply Forall_lookup_2. intros j l Hl.
    rewrite list_lookup_fmap in Hl.
    destruct (rows !! j) as [r'|] eqn:Hj; [|discriminate].
    injection Hl as <-. eapply Hk. exact Hj. }
  assert (Hlook : forall j v, proj r !! j = Some v ->
                    concat (proj <$> rows) !! (i * length (proj r) + j)%nat = Some v).
  { intros j v Hj. rewrite Hlen.
    rewrite (lookup_concat_uniform k _ Hall i j).
    - rewrite list_lookup_fmap, Hr. exact Hj.
    - apply lookup_lt_Some in Hj. lia. }
  exists (concat (proj <$> rows)). split; [|exact Hlook].
  unfold attribute.
  destruct (Nat.ltb_spec 0 (length (concat (proj <$> rows)))) as [|Hz];
    [reflexivity|exfalso].
  specialize (Hlook O v0). rewrite Hv in Hlook. specialize (Hlook eq_refl).
  apply lookup_lt_Some in Hlook. lia.
Qed.

Section ColumnMajor.

Variable convertSRGBToLinear : num * num * num -> num * num * num.
Variable littleEndian : bool.

(** C4.  Under [binary_compressed], when [parse] returns: the eight
    bytes after the header are the two sizes, the bytes after them
    decompress to a buffer [buf], and for every point [i] the values
    pushed for every recognized field are read from [buf] at the address
    [pointCount * fieldOffset[f] + size[f] * i] (the three colour bytes
    at that address plus 2, 1 and 0), and stand in the arrays of the
    geometry at the place of row [i]. *)
Theorem compressed_column_major (data : list byte) (h : PCDheader) (g : geometry) :
  parseHeader (TextDecoder_decode data) = Ok h ->
  data_is h "binary_compressed" = true ->
  parse convertSRGBToLinear littleEndian data = Ok g ->
  exists (compressedSize decompressedSize : Z) (buf : list byte) (n : nat),
    uint32_elements (slice data (headerLen h) (Some (headerLen h + 8))) =
      [compressedSize; decompressedSize] /\
    LZF.decompressLZF
      (take (Z.to_nat compressedSize) (drop (Z.to_nat (headerLen h + 8)) data))
      (Z.to_nat decompressedSize) = Ok buf /\
    iterations (points h) = Some n /\
    forall i, (i < n)%nat ->
      exists r,
        row_pushes convertSRGBToLinear littleEndian h buf i r /\
        group_at (attr_position g) i (position r) /\
        group_at (attr_normal g) i (normal r) /\
        group_at (attr_color g) i (color r) /\
        group_at (attr_intensity g) i (intensity r) /\
        group_at (attr_label g) i (label r).
Proof.
  intros Hh Hcomp. unfold parse. rewrite Hh. cbn [bind].
  rewrite (data_is_exclusive h "binary_compressed" "ascii")
    by (assumption || discriminate).
  rewrite Hcomp.
  rewrite (data_is_exclusive h "binary_compressed" "binary")
    by (assumption || discriminate).
  cbn [bind].
  destruct (compressed_body _ _ h data _) as [a| |] eqn:E; cbn [bind];
    try discriminate.
  intros [= <-]. unfold compressed_body in E.
  destruct (uint32_elements _) as [|c [|d [|]]]; try discriminate E.
  destruct (_ <? _)%nat; [discriminate E|].
  destruct (LZF.decompressLZF _ _) as [buf| |] eqn:Hdec; cbn [bind] in E;
    try discriminate E.
  apply for_points_Ok in E as (n & Hn & E).
  pose proof (iterations_bound _ _ Hn) as Hb.
  apply for_rows_compressed_values in E as (rows & Hlen & Hrows & ->); [|cbn; lia].
  exists c, d, buf, n.
  split; [reflexivity|]. split; [exact Hdec|]. split; [exact Hn|].
  intros i Hi.
  destruct (rows !! i) as [r|] eqn:Hr.
  2:{ apply lookup_ge_None in Hr. lia. }
  exists r. split; [apply (Hrows i r Hr)|].
  assert (Hlens : forall j r', rows !! j = Some r' ->
            length (position r') = group_size h "x" 3 /\
            length (normal r') = group_size h "normal_x" 3 /\
            length (color r') = group_size h "rgb" 3 /\
            length (intensity r') = group_size h "intensity" 1 /\
            length (label r') = group_size h "label" 1).
  { intros j r' Hj. eapply row_pushes_lengths. apply (Hrows j r' Hj). }
  unfold build, append_arrays, concat_arrays.
  cbn [position normal color intensity label attr_position attr_normal
       attr_color attr_intensity attr_label app].
  repeat split.
  - apply (group_at_concat position rows i (group_size h "x" 3) r); [|exact Hr].
    intros j r' Hj. apply (Hlens j r' Hj).
  - apply (group_at_concat normal rows i (group_size h "normal_x" 3) r); [|exact Hr].
    intros j r' Hj. apply (Hlens j r' Hj).
  - apply (group_at_concat color rows i (group_size h "rgb" 3) r); [|exact Hr].
    intros j r' Hj. apply (Hlens j r' Hj).
  - apply (group_at_concat intensity rows i (group_size h "intensity" 1) r); [|exact Hr].
    intros j r' Hj. apply (Hlens j r' Hj).
  - apply (group_at_concat label rows i (group_size h "label" 1) r); [|exact Hr].
    intros j r' Hj. apply (Hlens j r' Hj).
Qed.

End ColumnMajor.

(** The two-point file: the positions are [x0, y0, _, x1, y1, _], the
    [x] values read at the addresses 0 and 4 of the first block and the
    [y] values at 8 and 12 of the second.  (The third of each triple is
    read at address 0, [z] not being declared.) *)
Example parse_compressed_xy :
  parse (fun c => c) true file_compressed_xy =
  Ok (Geometry (Some (of_Z <$> [1; 3; 1; 2; 4; 1])) None None None None false).
Proof. vm_compute. reflexivity. Qed.

Lemma compressed_column_major_witness :
  exists h,
    parseHeader (TextDecoder_decode file_compressed_xy) = Ok h /\
    data_is h "binary_compressed" = true /\
    (column_address_of h "x" 0 = of_Z 0 /\ column_address_of h "x" 1 = of_Z 4 /\
     column_address_of h "y" 0 = of_Z 8 /\ column_address_of h "y" 1 = of_Z 12) /\
    exists buf,
      buf = [x00; x00; x80; x3f; x00; x00; x00; x40;
             x00; x00; x40; x40; x00; x00; x80; x40] /\
      forall i, (i < 2)%nat ->
        exists r,
          row_pushes (fun c => c) true h buf i r /\
          group_at (Some (of_Z <$> [1; 3; 1; 2; 4; 1])) i (position r).
Proof.
  eexists. split; [vm_compute; reflexivity|].
  match goal with
  | |- data_is ?h0 _ = true /\ _ =>
      assert (Hh : parseHeader (TextDecoder_decode file_compressed_xy) = Ok h0)
        by (vm_compute; reflexivity);
      assert (Hc : data_is h0 "binary_compressed" = true)
        by (vm_compute; reflexivity)
  end.
  split; [exact Hc|].
  split; [repeat split; vm_compute; reflexivity|].
  destruct (compressed_column_major (fun c => c) true file_compressed_xy _ _
              Hh Hc parse_compressed_xy)
    as (c & d & buf & n & Hsizes & Hdec & Hn & Hrows).
  vm_compute in Hsizes. injection Hsizes as <- <-.
  vm_compute in Hdec. injection Hdec as <-.
  vm_compute in Hn. injection Hn as <-.
  eexists. split; [reflexivity|].
  intros i Hi.
  destruct (Hrows i Hi) as (r & Hr & Hpos & _).
  exists r. split; [exact Hr | exact Hpos].
Defined.

(** C8 (amended).  When [parse] returns, with [n] the number of decoded
    rows (the body lines that are not empty under [ascii]; the passes of
    the loop over the points under [binary] and [binary_compressed],
    which is the point count when that is an integer that is not
    negative): the geometry has a position array if [x], [y] and [z] are
    all declared and [n > 0], and none if [x] is not declared or
    [n = 0]; every array present has length [3 * n] (position, normal,
    color) or [n] (intensity, label); and no array present is empty. *)
Theorem geometry_arrays
    (convertSRGBToLinear : num * num * num -> num * num * num)
    (littleEndian : bool) (data : list byte) (g : geometry) :
  parse convertSRGBToLinear littleEndian data = Ok g ->
  exists h n,
    parseHeader (TextDecoder_decode data) = Ok h /\
    (data_is h "ascii" = true ->
     n = length (nonempty_lines h (TextDecoder_decode data))) /\
    (data_is h "binary" = true \/ data_is h "binary_compressed" = true ->
     iterations (points h) = Some n /\
     forall z, integer_value (points h) = Some z -> 0 <= z -> Z.of_nat n = z) /\
    (lit "x" ∈ fields h -> lit "y" ∈ fields h -> lit "z" ∈ fields h ->
     (0 < n)%nat -> is_Some (attr_position g)) /\
    (lit "x" ∉ fields h \/ n = O -> attr_position g = None) /\
    (forall l, attr_position g = Some l -> length l = (3 * n)%nat /\ l <> []) /\
    (forall l, attr_normal g = Some l -> length l = (3 * n)%nat /\ l <> []) /\
    (forall l, attr_color g = Some l -> length l = (3 * n)%nat /\ l <> []) /\
    (forall l, attr_intensity g = Some l -> length l = n /\ l <> []) /\
    (forall l, attr_label g = Some l -> length l = n /\ l <> []).
Proof.
  intros Hparse.
  destruct (parse_inv _ _ _ _ Hparse) as (h & n & a & Hh & Hrows & Hgrown & ->).
  exists h, n. split; [exact Hh|].
  unfold decoded_rows in Hrows.
  split.
  { intros Ha. rewrite Ha in Hrows. congruence. }
  split.
  { intros Hb.
    assert (Hit : iterations (points h) = Some n).
    { destruct Hb as [Hb|Hb].
      - rewrite (data_is_exclusive h "binary" "ascii") in Hrows
          by (assumption || discriminate).
        rewrite Hb, orb_true_r in Hrows. exact Hrows.
      - rewrite (data_is_exclusive h "binary_compressed" "ascii") in Hrows
          by (assumption || discriminate).
        rewrite Hb in Hrows. exact Hrows. }
    split; [exact Hit|]. intros z Hz Hz0. eapply iterations_integer; eassumption. }
  destruct Hgrown as (Hp & Hn & Hc & Hi & Hl). cbn [position normal color intensity label length] in *.
  assert (Hattr : forall (arr : list num) (k : nat) (name : string),
             length arr = (0 + n * group_size h name k)%nat ->
             (k = 3%nat \/ k = 1%nat) ->
             (has h name = true -> (0 < n)%nat -> is_Some (attribute arr)) /\
             (has h name = false \/ n = O -> attribute arr = None) /\
             (forall l, attribute arr = Some l ->
                        length l = (k * n)%nat /\ l <> [])).
  { intros arr k name Hlen Hk. unfold attribute, group_size in *.
    destruct (has h name).
    - destruct (Nat.ltb_spec 0 (length arr)) as [Hpos|Hzero].
      + split; [eauto|]. split.
        * intros [? | ->]; [discriminate|]. lia.
        * intros l [= <-]. split; [lia|]. intros ->. cbn in Hpos. lia.
      + split; [intros _ ?; destruct Hk; lia|]. split; [reflexivity|].
        intros l ?. discriminate.
    - destruct (Nat.ltb_spec 0 (length arr)) as [Hpos|Hzero]; [lia|].
      split; [discriminate|]. split; [reflexivity|]. intros l ?. discriminate. }
  unfold build. cbn [attr_position attr_normal attr_color attr_intensity attr_label].
  destruct (Hattr _ 3%nat "x"%string Hp ltac:(auto)) as (Px1 & Px2 & Px3).
  destruct (Hattr _ 3%nat "normal_x"%string Hn ltac:(auto)) as (_ & _ & Pn).
  destruct (Hattr _ 3%nat "rgb"%string Hc ltac:(auto)) as (_ & _ & Pc).
  destruct (Hattr _ 1%nat "intensity"%string Hi ltac:(auto)) as (_ & _ & Pi).
  destruct (Hattr _ 1%nat "label"%string Hl ltac:(auto)) as (_ & _ & Pl).
  assert (Hx : has h "x" = true <-> lit "x" ∈ fields h)
    by (apply (has_field _ h "x" Hh); discriminate).
  split.
  { intros Hfx _ _ Hpos. apply Px1; [apply Hx; exact Hfx | exact Hpos]. }
  split.
  { intros [Hnx|Hn0]; apply Px2; [left | right; exact Hn0].
    destruct (has h "x") eqn:E; [|reflexivity].
    exfalso. apply Hnx, Hx. reflexivity. }
  split; [exact Px3|]. split; [exact Pn|]. split; [exact Pc|].
  split.
  - intros l Hlk. destruct (Pi l Hlk) as [H1 H2]. split; [lia | exact H2].
  - intros l Hlk. destruct (Pl l Hlk) as [H1 H2]. split; [lia | exact H2].
Qed.

Lemma geometry_arrays_witness :
  let g := Geometry (Some (of_Z <$> [1; 2; 3; 4; 5; 6])) None None None None false in
  parse (fun c => c) true file_ascii_xyz = Ok g /\
  exists h n,
    parseHeader (TextDecoder_decode file_ascii_xyz) = Ok h /\
    n = 2%nat /\
    (forall l, attr_position g = Some l -> length l = (3 * n)%nat /\ l <> []).
Proof.
  intros g.
  assert (Hp : parse (fun c => c) true file_ascii_xyz = Ok g)
    by (vm_compute; reflexivity).
  split; [exact Hp|].
  destruct (geometry_arrays (fun c => c) true file_ascii_xyz g Hp)
    as (h & n & Hh & Hascii & _ & _ & _ & Hpos & _).
  exists h, n. split; [exact Hh|]. split; [|exact Hpos].
  pose proof Hh as Hh0. vm_compute in Hh0. injection Hh0 as <-.
  rewrite Hascii; vm_compute; reflexivity.
Defined.

(** A file that declares [x], [y] and [z] and has no point: the
    geometry has no position array. *)
Lemma positions_absent_without_rows :
  exists h,
    parseHeader (TextDecoder_decode file_no_points) = Ok h /\
    lit "x" ∈ fields h /\ lit "y" ∈ fields h /\ lit "z" ∈ fields h /\
    points h = of_Z 0 /\
    forall convertSRGBToLinear littleEndian,
      parse convertSRGBToLinear littleEndian file_no_points =
      Ok (Geometry None None None None None false).
Proof.
  eexists. split; [vm_compute; reflexivity|].
  cbn [fields points].
  change (lit "x" ∈ [lit "x"; lit "y"; lit "z"] /\
          lit "y" ∈ [lit "x"; lit "y"; lit "z"] /\
          lit "z" ∈ [lit "x"; lit "y"; lit "z"] /\
          S754_zero false = of_Z 0 /\
          forall convertSRGBToLinear littleEndian,
            parse convertSRGBToLinear littleEndian file_no_points =
            Ok (Geometry None None None None None false)).
  split; [apply list_elem_of_here|].
  split; [apply list_elem_of_further, list_elem_of_here|].
  split; [do 2 apply list_elem_of_further; apply list_elem_of_here|].
  split; [reflexivity|].
  intros. vm_compute. reflexivity.
Qed.

(** C9.  The ASCII file with fields [x y z] and the body lines [1 2 3]
    and [4 5 6] decodes to the positions 1, 2, 3, 4, 5, 6 and no other
    array; the empty string after the last line feed is skipped. *)
Theorem parse_ascii_xyz
    (convertSRGBToLinear : num * num * num -> num * num * num)
    (littleEndian : bool) :
  parse convertSRGBToLinear littleEndian file_ascii_xyz =
  Ok (Geometry (Some (of_Z <$> [1; 2; 3; 4; 5; 6])) None None None None false).
Proof. vm_compute. reflexivity. Qed.

Example split_body_lines :
  split LF (lit "1 2 3" ++ [LF] ++ lit "4 5 6" ++ [LF]) =
  [lit "1 2 3"; lit "4 5 6"; []].
Proof. reflexivity. Qed.

(** ** Outcomes of [parse] *)

Section Outcomes.

Variable convertSRGBToLinear : num * num * num -> num * num * num.
Variable littleEndian : bool.

Lemma data_is_false (h : PCDheader) (s : string) :
  data h <> lit s -> data_is h s = false.
Proof. intros H. unfold data_is. apply bool_decide_eq_false_2. exact H. Qed.

Lemma parse_no_decoder (bytes : list byte) (h : PCDheader) :
  parseHeader (TextDecoder_decode bytes) = Ok h ->
  data h <> lit "ascii" ->
  data h <> lit "binary_compressed" ->
  data h <> lit "binary" ->
  parse convertSRGBToLinear littleEndian bytes =
  Ok (Geometry None None None None None false).
Proof.
  intros Hh Ha Hc Hb. unfold parse. rewrite Hh. cbn [bind].
  rewrite (data_is_false h "ascii" Ha), (data_is_false h "binary_compressed" Hc),
    (data_is_false h "binary" Hb).
  reflexivity.
Qed.

(** X12.  Let the DATA line be found with a value that is none of the
    three the decoders test for, in their exact spelling.  The offsets
    are then computed as for a binary encoding: with a FIELDS line and
    no SIZE line [parse] throws a [TypeError]; otherwise no decoder
    runs and [parse] returns a geometry without attributes. *)
Theorem parse_unknown_encoding (bytes : list byte) (d : jsstring) (n : Z) :
  find_DATA (TextDecoder_decode bytes) = Ok (d, n) ->
  d <> lit "ascii" ->
  d <> lit "binary_compressed" ->
  d <> lit "binary" ->
  let str := replace_all_empty re_comment (slice (TextDecoder_decode bytes) 0 (Some n)) in
  parse convertSRGBToLinear littleEndian bytes =
  if bool_decide (is_Some (keyword "FIELDS" str) /\ keyword "SIZE" str = None)
  then Throw TypeError
  else Ok (Geometry None None None None None false).
Proof.
  intros Hfind Ha Hc Hb str.
  destruct (parseHeader_outcome (TextDecoder_decode bytes)) as [Hiff Hcases].
  destruct (bool_decide_reflect
              (is_Some (keyword "FIELDS" str) /\ keyword "SIZE" str = None))
    as [[Hfields Hsize]|Hnot].
  - destruct Hcases as [[h Hh]|Hthrow].
    + exfalso.
      destruct (proj1 Hiff (ex_intro _ h Hh)) as (d' & n' & Hfind' & Hcase).
      rewrite Hfind in Hfind'. apply Ok_inj in Hfind'.
      apply pair_equal_spec in Hfind' as [<- <-]. fold str in Hcase.
      destruct Hcase as [?|[Hnone|Hsome]]; [contradiction| |].
      * rewrite Hnone in Hfields. destruct Hfields; discriminate.
      * rewrite Hsize in Hsome. destruct Hsome; discriminate.
    + unfold parse. rewrite Hthrow. reflexivity.
  - assert (Hok : exists h, parseHeader (TextDecoder_decode bytes) = Ok h).
    { apply (proj2 Hiff). exists d, n. split; [exact Hfind|]. right. fold str.
      destruct (keyword "FIELDS" str) as [fv|] eqn:Hf; [|left; reflexivity].
      right. destruct (keyword "SIZE" str) as [sv|] eqn:Hs; [eauto|].
      exfalso. apply Hnot. split; [eauto | reflexivity]. }
    destruct Hok as [h Hh].
    destruct (parseHeader_inv _ _ Hh) as (Hfind' & _).
    rewrite Hfind in Hfind'. apply Ok_inj in Hfind'.
    apply pair_equal_spec in Hfind' as [-> _].
    exact (parse_no_decoder bytes h Hh Ha Hc Hb).
Qed.

(** *** ascii *)

Lemma ascii_line_returns (h : PCDheader) (text : jsstring) (a : arrays) :
  has h "rgb" = false \/ type h <> None ->
  exists a', ascii_line convertSRGBToLinear h text a = Ok a'.
Proof.
  intros H. unfold ascii_line.
  destruct (bool_decide (text = [])); [eauto|].
  destruct (has h "rgb") eqn:Hrgb; cbn [bind]; [|eauto].
  unfold ascii_color. destruct (type h) as [ty|]; cbn [bind]; [eauto|].
  destruct H; congruence.
Qed.

Lemma ascii_lines_returns (h : PCDheader) (lines : list jsstring) :
  has h "rgb" = false \/ type h <> None ->
  forall a, exists a', ascii_lines convertSRGBToLinear h lines a = Ok a'.
Proof.
  intros H. induction lines as [|text lines IH]; intros a; cbn [ascii_lines]; [eauto|].
  destruct (ascii_line_returns h text a H) as [a1 ->]. cbn [bind]. apply IH.
Qed.

Lemma ascii_line_throws (h : PCDheader) (text : jsstring) (a : arrays) :
  has h "rgb" = true -> type h = None -> text <> [] ->
  ascii_line convertSRGBToLinear h text a = Throw TypeError.
Proof.
  intros Hrgb Hty Hne. unfold ascii_line.
  rewrite (bool_decide_eq_false_2 _ Hne), Hrgb. unfold ascii_color. rewrite Hty.
  reflexivity.
Qed.

Lemma ascii_lines_throws (h : PCDheader) (lines : list jsstring) :
  has h "rgb" = true -> type h = None ->
  filter (fun l => l <> []) lines <> [] ->
  forall a, ascii_lines convertSRGBToLinear h lines a = Throw TypeError.
Proof.
  intros Hrgb Hty. induction lines as [|text lines IH]; intros Hne a;
    [exfalso; apply Hne; reflexivity|].
  cbn [ascii_lines]. destruct (decide (text = [])) as [->|Ht].
  - rewrite filter_cons_False in Hne by auto.
    unfold ascii_line at 1. cbn [bool_decide decide_rel]. cbn [bind].
    apply IH. exact Hne.
  - rewrite (ascii_line_throws h text a Hrgb Hty Ht). reflexivity.
Qed.

Lemma ascii_lines_empty (h : PCDheader) (lines : list jsstring) :
  filter (fun l => l <> []) lines = [] ->
  forall a, ascii_lines convertSRGBToLinear h lines a = Ok a.
Proof.
  induction lines as [|text lines IH]; intros Hnil a; [reflexivity|].
  cbn [ascii_lines]. destruct (decide (text = [])) as [->|Ht].
  - rewrite filter_cons_False in Hnil by auto.
    unfold ascii_line at 1. cbn [bool_decide decide_rel]. cbn [bind].
    apply IH. exact Hnil.
  - rewrite filter_cons_True in Hnil by exact Ht. discriminate.
Qed.

(** X13.  An ascii file whose header parses is decoded without error
    whatever its lines hold (a token that is not a number becomes NaN),
    with one exception: when [rgb] is declared and the header has no
    TYPE line, the first line that is not empty throws a [TypeError],
    the type of the colour being read from [null]. *)
Theorem parse_ascii_outcome (bytes : list byte) (h : PCDheader) :
  parseHeader (TextDecoder_decode bytes) = Ok h ->
  data_is h "ascii" = true ->
  (has h "rgb" = true /\ type h = None /\
   nonempty_lines h (TextDecoder_decode bytes) <> [] ->
   parse convertSRGBToLinear littleEndian bytes = Throw TypeError) /\
  (has h "rgb" = false \/ type h <> None \/
   nonempty_lines h (TextDecoder_decode bytes) = [] ->
   exists g, parse convertSRGBToLinear littleEndian bytes = Ok g).
Proof.
  intros Hh Ha. unfold parse. rewrite Hh. cbn [bind]. rewrite Ha.
  rewrite (data_is_exclusive h "ascii" "binary_compressed")
    by (assumption || discriminate).
  rewrite (data_is_exclusive h "ascii" "binary") by (assumption || discriminate).
  unfold ascii_body, nonempty_lines. split.
  - intros (Hrgb & Hty & Hne).
    rewrite (ascii_lines_throws h _ Hrgb Hty Hne). reflexivity.
  - intros [H|[H|H]].
    + destruct (ascii_lines_returns h (split LF (slice (TextDecoder_decode bytes)
                  (headerLen h) None)) (or_introl H) (Arrays [] [] [] [] [])) as [a' ->].
      cbn [bind]. eauto.
    + destruct (ascii_lines_returns h (split LF (slice (TextDecoder_decode bytes)
                  (headerLen h) None)) (or_intror H) (Arrays [] [] [] [] [])) as [a' ->].
      cbn [bind]. eauto.
    + rewrite (ascii_lines_empty h _ H). cbn [bind]. eauto.
Qed.

End Outcomes.

(** *** binary_compressed *)

Lemma uint32_elements_short (bs : list byte) :
  (length bs < 8)%nat ->
  uint32_elements bs = [] \/ exists c, uint32_elements bs = [c].
Proof.
  intros H.
  destruct bs as [|b0 [|b1 [|b2 [|b3 [|b4 [|b5 [|b6 [|b7 bs]]]]]]]];
    cbn [uint32_elements]; eauto.
  cbn [length] in H. lia.
Qed.

Lemma length_slice_le {A : Type} (s : list A) (start : Z) (stop : option Z) :
  (length (slice s start stop) <= length s - slice_index (length s) start)%nat.
Proof.
  unfold slice. rewrite length_take, length_drop. lia.
Qed.

(** X14.  A binary_compressed file that ends before the two sizes are
    complete, or whose compressed size is more than the bytes that
    follow the sizes, is rejected with a [RangeError] by the typed-array
    constructors of lines 288 and 292. *)
Theorem compressed_payload_cut (convertSRGBToLinear : num * num * num -> num * num * num)
    (littleEndian : bool) (bytes : list byte) (h : PCDheader) :
  parseHeader (TextDecoder_decode bytes) = Ok h ->
  data_is h "binary_compressed" = true ->
  Z.of_nat (length bytes) < headerLen h + 8 \/
  (exists compressedSize decompressedSize,
     uint32_elements (slice bytes (headerLen h) (Some (headerLen h + 8)))
       = [compressedSize; decompressedSize] /\
     Z.of_nat (length bytes) < headerLen h + 8 + compressedSize) ->
  parse convertSRGBToLinear littleEndian bytes = Throw RangeError.
Proof.
  intros Hh Hc Hcut. unfold parse. rewrite Hh. cbn [bind].
  rewrite (data_is_exclusive h "binary_compressed" "ascii")
    by (assumption || discriminate).
  rewrite Hc. cbn [bind]. unfold compressed_body.
  destruct (headerLen_bounds _ _ Hh) as ([Hlo _] & Hhi).
  destruct Hcut as [Hcut|(c & d & Hsizes & Hcut)].
  - pose proof (length_slice_le bytes (headerLen h) (Some (headerLen h + 8))) as Hs.
    assert (Hidx : slice_index (length bytes) (headerLen h) = Z.to_nat (headerLen h)).
    { unfold slice_index. destruct (Z.ltb_spec (headerLen h) 0); lia. }
    rewrite Hidx in Hs.
    destruct (uint32_elements_short
                (slice bytes (headerLen h) (Some (headerLen h + 8))) ltac:(lia))
      as [->|[c ->]]; reflexivity.
  - rewrite Hsizes.
    assert (Hc0 : 0 <= c).
    { destruct (slice bytes (headerLen h) (Some (headerLen h + 8)))
        as [|b0 [|b1 [|b2 [|b3 rest]]]]; try discriminate Hsizes.
      cbn [uint32_elements] in Hsizes. injection Hsizes as <- _.
      unfold little_endian. cbn [foldr].
      pose proof (byte_val_range b0). pose proof (byte_val_range b1).
      pose proof (byte_val_range b2). pose proof (byte_val_range b3). lia. }
    destruct (Nat.ltb_spec (length bytes)
                (Z.to_nat (headerLen h + 8) + Z.to_nat c)) as [|Hge];
      [reflexivity|lia].
Qed.

Lemma parse_unknown_encoding_witness :
  (find_DATA (TextDecoder_decode file_DATA_upper) = Ok (lit "ASCII", 46) /\
   parse (fun c => c) true file_DATA_upper =
   Ok (Geometry None None None None None false)) /\
  (find_DATA (TextDecoder_decode file_upper_no_SIZE) = Ok (lit "ASCII", 24) /\
   parse (fun c => c) true file_upper_no_SIZE = Throw TypeError).
Proof.
  split.
  - assert (H : find_DATA (TextDecoder_decode file_DATA_upper) = Ok (lit "ASCII", 46))
      by (vm_compute; reflexivity).
    split; [exact H|].
    exact (parse_unknown_encoding (fun c => c) true file_DATA_upper (lit "ASCII") 46 H
             ltac:(discriminate) ltac:(discriminate) ltac:(discriminate)).
  - assert (H : find_DATA (TextDecoder_decode file_upper_no_SIZE) = Ok (lit "ASCII", 24))
      by (vm_compute; reflexivity).
    split; [exact H|].
    exact (parse_unknown_encoding (fun c => c) true file_upper_no_SIZE (lit "ASCII") 24 H
             ltac:(discriminate) ltac:(discriminate) ltac:(discriminate)).
Defined.

Lemma parse_ascii_outcome_witness :
  exists h,
    parseHeader (TextDecoder_decode file_rgb_untyped) = Ok h /\
    data_is h "ascii" = true /\
    (has h "rgb" = true /\ type h = None /\
     nonempty_lines h (TextDecoder_decode file_rgb_untyped) <> [] ->
     parse (fun c => c) true file_rgb_untyped = Throw TypeError) /\
    (has h "rgb" = false \/ type h <> None \/
     nonempty_lines h (TextDecoder_decode file_rgb_untyped) = [] ->
     exists g, parse (fun c => c) true file_rgb_untyped = Ok g).
Proof.
  eexists. split; [vm_compute; reflexivity|]. split; [vm_compute; reflexivity|].
  apply (parse_ascii_outcome (fun c => c) true file_rgb_untyped);
    vm_compute; reflexivity.
Defined.

Lemma compressed_payload_cut_witness :
  exists h,
    parseHeader (TextDecoder_decode file_compressed_cut) = Ok h /\
    data_is h "binary_compressed" = true /\
    Z.of_nat (length file_compressed_cut) < headerLen h + 8 /\
    parse (fun c => c) true file_compressed_cut = Throw RangeError.
Proof.
  eexists. split; [vm_compute; reflexivity|]. split; [vm_compute; reflexivity|].
  match goal with
  | |- Z.of_nat _ < headerLen ?h0 + 8 /\ _ =>
      split; [vm_compute; reflexivity|];
      apply (compressed_payload_cut (fun c => c) true file_compressed_cut h0);
      [vm_compute; reflexivity | vm_compute; reflexivity
       | left; vm_compute; reflexivity]
  end.
Defined.

(** ** Rows of the ascii and binary bodies *)

Lemma append_arrays_nil (a : arrays) :
  append_arrays a (Arrays [] [] [] [] []) = a.
Proof.
  destruct a. unfold append_arrays. cbn [position normal color intensity label].
  rewrite !app_nil_r. reflexivity.
Qed.

Lemma append_empty_arrays (a : arrays) :
  append_arrays (Arrays [] [] [] [] []) a = a.
Proof. destruct a. reflexivity. Qed.

(** Rows of uniform lengths stand in the attributes of the geometry
    built from them, each at the place of its index. *)
Lemma rows_in_geometry (h : PCDheader) (rows : list arrays) (i : nat) (r : arrays) :
  (forall j r', rows !! j = Some r' -> row_lengths h r') ->
  rows !! i = Some r ->
  let g := build (concat_arrays rows) in
  group_at (attr_position g) i (position r) /\
  group_at (attr_normal g) i (normal r) /\
  group_at (attr_color g) i (color r) /\
  group_at (attr_intensity g) i (intensity r) /\
  group_at (attr_label g) i (label r).
Proof.
  intros Hlens Hr. unfold build, concat_arrays.
  cbn [position normal color intensity label attr_position attr_normal
       attr_color attr_intensity attr_label].
  repeat split.
  - apply (group_at_concat position rows i (group_size h "x" 3) r); [|exact Hr].
    intros j r' Hj. apply (Hlens j r' Hj).
  - apply (group_at_concat normal rows i (group_size h "normal_x" 3) r); [|exact Hr].
    intros j r' Hj. apply (Hlens j r' Hj).
  - apply (group_at_concat color rows i (group_size h "rgb" 3) r); [|exact Hr].
    intros j r' Hj. apply (Hlens j r' Hj).
  - apply (group_at_concat intensity rows i (group_size h "intensity" 1) r); [|exact Hr].
    intros j r' Hj. apply (Hlens j r' Hj).
  - apply (group_at_concat label rows i (group_size h "label" 1) r); [|exact Hr].
    intros j r' Hj. apply (Hlens j r' Hj).
Qed.

Lemma group_at_fmap (F : num -> num) (attr : option (list num)) (i : nat)
    (vs : list num) :
  group_at attr i vs -> group_at ((fun l : list num => F <$> l) <$> attr) i (F <$> vs).
Proof.
  intros [->|(l & -> & Hl)]; [left; reflexivity|].
  right. exists (F <$> l). split; [reflexivity|].
  intros j v Hj. rewrite length_fmap.
  rewrite list_lookup_fmap in Hj.
  destruct (vs !! j) as [v0|] eqn:Hv; [|discriminate].
  injection Hj as <-.
  rewrite list_lookup_fmap, (Hl j v0 Hv). reflexivity.
Qed.

Section Rows.

Variable convertSRGBToLinear : num * num * num -> num * num * num.
Variable littleEndian : bool.

Ltac solve_row :=
  eexists (Arrays _ _ _ _ _); (split; [
    repeat match goal with E : has _ _ = _ |- _ => rewrite E end;
    cbn [position normal color intensity label];
    repeat split; eauto 10
  | repeat match goal with x : arrays |- _ => destruct x end;
    unfold append_arrays, push_position, push_normal, push_color,
      push_intensity, push_label;
    cbn [position normal color intensity label];
    rewrite ?app_nil_r; reflexivity ]).

Lemma ascii_line_inv (h : PCDheader) (text : jsstring) (a a' : arrays) :
  text <> [] ->
  ascii_line convertSRGBToLinear h text a = Ok a' ->
  exists r, ascii_pushes convertSRGBToLinear h text r /\ a' = append_arrays a r.
Proof.
  intros Hne H. unfold ascii_line in H.
  rewrite (bool_decide_eq_false_2 _ Hne) in H. cbv zeta in H.
  unfold ascii_pushes. cbv zeta.
  destruct (has h "x") eqn:Hx, (has h "normal_x") eqn:Hn,
    (has h "intensity") eqn:Hi, (has h "label") eqn:Hl, (has h "rgb") eqn:Hc;
    cbn [bind] in H;
    try (destruct (ascii_color convertSRGBToLinear h (split SP text))
           as [c| |] eqn:E; cbn [bind] in H; try discriminate H);
    apply Ok_inj in H; subst a';
    (eexists (Arrays _ _ _ _ _); split;
     [ cbn [position normal color intensity label];
       repeat split; try reflexivity; try exact E
     | destruct a;
       unfold append_arrays, push_position, push_normal, push_color,
         push_intensity, push_label;
       cbn [position normal color intensity label];
       rewrite ?app_nil_r; reflexivity ]).
Qed.

Lemma ascii_pushes_lengths (h : PCDheader) (text : jsstring) (r : arrays) :
  ascii_pushes convertSRGBToLinear h text r -> row_lengths h r.
Proof.
  unfold ascii_pushes, row_lengths, group_size. cbv zeta.
  intros (Hp & Hn & Hc & Hi & Hl). rewrite Hp, Hn, Hi, Hl.
  destruct (has h "x"), (has h "normal_x"), (has h "intensity"), (has h "label");
    destruct (has h "rgb");
    try (apply (ascii_color_length convertSRGBToLinear) in Hc);
    try rewrite Hc; repeat split.
Qed.

Lemma ascii_lines_values (h : PCDheader) (lines : list jsstring) :
  forall a a',
    ascii_lines convertSRGBToLinear h lines a = Ok a' ->
    exists rows,
      Forall2 (ascii_pushes convertSRGBToLinear h)
              (filter (fun l => l <> []) lines) rows /\
      a' = append_arrays a (concat_arrays rows).
Proof.
  induction lines as [|text lines IH]; intros a a' H; cbn [ascii_lines] in H.
  - injection H as <-. exists []. split; [constructor|].
    symmetry. apply append_arrays_nil.
  - destruct (ascii_line convertSRGBToLinear h text a) as [a1| |] eqn:E;
      cbn [bind] in H; try discriminate H.
    destruct (IH _ _ H) as (rows & Hrows & ->).
    destruct (decide (text = [])) as [He|Hne].
    + subst text. unfold ascii_line in E. cbn [bool_decide decide_rel] in E.
      apply Ok_inj in E. subst a1.
      rewrite filter_cons_False by auto. exists rows. auto.
    + apply (ascii_line_inv h text a a1 Hne) in E as (r & Hr & ->).
      rewrite filter_cons_True by exact Hne.
      exists (r :: rows). split; [constructor; assumption|].
      rewrite append_arrays_assoc. reflexivity.
Qed.

Lemma ascii_rows_values (bytes : list byte) (h : PCDheader) (g : geometry) :
  parseHeader (TextDecoder_decode bytes) = Ok h ->
  data_is h "ascii" = true ->
  parse convertSRGBToLinear littleEndian bytes = Ok g ->
  forall i text,
    nonempty_lines h (TextDecoder_decode bytes) !! i = Some text ->
    exists r,
      ascii_pushes convertSRGBToLinear h text r /\
      group_at (attr_position g) i (position r) /\
      group_at (attr_normal g) i (normal r) /\
      group_at (attr_color g) i (color r) /\
      group_at (attr_intensity g) i (intensity r) /\
      group_at (attr_label g) i (label r).
Proof.
  intros Hh Ha. unfold parse. rewrite Hh. cbn [bind]. rewrite Ha.
  rewrite (data_is_exclusive h "ascii" "binary_compressed")
    by (assumption || discriminate).
  rewrite (data_is_exclusive h "ascii" "binary") by (assumption || discriminate).
  destruct (ascii_body _ h _ _) as [a| |] eqn:E; cbn [bind]; try discriminate.
  intros [= <-] i text Hi. unfold ascii_body in E.
  apply ascii_lines_values in E as (rows & Hrows & ->).
  rewrite append_empty_arrays.
  unfold nonempty_lines in Hi.
  destruct (Forall2_lookup_l _ _ _ _ _ Hrows Hi) as (r & Hr & Hpush).
  exists r. split; [exact Hpush|].
  apply (rows_in_geometry h rows i r); [|exact Hr].
  intros j r' Hj.
  destruct (Forall2_lookup_r _ _ _ _ _ Hrows Hj) as (text' & _ & Hpush').
  exact (ascii_pushes_lengths h text' r' Hpush').
Qed.

(** X15.  Under [ascii], when [parse] returns: for every body line that
    is not empty, the [i]-th of them, the values pushed are the numbers
    parsed from its tokens at the columns of the fields, and the
    buffer attributes of the geometry hold them at the place of row [i]
    as their typed arrays store them: rounded to the nearest binary32
    number, and for the label reduced to a 32-bit integer.  Neither the
    point count nor the number of tokens of a line is looked at. *)
Theorem ascii_row_major (bytes : list byte) (h : PCDheader) (g : geometry) :
  parseHeader (TextDecoder_decode bytes) = Ok h ->
  data_is h "ascii" = true ->
  parse convertSRGBToLinear littleEndian bytes = Ok g ->
  forall i text,
    nonempty_lines h (TextDecoder_decode bytes) !! i = Some text ->
    exists r,
      ascii_pushes convertSRGBToLinear h text r /\
      group_at (attr_position (stored g)) i (Float32BufferAttribute (position r)) /\
      group_at (attr_normal (stored g)) i (Float32BufferAttribute (normal r)) /\
      group_at (attr_color (stored g)) i (Float32BufferAttribute (color r)) /\
      group_at (attr_intensity (stored g)) i (Float32BufferAttribute (intensity r)) /\
      group_at (attr_label (stored g)) i (Int32BufferAttribute (label r)).
Proof.
  intros Hh Ha Hg i text Htext.
  destruct (ascii_rows_values bytes h g Hh Ha Hg
              i text Htext) as (r & Hr & Hp & Hn & Hc & Hi & Hl).
  exists r. split; [exact Hr|].
  unfold stored, Float32BufferAttribute, Int32BufferAttribute.
  cbn [attr_position attr_normal attr_color attr_intensity attr_label].
  repeat split; apply group_at_fmap; assumption.
Qed.

Lemma has_false (h : PCDheader) (name : string) :
  has h name = false -> offset h !! lit name = None.
Proof.
  unfold has. intros H. apply bool_decide_eq_false in H.
  destruct (offset h !! lit name); [exfalso; apply H; eauto | reflexivity].
Qed.

Lemma group_at_lookup (attr : option (list num)) (i : nat) (vs : list num) :
  vs <> [] -> group_at attr i vs ->
  exists l, attr = Some l /\
            forall j v, vs !! j = Some v -> l !! (i * length vs + j)%nat = Some v.
Proof. intros Hne [H|H]; [contradiction | exact H]. Qed.

(** X16.  Under [ascii] the decoder pushes a position for every line as
    soon as [x] is declared: a coordinate [y] or [z] that the header
    does not declare is NaN in every row. *)
Theorem ascii_undeclared_coordinate (bytes : list byte) (h : PCDheader) (g : geometry) :
  parseHeader (TextDecoder_decode bytes) = Ok h ->
  data_is h "ascii" = true ->
  lit "x" ∈ fields h ->
  parse convertSRGBToLinear littleEndian bytes = Ok g ->
  forall i, (i < length (nonempty_lines h (TextDecoder_decode bytes)))%nat ->
    exists l,
      attr_position g = Some l /\
      (lit "y" ∉ fields h -> l !! (3 * i + 1)%nat = Some NaN) /\
      (lit "z" ∉ fields h -> l !! (3 * i + 2)%nat = Some NaN).
Proof.
  intros Hh Ha Hx Hg i Hi.
  destruct (lookup_lt_is_Some_2 _ _ Hi) as [text Htext].
  destruct (ascii_rows_values bytes h g Hh Ha Hg i text Htext)
    as (r & (Hp & _) & Hgp & _).
  apply (has_field _ _ "x" Hh ltac:(discriminate)) in Hx. rewrite Hx in Hp.
  rewrite Hp in Hgp. apply group_at_lookup in Hgp as (l & Hl & Hlook); [|discriminate].
  exists l. split; [exact Hl|]. cbn [length] in Hlook. split.
  - intros Hy.
    assert (Hhas : has h "y" = false).
    { destruct (has h "y") eqn:E; [|reflexivity].
      apply (has_field _ _ "y" Hh ltac:(discriminate)) in E. contradiction. }
    specialize (Hlook 1%nat _ eq_refl).
    unfold token in Hlook. rewrite (has_false h "y" Hhas) in Hlook.
    replace (3 * i + 1)%nat with (i * 3 + 1)%nat by lia. exact Hlook.
  - intros Hz.
    assert (Hhas : has h "z" = false).
    { destruct (has h "z") eqn:E; [|reflexivity].
      apply (has_field _ _ "z" Hh ltac:(discriminate)) in E. contradiction. }
    specialize (Hlook 2%nat _ eq_refl).
    unfold token in Hlook. rewrite (has_false h "z" Hhas) in Hlook.
    replace (3 * i + 2)%nat with (i * 3 + 2)%nat by lia. exact Hlook.
Qed.

(** *** binary *)

Lemma binary_row_inv (h : PCDheader) (view : list byte) (i row : num)
    (a : arrays) (st' : num * arrays) :
  binary_row convertSRGBToLinear littleEndian h view i (row, a) = Ok st' ->
  exists r,
    binary_pushes convertSRGBToLinear littleEndian h view row r /\
    st' = (add row (rowSize h), append_arrays a r).
Proof.
  intros H. unfold binary_row in H. inv_res;
    eexists (Arrays _ _ _ _ _); (split; [
      unfold binary_pushes;
      repeat match goal with E : has _ _ = _ |- _ => rewrite E end;
      cbn [position normal color intensity label];
      repeat split; eauto 10
    | repeat match goal with x : arrays |- _ => destruct x end;
      unfold append_arrays, push_position, push_normal, push_color,
        push_intensity, push_label;
      cbn [position normal color intensity label];
      rewrite ?app_nil_r; reflexivity ]).
Qed.

Lemma binary_pushes_lengths (h : PCDheader) (view : list byte) (row : num)
    (r : arrays) :
  binary_pushes convertSRGBToLinear littleEndian h view row r -> row_lengths h r.
Proof.
  unfold binary_pushes, row_lengths, group_size.
  intros (Hp & Hn & Hc & Hi & Hl).
  destruct (has h "x"), (has h "normal_x"), (has h "rgb"), (has h "intensity"),
    (has h "label");
    repeat match goal with
           | H : exists _, _ |- _ => destruct H
           | H : _ /\ _ |- _ => destruct H
           end;
    repeat match goal with
           | H : _ r = _ |- _ => rewrite H; clear H
           end;
    rewrite ?length_linear_color; repeat split.
Qed.

Lemma for_rows_binary_values (h : PCDheader) (view : list byte) (n : nat) :
  forall (i0 k : nat) (a : arrays) (st' : num * arrays),
    for_rows n i0 (binary_row convertSRGBToLinear littleEndian h view)
             (row_start h k, a) = Ok st' ->
    exists rows,
      length rows = n /\
      (forall i r, rows !! i = Some r ->
         binary_pushes convertSRGBToLinear littleEndian h view
                       (row_start h (k + i)) r) /\
      st' = (row_start h (k + n), append_arrays a (concat_arrays rows)).
Proof.
  induction n as [|n IH]; intros i0 k a st' H; cbn [for_rows] in H.
  - apply Ok_inj in H. subst st'. exists []. split; [reflexivity|]. split.
    + intros i r Hr. discriminate Hr.
    + rewrite Nat.add_0_r. f_equal. symmetry. apply append_arrays_nil.
  - destruct (binary_row _ _ h view (loop_var i0) (row_start h k, a))
      as [st1| |] eqn:E; cbn [bind] in H; try discriminate H.
    apply binary_row_inv in E as (r0 & Hr0 & ->).
    change (add (row_start h k) (rowSize h)) with (row_start h (S k)) in H.
    destruct (IH (S i0) (S k) _ _ H) as (rows & Hlen & Hrows & ->).
    exists (r0 :: rows). split; [cbn; lia|]. split.
    + intros [|i] r Hr.
      * injection Hr as <-. rewrite Nat.add_0_r. exact Hr0.
      * replace (k + S i)%nat with (S k + i)%nat by lia. apply Hrows. exact Hr.
    + rewrite append_arrays_assoc. f_equal. f_equal. lia.
Qed.

Lemma binary_rows_values (bytes : list byte) (h : PCDheader) (g : geometry) :
  parseHeader (TextDecoder_decode bytes) = Ok h ->
  data_is h "binary" = true ->
  parse convertSRGBToLinear littleEndian bytes = Ok g ->
  exists n,
    iterations (points h) = Some n /\
    forall i, (i < n)%nat ->
      exists r,
        binary_pushes convertSRGBToLinear littleEndian h
                      (drop (Z.to_nat (headerLen h)) bytes) (row_start h i) r /\
        group_at (attr_position g) i (position r) /\
        group_at (attr_normal g) i (normal r) /\
        group_at (attr_color g) i (color r) /\
        group_at (attr_intensity g) i (intensity r) /\
        group_at (attr_label g) i (label r).
Proof.
  intros Hh Hb. unfold parse. rewrite Hh. cbn [bind].
  rewrite (data_is_exclusive h "binary" "ascii") by (assumption || discriminate).
  rewrite (data_is_exclusive h "binary" "binary_compressed")
    by (assumption || discriminate).
  rewrite Hb. cbn [bind].
  destruct (binary_body _ _ h bytes _) as [a| |] eqn:E; cbn [bind];
    try discriminate.
  intros [= <-]. unfold binary_body in E.
  destruct (_ <? _); [discriminate E|].
  destruct (for_points _ _ _) as [st| |] eqn:Hloop; cbn [bind] in E;
    try discriminate E.
  apply Ok_inj in E. subst a.
  apply for_points_Ok in Hloop as (n & Hn & Hloop).
  change (of_Z 0) with (row_start h 0) in Hloop.
  apply for_rows_binary_values in Hloop as (rows & Hlen & Hrows & ->).
  exists n. split; [exact Hn|]. intros i Hi.
  destruct (rows !! i) as [r|] eqn:Hr.
  2:{ apply lookup_ge_None in Hr. lia. }
  exists r. split; [exact (Hrows i r Hr)|].
  cbn [snd]. rewrite append_empty_arrays.
  apply (rows_in_geometry h rows i r); [|exact Hr].
  intros j r' Hj. exact (binary_pushes_lengths h _ _ r' (Hrows j r' Hj)).
Qed.


End Rows.

Lemma add_NaN_r (x : num) : add x NaN = NaN.
Proof. destruct x as [s|s| |s m e]; reflexivity. Qed.

Lemma getFloat32_NaN (view : list byte) (littleEndian : bool) :
  getFloat32 view NaN littleEndian = getFloat32 view (of_Z 0) littleEndian.
Proof. reflexivity. Qed.

Lemma off_undeclared (h : PCDheader) (name : string) :
  has h name = false -> off h name = NaN.
Proof. intros H. unfold off. rewrite (has_false h name H). reflexivity. Qed.

(** X18.  Under [binary] the decoder pushes a position in every pass as
    soon as [x] is declared: for a coordinate [y] or [z] that the header
    does not declare, the address [row + undefined] is NaN, which reads
    at index 0, so every row gets the number at the start of the
    view. *)
Theorem binary_undeclared_coordinate
    (convertSRGBToLinear : num * num * num -> num * num * num)
    (littleEndian : bool) (bytes : list byte) (h : PCDheader) (g : geometry) :
  parseHeader (TextDecoder_decode bytes) = Ok h ->
  data_is h "binary" = true ->
  lit "x" ∈ fields h ->
  parse convertSRGBToLinear littleEndian bytes = Ok g ->
  exists n,
    iterations (points h) = Some n /\
    forall i, (i < n)%nat ->
      exists l,
        attr_position g = Some l /\
        (lit "y" ∉ fields h ->
         exists v, getFloat32 (drop (Z.to_nat (headerLen h)) bytes) (of_Z 0)
                              littleEndian = Ok v /\
                   l !! (3 * i + 1)%nat = Some v) /\
        (lit "z" ∉ fields h ->
         exists v, getFloat32 (drop (Z.to_nat (headerLen h)) bytes) (of_Z 0)
                              littleEndian = Ok v /\
                   l !! (3 * i + 2)%nat = Some v).
Proof.
  intros Hh Hb Hx Hg.
  destruct (binary_rows_values convertSRGBToLinear littleEndian bytes h g Hh Hb Hg)
    as (n & Hn & Hrows).
  exists n. split; [exact Hn|]. intros i Hi.
  destruct (Hrows i Hi) as (r & (Hp & _) & Hgp & _).
  apply (has_field _ _ "x" Hh ltac:(discriminate)) in Hx. rewrite Hx in Hp.
  destruct Hp as (x & y & z & Hp & _ & Hy & Hz).
  rewrite Hp in Hgp. apply group_at_lookup in Hgp as (l & Hl & Hlook); [|discriminate].
  exists l. split; [exact Hl|]. cbn [length] in Hlook. split.
  - intros Hny.
    assert (Hhas : has h "y" = false).
    { destruct (has h "y") eqn:E; [|reflexivity].
      apply (has_field _ _ "y" Hh ltac:(discriminate)) in E. contradiction. }
    rewrite (off_undeclared h "y" Hhas), add_NaN_r, getFloat32_NaN in Hy.
    exists y. split; [exact Hy|].
    replace (3 * i + 1)%nat with (i * 3 + 1)%nat by lia. apply Hlook. reflexivity.
  - intros Hnz.
    assert (Hhas : has h "z" = false).
    { destruct (has h "z") eqn:E; [|reflexivity].
      apply (has_field _ _ "z" Hh ltac:(discriminate)) in E. contradiction. }
    rewrite (off_undeclared h "z" Hhas), add_NaN_r, getFloat32_NaN in Hz.
    exists z. split; [exact Hz|].
    replace (3 * i + 2)%nat with (i * 3 + 2)%nat by lia. apply Hlook. reflexivity.
Qed.

(** ** Sample files *)

Example parse_ascii_x :
  parse (fun c => c) true file_ascii_x =
  Ok (Geometry (Some [of_Z 7; NaN; NaN; of_Z 8; NaN; NaN]) None None None None false).
Proof. vm_compute. reflexivity. Qed.

Example parse_binary_xy :
  parse (fun c => c) true file_binary_xy =
  Ok (Geometry (Some (of_Z <$> [1; 3; 1; 2; 4; 1])) None None None None false).
Proof. vm_compute. reflexivity. Qed.

Lemma ascii_row_major_witness :
  exists h g,
    parseHeader (TextDecoder_decode file_ascii_label) = Ok h /\
    data_is h "ascii" = true /\
    parse (fun c => c) true file_ascii_label = Ok g /\
    nonempty_lines h (TextDecoder_decode file_ascii_label) = [lit "0.1 2 3 4294967297"] /\
    attr_position g = Some [parseFloat (Some (lit "0.1")); of_Z 2; of_Z 3] /\
    attr_label g = Some [of_Z 4294967297] /\
    attr_position (stored g) = Some [f32_of_bits 1036831949; of_Z 2; of_Z 3] /\
    attr_label (stored g) = Some [of_Z 1] /\
    parseFloat (Some (lit "0.1")) <> f32_of_bits 1036831949 /\
    forall i text,
      nonempty_lines h (TextDecoder_decode file_ascii_label) !! i = Some text ->
      exists r,
        ascii_pushes (fun c => c) h text r /\
        group_at (attr_position (stored g)) i (Float32BufferAttribute (position r)) /\
        group_at (attr_normal (stored g)) i (Float32BufferAttribute (normal r)) /\
        group_at (attr_color (stored g)) i (Float32BufferAttribute (color r)) /\
        group_at (attr_intensity (stored g)) i (Float32BufferAttribute (intensity r)) /\
        group_at (attr_label (stored g)) i (Int32BufferAttribute (label r)).
Proof.
  eexists. eexists. split; [vm_compute; reflexivity|].
  split; [vm_compute; reflexivity|]. split; [vm_compute; reflexivity|].
  split; [vm_compute; reflexivity|]. split; [vm_compute; reflexivity|].
  split; [vm_compute; reflexivity|]. split; [vm_compute; reflexivity|].
  split; [vm_compute; reflexivity|]. split; [vm_compute; discriminate|].
  apply (ascii_row_major (fun c => c) true); vm_compute; reflexivity.
Defined.

Lemma ascii_undeclared_coordinate_witness :
  exists h g,
    parseHeader (TextDecoder_decode file_ascii_x) = Ok h /\
    data_is h "ascii" = true /\
    lit "x" ∈ fields h /\
    parse (fun c => c) true file_ascii_x = Ok g /\
    length (nonempty_lines h (TextDecoder_decode file_ascii_x)) = 2%nat /\
    forall i, (i < length (nonempty_lines h (TextDecoder_decode file_ascii_x)))%nat ->
      exists l,
        attr_position g = Some l /\
        (lit "y" ∉ fields h -> l !! (3 * i + 1)%nat = Some NaN) /\
        (lit "z" ∉ fields h -> l !! (3 * i + 2)%nat = Some NaN).
Proof.
  eexists. eexists. split; [vm_compute; reflexivity|].
  split; [vm_compute; reflexivity|].
  split; [vm_compute; apply list_elem_of_here|].
  split; [vm_compute; reflexivity|]. split; [vm_compute; reflexivity|].
  apply (ascii_undeclared_coordinate (fun c => c) true);
    [vm_compute; reflexivity | vm_compute; reflexivity
     | vm_compute; apply list_elem_of_here | vm_compute; reflexivity].
Defined.


Lemma binary_undeclared_coordinate_witness :
  exists h g,
    parseHeader (TextDecoder_decode file_binary_xy) = Ok h /\
    data_is h "binary" = true /\
    lit "x" ∈ fields h /\
    parse (fun c => c) true file_binary_xy = Ok g /\
    exists n,
      iterations (points h) = Some n /\
      forall i, (i < n)%nat ->
        exists l,
          attr_position g = Some l /\
          (lit "y" ∉ fields h ->
           exists v, getFloat32 (drop (Z.to_nat (headerLen h)) file_binary_xy)
                                (of_Z 0) true = Ok v /\
                     l !! (3 * i + 1)%nat = Some v) /\
          (lit "z" ∉ fields h ->
           exists v, getFloat32 (drop (Z.to_nat (headerLen h)) file_binary_xy)
                                (of_Z 0) true = Ok v /\
                     l !! (3 * i + 2)%nat = Some v).
Proof.
  eexists. eexists. split; [vm_compute; reflexivity|].
  split; [vm_compute; reflexivity|].
  split; [vm_compute; apply list_elem_of_here|].
  split; [vm_compute; reflexivity|].
  apply (binary_undeclared_coordinate (fun c => c) true);
    [vm_compute; reflexivity | vm_compute; reflexivity
     | vm_compute; apply list_elem_of_here | vm_compute; reflexivity].
Defined.

(** ** The loop over the points *)

(** X19.  For a point count that is an integer [N] from 0 to 2^53, the
    loop of lines 298 and 358, which tests [i < points] before each
    pass, makes exactly [N] passes, with [i] running from 0 to [N - 1];
    this is the number of passes the decoders are given above. *)
Theorem loop_passes {St : Type} (N : Z) (fuel : nat)
    (body : num -> St -> res St) (s : St) :
  0 <= N <= 2 ^ 53 -> (Z.to_nat N < fuel)%nat ->
  iterations (of_Z N) = Some (Z.to_nat N) /\
  for_tested fuel 0 (of_Z N) body s = for_rows (Z.to_nat N) 0 body s /\
  for_points (of_Z N) body s = for_rows (Z.to_nat N) 0 body s /\
  forall i, (i < Z.to_nat N)%nat -> loop_var i = of_Z (Z.of_nat i).
Proof.
  intros HN Hfuel. split; [apply iterations_of_Z; exact HN|]. split; [|split].
  - apply for_tested_rows; [exact HN|lia|exact Hfuel].
  - unfold for_points. rewrite iterations_of_Z by exact HN. reflexivity.
  - intros i Hi. unfold loop_var. rewrite Z.min_l by lia. reflexivity.
Qed.

Lemma loop_passes_witness :
  0 <= 3 <= 2 ^ 53 /\ (Z.to_nat 3 < 10)%nat /\
  for_tested 10 0 (of_Z 3) (fun i l => Ok (l ++ [i])) [] =
    Ok [of_Z 0; of_Z 1; of_Z 2] /\
  iterations (of_Z 3) = Some (Z.to_nat 3) /\
  for_tested 10 0 (of_Z 3) (fun i l => Ok (l ++ [i])) [] =
    for_rows (Z.to_nat 3) 0 (fun i l => Ok (l ++ [i])) [] /\
  for_points (of_Z 3) (fun i l => Ok (l ++ [i])) [] =
    for_rows (Z.to_nat 3) 0 (fun i l => Ok (l ++ [i])) [] /\
  forall i, (i < Z.to_nat 3)%nat -> loop_var i = of_Z (Z.of_nat i).
Proof.
  assert (H1 : 0 <= 3 <= 2 ^ 53) by lia.
  assert (H2 : (Z.to_nat 3 < 10)%nat) by (cbn; lia).
  split; [exact H1|]. split; [exact H2|]. split; [vm_compute; reflexivity|].
  exact (loop_passes 3 10 (fun i l => Ok (l ++ [i])) [] H1 H2).
Defined.

(** ** Whether [parse] returns *)

Lemma bind_NoReturn {A B : Type} (r : res A) (k : A -> res B) :
  bind r k = NoReturn -> r = NoReturn \/ exists a, r = Ok a /\ k a = NoReturn.
Proof. destruct r; cbn [bind]; [eauto | discriminate | auto]. Qed.

Lemma to_index_returns (n : num) : to_index n <> NoReturn.
Proof.
  unfold to_index. destruct n; try discriminate;
    destruct (truncate _); try discriminate; destruct (_ || _); discriminate.
Qed.

Lemma view_bytes_returns (view : list byte) (o : num) (k : nat) (le : bool) :
  view_bytes view o k le <> NoReturn.
Proof.
  unfold view_bytes. intros H. apply bind_NoReturn in H as [H|(i & _ & H)].
  - exact (to_index_returns _ H).
  - destruct (_ <? _)%nat; discriminate.
Qed.

Lemma getFloat32_returns (view : list byte) (o : num) (le : bool) :
  getFloat32 view o le <> NoReturn.
Proof.
  unfold getFloat32. intros H. apply bind_NoReturn in H as [H|(i & _ & H)];
    [exact (view_bytes_returns _ _ _ _ H) | discriminate].
Qed.

Lemma getInt32_returns (view : list byte) (o : num) (le : bool) :
  getInt32 view o le <> NoReturn.
Proof.
  unfold getInt32. intros H. apply bind_NoReturn in H as [H|(i & _ & H)];
    [exact (view_bytes_returns _ _ _ _ H) | discriminate].
Qed.

Lemma getUint8_returns (view : list byte) (o : num) : getUint8 view o <> NoReturn.
Proof.
  unfold getUint8. intros H. apply bind_NoReturn in H as [H|(i & _ & H)];
    [exact (view_bytes_returns _ _ _ _ H) | discriminate].
Qed.

Lemma column_address_returns (h : PCDheader) (name : string) (i : num) :
  column_address h name i <> NoReturn.
Proof.
  unfold column_address, size_of. destruct (size h); discriminate.
Qed.

Ltac no_return H :=
  repeat match type of H with
         | bind ?r _ = NoReturn =>
             let a := fresh "a" in
             apply bind_NoReturn in H as [H|(a & _ & H)];
             [ first [ exact (getFloat32_returns _ _ _ H)
                     | exact (getInt32_returns _ _ _ H)
                     | exact (getUint8_returns _ _ H)
                     | exact (column_address_returns _ _ _ H)
                     | idtac ] | ]
         | (if ?b then _ else _) = NoReturn => destruct b
         | Ok _ = NoReturn => discriminate H
         | (let (_, _) := ?p in _) = NoReturn => destruct p
         end.

Section Returns.

Variable convertSRGBToLinear : num * num * num -> num * num * num.
Variable littleEndian : bool.

Lemma compressed_row_returns (h : PCDheader) (view : list byte) (i : num) (a : arrays) :
  compressed_row convertSRGBToLinear littleEndian h view i a <> NoReturn.
Proof. unfold compressed_row. intros H. no_return H. Qed.

Lemma binary_row_returns (h : PCDheader) (view : list byte) (i : num)
    (st : num * arrays) :
  binary_row convertSRGBToLinear littleEndian h view i st <> NoReturn.
Proof. unfold binary_row. intros H. no_return H. Qed.

Lemma ascii_line_not_NoReturn (h : PCDheader) (text : jsstring) (a : arrays) :
  ascii_line convertSRGBToLinear h text a <> NoReturn.
Proof.
  unfold ascii_line. destruct (bool_decide _); [discriminate|].
  destruct (has h "rgb"); cbn [bind]; [|discriminate].
  unfold ascii_color. destruct (type h); discriminate.
Qed.

Lemma ascii_lines_not_NoReturn (h : PCDheader) (lines : list jsstring) :
  forall a, ascii_lines convertSRGBToLinear h lines a <> NoReturn.
Proof.
  induction lines as [|text lines IH]; intros a; cbn [ascii_lines]; [discriminate|].
  intros H. apply bind_NoReturn in H as [H|(a1 & _ & H)].
  - exact (ascii_line_not_NoReturn _ _ _ H).
  - exact (IH _ H).
Qed.

Lemma for_rows_returns {St : Type} (body : num -> St -> res St) (n : nat) :
  (forall i s, body i s <> NoReturn) ->
  forall i s, for_rows n i body s <> NoReturn.
Proof.
  intros Hbody. induction n as [|n IH]; intros i s; cbn [for_rows]; [discriminate|].
  intros H. apply bind_NoReturn in H as [H|(s1 & _ & H)].
  - exact (Hbody _ _ H).
  - exact (IH _ _ H).
Qed.

Lemma for_points_NoReturn {St : Type} (points : num) (body : num -> St -> res St)
    (s : St) :
  (forall i s, body i s <> NoReturn) ->
  for_points points body s = NoReturn -> iterations points = None.
Proof.
  intros Hbody. unfold for_points. destruct (iterations points) as [n|]; [|reflexivity].
  intros H. exfalso. exact (for_rows_returns body n Hbody _ _ H).
Qed.

Lemma parseHeader_not_NoReturn (text : jsstring) : parseHeader text <> NoReturn.
Proof.
  destruct (parseHeader_outcome text) as [_ [[h ->]| ->]]; discriminate.
Qed.

(** The only way for [parse] not to return. *)
Lemma parse_NoReturn_inv (bytes : list byte) :
  parse convertSRGBToLinear littleEndian bytes = NoReturn ->
  exists h,
    parseHeader (TextDecoder_decode bytes) = Ok h /\
    (data_is h "binary_compressed" = true \/ data_is h "binary" = true) /\
    iterations (points h) = None.
Proof.
  unfold parse. intros H.
  apply bind_NoReturn in H as [H|(h & Hh & H)];
    [exfalso; exact (parseHeader_not_NoReturn _ H)|].
  exists h. split; [exact Hh|].
  apply bind_NoReturn in H as [H|(a1 & _ & H)].
  { exfalso. destruct (data_is h "ascii"); [|discriminate].
    exact (ascii_lines_not_NoReturn _ _ _ H). }
  apply bind_NoReturn in H as [H|(a2 & _ & H)].
  { destruct (data_is h "binary_compressed"); [|discriminate].
    split; [left; reflexivity|]. unfold compressed_body in H.
    destruct (uint32_elements _) as [|c [|d [|]]]; try discriminate H.
    destruct (_ <? _)%nat; [discriminate H|].
    apply bind_NoReturn in H as [H|(buf & _ & H)];
      [exfalso; exact (LZFProofs.decompressLZF_returns _ _ H)|].
    exact (for_points_NoReturn _ _ _ (compressed_row_returns h buf) H). }
  apply bind_NoReturn in H as [H|(a3 & _ & H)]; [|discriminate].
  destruct (data_is h "binary"); [|discriminate].
  split; [right; reflexivity|]. unfold binary_body in H.
  destruct (_ <? _); [discriminate H|].
  apply bind_NoReturn in H as [H|(st & _ & H)]; [|discriminate].
  exact (for_points_NoReturn _ _ _ (binary_row_returns h _) H).
Qed.

(** X20.  [parse] returns a geometry or throws for every input but
    those with a binary encoding whose point count lets the loop
    condition [i < points] of line 298 or 358 hold for good: a count
    above 2^53, where [i] stops growing, or an infinite one. *)
Theorem parse_returns_unless_unbounded (bytes : list byte) :
  parse convertSRGBToLinear littleEndian bytes = NoReturn ->
  exists h,
    parseHeader (TextDecoder_decode bytes) = Ok h /\
    (data_is h "binary_compressed" = true \/ data_is h "binary" = true) /\
    iterations (points h) = None.
Proof. exact (parse_NoReturn_inv bytes). Qed.

Lemma for_rows_unread (h : PCDheader) (view : list byte) (n : nat) :
  has h "x" = false -> has h "rgb" = false -> has h "normal_x" = false ->
  has h "intensity" = false -> has h "label" = false ->
  forall i row a,
    exists row',
      for_rows n i (binary_row convertSRGBToLinear littleEndian h view) (row, a)
      = Ok (row', a).
Proof.
  intros Hx Hc Hn Hi Hl. induction n as [|n IH]; intros i row a; cbn [for_rows].
  - eauto.
  - unfold binary_row at 1. rewrite Hx, Hc, Hn, Hi, Hl. cbn [bind]. apply IH.
Qed.

(** A loop that reads nothing and whose condition never fails. *)
Lemma binary_unread_loops (bytes : list byte) (h : PCDheader) :
  parseHeader (TextDecoder_decode bytes) = Ok h ->
  data_is h "binary" = true ->
  iterations (points h) = None ->
  has h "x" = false -> has h "rgb" = false -> has h "normal_x" = false ->
  has h "intensity" = false -> has h "label" = false ->
  parse convertSRGBToLinear littleEndian bytes = NoReturn.
Proof.
  intros Hh Hb Hit Hx Hc Hn Hi Hl. unfold parse. rewrite Hh. cbn [bind].
  rewrite (data_is_exclusive h "binary" "ascii") by (assumption || discriminate).
  rewrite (data_is_exclusive h "binary" "binary_compressed")
    by (assumption || discriminate).
  rewrite Hb. cbn [bind]. unfold binary_body.
  destruct (headerLen_bounds _ _ Hh) as (_ & Hhi).
  destruct (Z.ltb_spec (Z.of_nat (length bytes)) (headerLen h)); [lia|].
  unfold for_points. rewrite Hit.
  destruct (for_rows_unread h (drop (Z.to_nat (headerLen h)) bytes)
              (S (Z.to_nat (2 ^ 53))) Hx Hc Hn Hi Hl 0%nat (of_Z 0)
              (Arrays [] [] [] [] [])) as [row' ->].
  reflexivity.
Qed.

(** X21.  A binary file whose point count is above 2^53 and whose header
    declares none of the fields the decoder reads keeps [parse] in the
    loop of line 358 for good: no pass reads the buffer, so none
    throws, and the condition never fails. *)
Theorem binary_never_returns (bytes : list byte) (h : PCDheader) :
  parseHeader (TextDecoder_decode bytes) = Ok h ->
  data_is h "binary" = true ->
  iterations (points h) = None ->
  has h "x" = false -> has h "rgb" = false -> has h "normal_x" = false ->
  has h "intensity" = false -> has h "label" = false ->
  parse convertSRGBToLinear littleEndian bytes = NoReturn.
Proof. exact (binary_unread_loops bytes h). Qed.

(** *** No pass at all *)

Lemma iterations_none_needed (p : num) :
  ltb (of_Z 0) p = false -> iterations p = Some 0%nat.
Proof.
  destruct p as [s|[|]| |[|] m e]; try reflexivity; discriminate.
Qed.

(** X22.  Under [binary], when the first test [0 < points] fails (the
    point count is 0, negative or NaN, as after a POINTS value that does
    not start with a digit, or without POINTS, WIDTH and HEIGHT), no
    pass is made and [parse] returns a geometry without attributes,
    whatever the header declares and the payload holds. *)
Theorem binary_without_points (bytes : list byte) (h : PCDheader) :
  parseHeader (TextDecoder_decode bytes) = Ok h ->
  data_is h "binary" = true ->
  ltb (of_Z 0) (points h) = false ->
  parse convertSRGBToLinear littleEndian bytes =
  Ok (Geometry None None None None None false).
Proof.
  intros Hh Hb Hp. unfold parse. rewrite Hh. cbn [bind].
  rewrite (data_is_exclusive h "binary" "ascii") by (assumption || discriminate).
  rewrite (data_is_exclusive h "binary" "binary_compressed")
    by (assumption || discriminate).
  rewrite Hb. cbn [bind]. unfold binary_body.
  destruct (headerLen_bounds _ _ Hh) as (_ & Hhi).
  destruct (Z.ltb_spec (Z.of_nat (length bytes)) (headerLen h)); [lia|].
  unfold for_points. rewrite (iterations_none_needed _ Hp). reflexivity.
Qed.

End Returns.

Lemma parse_returns_unless_unbounded_witness :
  parse (fun c => c) true file_unbounded = NoReturn /\
  exists h,
    parseHeader (TextDecoder_decode file_unbounded) = Ok h /\
    (data_is h "binary_compressed" = true \/ data_is h "binary" = true) /\
    iterations (points h) = None.
Proof.
  assert (Hfile : exists h,
            parseHeader (TextDecoder_decode file_unbounded) = Ok h /\
            data_is h "binary" = true /\ iterations (points h) = None /\
            has h "x" = false /\ has h "rgb" = false /\ has h "normal_x" = false /\
            has h "intensity" = false /\ has h "label" = false).
  { eexists. split; [vm_compute; reflexivity|].
    repeat split; vm_compute; reflexivity. }
  destruct Hfile as (h & Hh & Hb & Hit & Hx & Hc & Hn & Hi & Hl).
  pose proof (binary_unread_loops (fun c => c) true file_unbounded h
                Hh Hb Hit Hx Hc Hn Hi Hl) as H.
  exact (conj H (parse_returns_unless_unbounded (fun c => c) true file_unbounded H)).
Defined.

Lemma binary_never_returns_witness :
  exists h,
    parseHeader (TextDecoder_decode file_unbounded) = Ok h /\
    data_is h "binary" = true /\ iterations (points h) = None /\
    fields h = [lit "a"] /\
    parse (fun c => c) true file_unbounded = NoReturn.
Proof.
  eexists. split; [vm_compute; reflexivity|].
  match goal with
  | |- data_is ?h0 _ = _ /\ _ =>
      assert (Hh : parseHeader (TextDecoder_decode file_unbounded) = Ok h0)
        by (vm_compute; reflexivity);
      assert (Hb : data_is h0 "binary" = true) by (vm_compute; reflexivity);
      assert (Hit : iterations (points h0) = None) by (vm_compute; reflexivity);
      split; [exact Hb|]; split; [exact Hit|]; split; [reflexivity|];
      apply (binary_never_returns (fun c => c) true file_unbounded h0 Hh Hb Hit);
      vm_compute; reflexivity
  end.
Defined.

Lemma binary_without_points_witness :
  exists h,
    parseHeader (TextDecoder_decode file_binary_no_count) = Ok h /\
    data_is h "binary" = true /\
    points h = of_Z 0 /\
    ltb (of_Z 0) (points h) = false /\
    parse (fun c => c) true file_binary_no_count =
    Ok (Geometry None None None None None false).
Proof.
  eexists. split; [vm_compute; reflexivity|].
  match goal with
  | |- data_is ?h0 _ = _ /\ _ =>
      assert (Hh : parseHeader (TextDecoder_decode file_binary_no_count) = Ok h0)
        by (vm_compute; reflexivity);
      assert (Hb : data_is h0 "binary" = true) by (vm_compute; reflexivity);
      assert (Hp : ltb (of_Z 0) (points h0) = false) by (vm_compute; reflexivity);
      split; [exact Hb|]; split; [vm_compute; reflexivity|]; split; [exact Hp|];
      exact (binary_without_points (fun c => c) true file_binary_no_count h0 Hh Hb Hp)
  end.
Defined.

(** ** Arithmetic on integers

    The numbers of a header are integers in practice; below 2^53 the
    sums and products the code forms of them are the integer sums and
    products. *)

Lemma iter_pos_nat {A : Type} (f : A -> A) (p : positive) :
  forall x, SpecFloat.iter_pos f p x = Nat.iter (Pos.to_nat p) f x.
Proof.
  induction p as [p IH|p IH|]; intros x; cbn [SpecFloat.iter_pos].
  - rewrite !IH, Pos2Nat.inj_xI.
    replace (S (2 * Pos.to_nat p)) with (Pos.to_nat p + (Pos.to_nat p + 1))%nat by lia.
    rewrite !Nat.iter_add. reflexivity.
  - rewrite !IH, Pos2Nat.inj_xO.
    replace (2 * Pos.to_nat p)%nat with (Pos.to_nat p + Pos.to_nat p)%nat by lia.
    rewrite Nat.iter_add. reflexivity.
  - reflexivity.
Qed.

(** Shifting out zero bits loses nothing. *)
Lemma shr_exact (m p : positive) :
  SpecFloat.iter_pos shr_1 p
    {| shr_m := Z.pos (Pos.iter xO m p); shr_r := false; shr_s := false |}
  = {| shr_m := Z.pos m; shr_r := false; shr_s := false |}.
Proof.
  rewrite iter_pos_nat, Pos2Nat.inj_iter.
  induction (Pos.to_nat p) as [|k IH]; [reflexivity|].
  rewrite Nat.iter_succ_r. cbn [Nat.iter shr_1 orb]. exact IH.
Qed.

Lemma shr_fexp_canonical (m : positive) (e : Z) :
  Z.pos (digits2_pos m) = 53 -> -1074 <= e ->
  shr_fexp 53 1024 (Z.pos m) e loc_Exact
  = ({| shr_m := Z.pos m; shr_r := false; shr_s := false |}, e).
Proof.
  intros Hd He. unfold shr_fexp, fexp, emin, Zdigits2. rewrite Hd.
  replace (Z.max (53 + e - 53) (3 - 1024 - 53) - e) with 0 by lia. reflexivity.
Qed.

Lemma shr_fexp_exact (m p : positive) (e : Z) :
  Z.pos (digits2_pos m) = 53 -> -1074 <= e ->
  shr_fexp 53 1024 (Z.pos (Pos.iter xO m p)) (e - Z.pos p) loc_Exact
  = ({| shr_m := Z.pos m; shr_r := false; shr_s := false |}, e).
Proof.
  intros Hd He. unfold shr_fexp, fexp, emin, Zdigits2.
  destruct (iter_xO m p) as [_ Hdig]. rewrite Hdig, Pos2Z.inj_add, Hd.
  replace (Z.max (53 + Z.pos p + (e - Z.pos p) - 53) (3 - 1024 - 53) - (e - Z.pos p))
    with (Z.pos p) by lia.
  cbn [shr shr_record_of_loc]. rewrite shr_exact. f_equal. lia.
Qed.

(** Rounding a number that needs no rounding. *)
Lemma binary_round_aux_exact (m : positive) (e s : Z) (M : positive) :
  Z.pos (digits2_pos m) = 53 -> -1074 <= e <= 971 ->
  0 <= s -> Z.pos M = Z.pos m * 2 ^ s ->
  binary_round_aux 53 1024 false (Z.pos M) (e - s) loc_Exact = S754_finite false m e.
Proof.
  intros Hd He Hs HM.
  rewrite <- (binary_round_aux_canonical m e Hd He).
  destruct s as [|p|p]; [| |lia].
  - rewrite Z.pow_0_r, Z.mul_1_r in HM. injection HM as ->.
    rewrite Z.sub_0_r. reflexivity.
  - assert (M = Pos.iter xO m p) as ->.
    { destruct (iter_xO m p) as [Hv _]. apply Pos2Z.inj. rewrite Hv. exact HM. }
    unfold binary_round_aux.
    rewrite (shr_fexp_exact m p e Hd ltac:(lia)).
    rewrite (shr_fexp_canonical m e Hd ltac:(lia)). reflexivity.
Qed.

Lemma digits2_pos_shift (N M : positive) (k : Z) :
  0 <= k -> Z.pos M = Z.pos N * 2 ^ k ->
  Z.pos (digits2_pos M) = Z.pos (digits2_pos N) + k.
Proof.
  intros Hk HM. destruct k as [|p|p]; [| |lia].
  - rewrite Z.pow_0_r, Z.mul_1_r in HM. injection HM as ->. lia.
  - destruct (iter_xO N p) as [Hv Hd].
    assert (M = Pos.iter xO N p) as -> by (apply Pos2Z.inj; rewrite Hv; exact HM).
    rewrite Hd. lia.
Qed.

Lemma pow2_split (a b : Z) : 0 <= a -> 0 <= b -> 2 ^ (a + b) = 2 ^ a * 2 ^ b.
Proof. intros. apply Z.pow_add_r; assumption. Qed.

(** A positive integer below 2^53, given with a binary exponent that is
    not positive, rounds to itself. *)
Lemma binary_round_exact (M N : positive) (E : Z) :
  E <= 0 -> Z.pos M = Z.pos N * 2 ^ (- E) -> Z.pos N < 2 ^ 53 ->
  binary_round 53 1024 false M E = of_Z (Z.pos N).
Proof.
  intros HE HM HN.
  destruct (of_Z_canonical N HN) as (m & e & -> & Hd & He & Hm).
  pose proof (digits2_pos_small N HN) as HdN.
  pose proof (digits2_pos_shift N M (- E) ltac:(lia) HM) as HdM.
  assert (Hpos : 1 <= Z.pos (digits2_pos N)) by lia.
  unfold binary_round, fexp, emin. rewrite HdM.
  replace (Z.max (Z.pos (digits2_pos N) + - E + E - 53) (3 - 1024 - 53)) with e by lia.
  unfold shl_align.
  destruct (e - E) as [|s|d] eqn:Hs.
  - replace E with (e - 0) by lia.
    apply (binary_round_aux_exact m e 0 M Hd ltac:(lia) ltac:(lia)).
    rewrite Z.pow_0_r, Z.mul_1_r, HM, Hm. do 2 f_equal. lia.
  - replace E with (e - Z.pos s) by lia.
    apply (binary_round_aux_exact m e (Z.pos s) M Hd ltac:(lia) ltac:(lia)).
    rewrite HM, Hm, <- Z.mul_assoc, <- pow2_split by lia. do 2 f_equal. lia.
  - assert (Pos.iter xO M d = m) as ->.
    { destruct (iter_xO M d) as [Hv _]. apply Pos2Z.inj.
      rewrite Hv, HM, Hm, <- Z.mul_assoc, <- pow2_split by lia. do 2 f_equal. lia. }
    apply binary_round_aux_canonical; [exact Hd|lia].
Qed.

Lemma shl_align_value (m : positive) (e ez : Z) :
  ez <= e -> Z.pos (fst (shl_align m e ez)) = Z.pos m * 2 ^ (e - ez).
Proof.
  intros H. unfold shl_align. destruct (ez - e) as [|p|d] eqn:Hd; cbn [fst].
  - replace (e - ez) with 0 by lia. rewrite Z.pow_0_r. lia.
  - lia.
  - destruct (iter_xO m d) as [Hv _]. rewrite Hv. do 2 f_equal. lia.
Qed.

(** Sums of integers are exact below 2^53. *)
Lemma add_of_Z (a b : Z) :
  0 <= a -> 0 <= b -> a + b < 2 ^ 53 -> add (of_Z a) (of_Z b) = of_Z (a + b).
Proof.
  intros Ha Hb Hab.
  destruct a as [|a|a]; [|destruct b as [|b|b]|]; try lia.
  - destruct b as [|b|b]; [reflexivity| |lia].
    destruct (of_Z_canonical b ltac:(lia)) as (m & e & Hb' & _).
    change (0 + Z.pos b) with (Z.pos b). rewrite Hb'. reflexivity.
  - destruct (of_Z_canonical a ltac:(lia)) as (m & e & Ha' & _).
    rewrite Z.add_0_r, Ha'. reflexivity.
  - pose proof (digits2_pos_small a ltac:(lia)). pose proof (digits2_pos_small b ltac:(lia)).
    destruct (of_Z_canonical a ltac:(lia)) as (ma & ea & Ha' & Hda & Hea & Hma).
    destruct (of_Z_canonical b ltac:(lia)) as (mb & eb & Hb' & Hdb & Heb & Hmb).
    rewrite Ha', Hb'. unfold add, SFadd. cbn [cond_Zopp]. cbv zeta.
    set (ez := Z.min ea eb).
    pose proof (shl_align_value ma ea ez ltac:(lia)) as H1.
    pose proof (shl_align_value mb eb ez ltac:(lia)) as H2.
    change (Z.pos (fst (shl_align ma ea ez)) + Z.pos (fst (shl_align mb eb ez)))
      with (Z.pos (fst (shl_align ma ea ez) + fst (shl_align mb eb ez))).
    cbn [binary_normalize].
    change (Z.pos a + Z.pos b) with (Z.pos (a + b)) in *.
    apply binary_round_exact; [lia| |exact Hab].
    rewrite Pos2Z.inj_add, H1, H2, Hma, Hmb, (Pos2Z.inj_add a b).
    rewrite <- !Z.mul_assoc, <- !pow2_split by lia.
    replace (- ea + (ea - ez)) with (- ez) by lia.
    replace (- eb + (eb - ez)) with (- ez) by lia. lia.
Qed.

(** Products of integers are exact below 2^53. *)
Lemma mul_of_Z (a b : Z) :
  0 <= a < 2 ^ 53 -> 0 <= b < 2 ^ 53 -> a * b < 2 ^ 53 ->
  mul (of_Z a) (of_Z b) = of_Z (a * b).
Proof.
  intros Ha Hb Hab.
  destruct a as [|a|a]; [|destruct b as [|b|b]|]; try lia.
  - destruct b as [|b|b]; [reflexivity| |lia].
    destruct (of_Z_canonical b ltac:(lia)) as (m & e & Hb' & _).
    change (0 * Z.pos b) with 0. rewrite Hb'. reflexivity.
  - destruct (of_Z_canonical a ltac:(lia)) as (m & e & Ha' & _).
    rewrite Z.mul_0_r, Ha'. reflexivity.
  - assert (Ha53 : Z.pos a < 2 ^ 53) by lia. assert (Hb53 : Z.pos b < 2 ^ 53) by lia.
    destruct (of_Z_canonical a Ha53) as (ma & ea & Ha' & Hda & Hea & Hma).
    destruct (of_Z_canonical b Hb53) as (mb & eb & Hb' & Hdb & Heb & Hmb).
    change (Z.pos a * Z.pos b) with (Z.pos (a * b)) in *.
    destruct (of_Z_canonical (a * b) Hab) as (m & e & Hab' & Hd & He & Hm).
    rewrite Ha', Hb', Hab'. unfold mul, SFmul. cbn [xorb].
    pose proof (digits2_pos_small a Ha53). pose proof (digits2_pos_small b Hb53).
    pose proof (digits2_pos_small (a * b) Hab).
    pose proof (digits2_pos_bounds a) as [La _].
    pose proof (digits2_pos_bounds b) as [Lb _].
    pose proof (digits2_pos_bounds (a * b)) as [_ Uab].
    assert (Hdig : Z.pos (digits2_pos a) + Z.pos (digits2_pos b) - 1
                   <= Z.pos (digits2_pos (a * b))).
    { destruct (Z.le_gt_cases (Z.pos (digits2_pos a) + Z.pos (digits2_pos b) - 1)
                  (Z.pos (digits2_pos (a * b)))) as [Hle|Hgt]; [exact Hle|exfalso].
      assert (2 ^ Z.pos (digits2_pos (a * b))
              <= 2 ^ (Z.pos (digits2_pos a) + Z.pos (digits2_pos b) - 2))
        by (apply Z.pow_le_mono_r; lia).
      assert (2 ^ (Z.pos (digits2_pos a) + Z.pos (digits2_pos b) - 2)
              = 2 ^ (Z.pos (digits2_pos a) - 1) * 2 ^ (Z.pos (digits2_pos b) - 1)).
      { rewrite <- pow2_split by lia. f_equal. lia. }
      rewrite Pos2Z.inj_mul in Uab. nia. }
    replace (ea + eb) with (e - (e - (ea + eb))) by lia.
    apply (binary_round_aux_exact m e (e - (ea + eb)) (ma * mb) Hd ltac:(lia) ltac:(lia)).
    rewrite Pos2Z.inj_mul, Hma, Hmb, Hm, Pos2Z.inj_mul.
    rewrite <- (Z.mul_assoc (Z.pos a * Z.pos b)), <- pow2_split by lia.
    replace (- e + (e - (ea + eb))) with (- ea + - eb) by lia.
    rewrite pow2_split by lia. ring.
Qed.

Lemma to_index_of_Z (n : Z) :
  0 <= n < 2 ^ 53 -> to_index (of_Z n) = Ok (Z.to_nat n).
Proof.
  intros Hn. destruct n as [|n|n]; [reflexivity| |lia].
  pose proof (digits2_pos_small n ltac:(lia)).
  destruct (of_Z_canonical n ltac:(lia)) as (m & e & -> & Hd & He & Hm).
  unfold to_index, truncate.
  assert (Hv : (if 0 <=? e then Z.pos m * 2 ^ e else Z.pos m / 2 ^ (- e)) = Z.pos n).
  { destruct (Z.leb_spec 0 e).
    - assert (e = 0) as -> by lia. change (- 0) with 0 in Hm.
      rewrite Z.pow_0_r in *. lia.
    - rewrite Hm. apply Z.div_mul. apply Z.pow_nonzero; lia. }
  rewrite Hv.
  destruct (Z.ltb_spec (Z.pos n) 0); [lia|].
  destruct (Z.ltb_spec (2 ^ 53 - 1) (Z.pos n)); [lia|]. reflexivity.
Qed.

(** ** Integer offsets and byte addresses *)

Lemma integer_sum_mono (size count : list Z) (k : nat) :
  Forall small size -> Forall small count ->
  0 <= integer_sum size count k <= integer_sum size count (S k).
Proof.
  intros Hs Hc. induction k as [|k IH].
  - cbn [integer_sum].
    assert (0 <= default 0 (size !! 0%nat) * default 0 (count !! 0%nat)); [|lia].
    apply Z.mul_nonneg_nonneg.
    + destruct (size !! 0%nat) eqn:E; [|cbn; lia].
      apply (Forall_lookup_1 _ _ _ _ Hs) in E. unfold small in E. cbn. lia.
    + destruct (count !! 0%nat) eqn:E; [|cbn; lia].
      apply (Forall_lookup_1 _ _ _ _ Hc) in E. unfold small in E. cbn. lia.
  - cbn [integer_sum] in *.
    assert (0 <= default 0 (size !! S k) * default 0 (count !! S k)); [|lia].
    apply Z.mul_nonneg_nonneg.
    + destruct (size !! S k) eqn:E; [|cbn; lia].
      apply (Forall_lookup_1 _ _ _ _ Hs) in E. unfold small in E. cbn. lia.
    + destruct (count !! S k) eqn:E; [|cbn; lia].
      apply (Forall_lookup_1 _ _ _ _ Hc) in E. unfold small in E. cbn. lia.
Qed.

Lemma integer_sum_le (size count : list Z) (k k' : nat) :
  Forall small size -> Forall small count -> (k <= k')%nat ->
  0 <= integer_sum size count k <= integer_sum size count k'.
Proof.
  intros Hs Hc Hk. induction Hk as [|k' _ IH].
  - pose proof (integer_sum_mono size count k Hs Hc). lia.
  - pose proof (integer_sum_mono size count k' Hs Hc). lia.
Qed.

Lemma item_of_Z (l : list Z) (k : nat) (z : Z) :
  l !! k = Some z -> item (of_Z <$> l) k = of_Z z.
Proof. intros H. unfold item. rewrite list_lookup_fmap, H. reflexivity. Qed.

(** The sums of the offset loop, for integer sizes and counts. *)
Lemma cumulative_integer (size count : list Z) (k : nat) :
  Forall small size -> Forall small count ->
  (k <= length size)%nat -> (k <= length count)%nat ->
  integer_sum size count k < 2 ^ 53 ->
  cumulative (of_Z <$> size) (of_Z <$> count) k = of_Z (integer_sum size count k).
Proof.
  intros Hs Hc. induction k as [|k IH]; intros Hks Hkc Hsum; [reflexivity|].
  cbn [cumulative integer_sum] in *.
  destruct (lookup_lt_is_Some_2 size k ltac:(lia)) as [s Es].
  destruct (lookup_lt_is_Some_2 count k ltac:(lia)) as [c Ec].
  rewrite Es, Ec in *. cbn [default from_option id] in *.
  pose proof (Forall_lookup_1 _ _ _ _ Hs Es) as Hss.
  pose proof (Forall_lookup_1 _ _ _ _ Hc Ec) as Hcc.
  unfold small in Hss, Hcc.
  pose proof (integer_sum_le size count 0 k Hs Hc ltac:(lia)) as [_ H0].
  cbn [integer_sum] in H0.
  assert (0 <= s * c) by (apply Z.mul_nonneg_nonneg; lia).
  rewrite IH by lia.
  rewrite (item_of_Z size k s Es), (item_of_Z count k c Ec).
  rewrite mul_of_Z by lia. apply add_of_Z; lia.
Qed.

Lemma header_offsets_integer (text : jsstring) (h : PCDheader) (sizes counts : list Z) :
  parseHeader text = Ok h ->
  data h <> lit "ascii" ->
  size h = Some (of_Z <$> sizes) ->
  count h = of_Z <$> counts ->
  Forall small sizes -> Forall small counts ->
  (length (fields h) <= length sizes)%nat ->
  (length (fields h) <= length counts)%nat ->
  integer_sum sizes counts (length (fields h)) < 2 ^ 53 ->
  rowSize h = of_Z (integer_sum sizes counts (length (fields h))) /\
  forall i f, last_occurrence (fields h) i f -> f <> lit "__proto__" ->
              offset h !! f = Some (of_Z (integer_sum sizes counts i)).
Proof.
  intros Hh Hd Hsz Hcnt Hs Hc Hls Hlc Hsum.
  destruct (header_offsets text h Hh) as (_ & Hbin & _).
  destruct (Hbin Hd) as [Hrow Hoff]. rewrite Hsz, Hcnt in Hrow, Hoff.
  cbn [default from_option id] in Hrow, Hoff. split.
  - rewrite Hrow. apply cumulative_integer; assumption.
  - intros i f Hlast Hf. rewrite (Hoff i f Hlast Hf). f_equal.
    destruct Hlast as [Hi _]. apply lookup_lt_Some in Hi.
    pose proof (integer_sum_le sizes counts i (length (fields h)) Hs Hc ltac:(lia)).
    apply cumulative_integer; try assumption; lia.
Qed.

(** X23.  When the sizes and counts of a header that is not ascii are
    integers (as a header written in digits gives them), at least one
    per field, and the row size is below 2^53: the row size and the
    offsets are the integer sums of [size * count], without rounding. *)
Theorem offsets_integer (text : jsstring) (h : PCDheader) (sizes counts : list Z) :
  parseHeader text = Ok h ->
  data h <> lit "ascii" ->
  size h = Some (of_Z <$> sizes) ->
  count h = of_Z <$> counts ->
  Forall small sizes -> Forall small counts ->
  (length (fields h) <= length sizes)%nat ->
  (length (fields h) <= length counts)%nat ->
  integer_sum sizes counts (length (fields h)) < 2 ^ 53 ->
  rowSize h = of_Z (integer_sum sizes counts (length (fields h))) /\
  forall i f, last_occurrence (fields h) i f -> f <> lit "__proto__" ->
              offset h !! f = Some (of_Z (integer_sum sizes counts i)).
Proof. exact (header_offsets_integer text h sizes counts). Qed.

(** *** binary *)

Lemma row_start_integer (h : PCDheader) (R : Z) (i : nat) :
  rowSize h = of_Z R -> 0 <= R -> Z.of_nat i * R < 2 ^ 53 ->
  row_start h i = of_Z (Z.of_nat i * R).
Proof.
  intros HR H0. induction i as [|i IH]; intros Hi; [reflexivity|].
  cbn [row_start]. rewrite IH, HR by nia. rewrite add_of_Z by nia.
  f_equal. lia.
Qed.

Lemma getFloat32_at (view : list byte) (k : Z) (littleEndian : bool) (x : num) :
  0 <= k < 2 ^ 53 ->
  getFloat32 view (of_Z k) littleEndian = Ok x ->
  x = float32_at littleEndian view k.
Proof.
  intros Hk. unfold getFloat32, view_bytes. rewrite (to_index_of_Z k Hk).
  cbn [bind]. destruct (_ <? _)%nat; cbn [bind]; [discriminate|].
  intros H. apply Ok_inj in H. subst x. unfold float32_at.
  destruct littleEndian; reflexivity.
Qed.

Lemma float32_at_drop (littleEndian : bool) (buf : list byte) (start k : Z) :
  0 <= start -> 0 <= k ->
  float32_at littleEndian (drop (Z.to_nat start) buf) k
  = float32_at littleEndian buf (start + k).
Proof.
  intros Hs Hk. unfold float32_at. rewrite drop_drop.
  replace (Z.to_nat start + Z.to_nat k)%nat with (Z.to_nat (start + k)) by lia.
  reflexivity.
Qed.

Lemma off_declared (h : PCDheader) (name : string) (o : num) :
  offset h !! lit name = Some o -> off h name = o /\ has h name = true.
Proof.
  intros H. unfold off, has. rewrite H. split; [reflexivity|].
  apply bool_decide_eq_true. eauto.
Qed.

(** X24.  Under [binary], for a header whose row size and offsets of
    [x], [y] and [z] are integers: the coordinates of point [i] are the
    binary32 numbers stored in the file at the byte addresses
    [headerLen + i * rowSize + offset], in the byte order of
    [littleEndian]. *)
Theorem binary_position_bytes
    (convertSRGBToLinear : num * num * num -> num * num * num)
    (littleEndian : bool) (bytes : list byte) (h : PCDheader) (g : geometry)
    (R ox oy oz : Z) (n : nat) :
  parseHeader (TextDecoder_decode bytes) = Ok h ->
  data_is h "binary" = true ->
  parse convertSRGBToLinear littleEndian bytes = Ok g ->
  rowSize h = of_Z R ->
  offset h !! lit "x" = Some (of_Z ox) ->
  offset h !! lit "y" = Some (of_Z oy) ->
  offset h !! lit "z" = Some (of_Z oz) ->
  0 <= R -> 0 <= ox -> 0 <= oy -> 0 <= oz ->
  iterations (points h) = Some n ->
  Z.of_nat n * R + Z.max ox (Z.max oy oz) < 2 ^ 53 ->
  forall i, (i < n)%nat ->
    exists l,
      attr_position g = Some l /\
      l !! (3 * i)%nat
        = Some (float32_at littleEndian bytes (headerLen h + Z.of_nat i * R + ox)) /\
      l !! (3 * i + 1)%nat
        = Some (float32_at littleEndian bytes (headerLen h + Z.of_nat i * R + oy)) /\
      l !! (3 * i + 2)%nat
        = Some (float32_at littleEndian bytes (headerLen h + Z.of_nat i * R + oz)).
Proof.
  intros Hh Hb Hg HR Hx Hy Hz HR0 Hx0 Hy0 Hz0 Hn Hbound i Hi.
  destruct (binary_rows_values convertSRGBToLinear littleEndian bytes h g Hh Hb Hg)
    as (n' & Hn' & Hrows).
  assert (n' = n) as -> by congruence.
  destruct (Hrows i Hi) as (r & (Hp & _) & Hgp & _).
  destruct (off_declared h "x" _ Hx) as [Hox Hhas].
  destruct (off_declared h "y" _ Hy) as [Hoy _].
  destruct (off_declared h "z" _ Hz) as [Hoz _].
  rewrite Hhas, Hox, Hoy, Hoz in Hp.
  destruct Hp as (x & y & z & Hp & Gx & Gy & Gz).
  assert (HiR : Z.of_nat i * R <= Z.of_nat n * R) by nia.
  assert (HiR0 : 0 <= Z.of_nat i * R) by nia.
  rewrite (row_start_integer h R i HR HR0 ltac:(lia)) in Gx, Gy, Gz.
  rewrite add_of_Z in Gx, Gy, Gz by lia.
  apply getFloat32_at in Gx, Gy, Gz; try lia.
  destruct (headerLen_bounds _ _ Hh) as ([Hlo _] & _).
  rewrite float32_at_drop in Gx, Gy, Gz by lia.
  rewrite Hp in Hgp. apply group_at_lookup in Hgp as (l & Hl & Hlook); [|discriminate].
  cbn [length] in Hlook.
  exists l. split; [exact Hl|]. rewrite !Z.add_assoc in *. repeat split.
  - rewrite <- Gx. replace (3 * i)%nat with (i * 3 + 0)%nat by lia.
    apply Hlook. reflexivity.
  - rewrite <- Gy. replace (3 * i + 1)%nat with (i * 3 + 1)%nat by lia.
    apply Hlook. reflexivity.
  - rewrite <- Gz. replace (3 * i + 2)%nat with (i * 3 + 2)%nat by lia.
    apply Hlook. reflexivity.
Qed.

(** *** binary_compressed *)

Lemma compressed_rows_values
    (convertSRGBToLinear : num * num * num -> num * num * num)
    (littleEndian : bool) (bytes : list byte) (h : PCDheader) (g : geometry) :
  parseHeader (TextDecoder_decode bytes) = Ok h ->
  data_is h "binary_compressed" = true ->
  parse convertSRGBToLinear littleEndian bytes = Ok g ->
  exists (compressedSize decompressedSize : Z) (buf : list byte) (n : nat),
    uint32_elements (slice bytes (headerLen h) (Some (headerLen h + 8))) =
      [compressedSize; decompressedSize] /\
    LZF.decompressLZF
      (take (Z.to_nat compressedSize) (drop (Z.to_nat (headerLen h + 8)) bytes))
      (Z.to_nat decompressedSize) = Ok buf /\
    iterations (points h) = Some n /\
    forall i, (i < n)%nat ->
      exists r,
        row_pushes convertSRGBToLinear littleEndian h buf i r /\
        group_at (attr_position g) i (position r) /\
        group_at (attr_normal g) i (normal r) /\
        group_at (attr_color g) i (color r) /\
        group_at (attr_intensity g) i (intensity r) /\
        group_at (attr_label g) i (label r).
Proof.
  intros Hh Hcomp. unfold parse. rewrite Hh. cbn [bind].
  rewrite (data_is_exclusive h "binary_compressed" "ascii")
    by (assumption || discriminate).
  rewrite Hcomp.
  rewrite (data_is_exclusive h "binary_compressed" "binary")
    by (assumption || discriminate).
  cbn [bind].
  destruct (compressed_body _ _ h bytes _) as [a| |] eqn:E; cbn [bind];
    try discriminate.
  intros [= <-]. unfold compressed_body in E.
  destruct (uint32_elements _) as [|c [|d [|]]]; try discriminate E.
  destruct (_ <? _)%nat; [discriminate E|].
  destruct (LZF.decompressLZF _ _) as [buf| |] eqn:Hdec; cbn [bind] in E;
    try discriminate E.
  apply for_points_Ok in E as (n & Hn & E).
  pose proof (iterations_bound _ _ Hn) as Hb.
  apply for_rows_compressed_values in E as (rows & Hlen & Hrows & ->); [|cbn; lia].
  exists c, d, buf, n.
  split; [reflexivity|]. split; [exact Hdec|]. split; [exact Hn|].
  intros i Hi.
  destruct (rows !! i) as [r|] eqn:Hr.
  2:{ apply lookup_ge_None in Hr. lia. }
  exists r. split; [apply (Hrows i r Hr)|].
  rewrite append_empty_arrays.
  apply (rows_in_geometry h rows i r); [|exact Hr].
  intros j r' Hj.
  exact (row_pushes_lengths _ _ h buf j r' (Hrows j r' Hj)).
Qed.

Lemma column_address_integer (h : PCDheader) (name : string) (N o s : Z) (i : nat) :
  points h = of_Z N ->
  offset h !! lit name = Some (of_Z o) ->
  indexOf (fields h) (lit name) ≫= (default [] (size h) !!.) = Some (of_Z s) ->
  small N -> small o -> small s ->
  Z.of_nat i < N -> N * o + s * N < 2 ^ 53 ->
  column_address_of h name i = of_Z (N * o + s * Z.of_nat i).
Proof.
  unfold small. intros HN Ho Hs HN0 Ho0 Hs0 Hi Hb.
  unfold column_address_of. destruct (off_declared h name _ Ho) as [-> _].
  rewrite HN, Hs. cbn [undefined_to_num default from_option id].
  assert (0 <= N * o) by nia. assert (0 <= s * Z.of_nat i <= s * N) by nia.
  rewrite !mul_of_Z by lia. apply add_of_Z; lia.
Qed.

(** X25.  Under [binary_compressed], for a header whose point count,
    sizes and offsets of [x], [y] and [z] are integers: the coordinates
    of point [i] are the binary32 numbers stored in the decompressed
    buffer at the byte addresses [points * offset + size * i], each
    field in a block of its own. *)
Theorem compressed_position_bytes
    (convertSRGBToLinear : num * num * num -> num * num * num)
    (littleEndian : bool) (bytes : list byte) (h : PCDheader) (g : geometry)
    (N ox oy oz sx sy sz : Z) :
  parseHeader (TextDecoder_decode bytes) = Ok h ->
  data_is h "binary_compressed" = true ->
  parse convertSRGBToLinear littleEndian bytes = Ok g ->
  points h = of_Z N ->
  offset h !! lit "x" = Some (of_Z ox) ->
  offset h !! lit "y" = Some (of_Z oy) ->
  offset h !! lit "z" = Some (of_Z oz) ->
  indexOf (fields h) (lit "x") ≫= (default [] (size h) !!.) = Some (of_Z sx) ->
  indexOf (fields h) (lit "y") ≫= (default [] (size h) !!.) = Some (of_Z sy) ->
  indexOf (fields h) (lit "z") ≫= (default [] (size h) !!.) = Some (of_Z sz) ->
  small N -> small ox -> small oy -> small oz -> small sx -> small sy -> small sz ->
  N * ox + sx * N < 2 ^ 53 -> N * oy + sy * N < 2 ^ 53 -> N * oz + sz * N < 2 ^ 53 ->
  exists (compressedSize decompressedSize : Z) (buf : list byte),
    uint32_elements (slice bytes (headerLen h) (Some (headerLen h + 8))) =
      [compressedSize; decompressedSize] /\
    LZF.decompressLZF
      (take (Z.to_nat compressedSize) (drop (Z.to_nat (headerLen h + 8)) bytes))
      (Z.to_nat decompressedSize) = Ok buf /\
    forall i, Z.of_nat i < N ->
      exists l,
        attr_position g = Some l /\
        l !! (3 * i)%nat
          = Some (float32_at littleEndian buf (N * ox + sx * Z.of_nat i)) /\
        l !! (3 * i + 1)%nat
          = Some (float32_at littleEndian buf (N * oy + sy * Z.of_nat i)) /\
        l !! (3 * i + 2)%nat
          = Some (float32_at littleEndian buf (N * oz + sz * Z.of_nat i)).
Proof.
  intros Hh Hc Hg HN Hx Hy Hz Hsx Hsy Hsz SN Sx Sy Sz Ssx Ssy Ssz Bx By Bz.
  destruct (compressed_rows_values convertSRGBToLinear littleEndian bytes h g Hh Hc Hg)
    as (c & d & buf & n & Hsizes & Hdec & Hn & Hrows).
  exists c, d, buf. split; [exact Hsizes|]. split; [exact Hdec|].
  intros i Hi.
  assert (n = Z.to_nat N) as ->.
  { rewrite HN, iterations_of_Z in Hn by (unfold small in SN; lia). congruence. }
  destruct (Hrows i ltac:(lia)) as (r & (Hp & _) & Hgp & _).
  unfold float_group in Hp.
  destruct (off_declared h "x" _ Hx) as [_ Hhas]. rewrite Hhas in Hp.
  destruct Hp as (x & y & z & Hp & Gx & Gy & Gz).
  rewrite (column_address_integer h "x" N ox sx i HN Hx Hsx SN Sx Ssx Hi Bx) in Gx.
  rewrite (column_address_integer h "y" N oy sy i HN Hy Hsy SN Sy Ssy Hi By) in Gy.
  rewrite (column_address_integer h "z" N oz sz i HN Hz Hsz SN Sz Ssz Hi Bz) in Gz.
  unfold small in *.
  apply getFloat32_at in Gx, Gy, Gz; try nia.
  rewrite Hp in Hgp. apply group_at_lookup in Hgp as (l & Hl & Hlook); [|discriminate].
  cbn [length] in Hlook.
  exists l. split; [exact Hl|]. repeat split.
  - rewrite <- Gx. replace (3 * i)%nat with (i * 3 + 0)%nat by lia.
    apply Hlook. reflexivity.
  - rewrite <- Gy. replace (3 * i + 1)%nat with (i * 3 + 1)%nat by lia.
    apply Hlook. reflexivity.
  - rewrite <- Gz. replace (3 * i + 2)%nat with (i * 3 + 2)%nat by lia.
    apply Hlook. reflexivity.
Qed.

Example parse_binary_xyz :
  parse (fun c => c) true file_binary_xyz =
  Ok (Geometry (Some (of_Z <$> [1; 2; 3; 4; 5; 6])) None None None None false).
Proof. vm_compute. reflexivity. Qed.

Example parse_compressed_xyz :
  parse (fun c => c) true file_compressed_xyz =
  Ok (Geometry (Some (of_Z <$> [1; 2; 3; 4; 5; 6])) None None None None false).
Proof. vm_compute. reflexivity. Qed.

Ltac small_side :=
  lazymatch goal with
  | |- Forall _ _ => repeat constructor; unfold small; lia
  | |- small _ => unfold small; lia
  | |- _ <> _ => discriminate
  | |- (_ <= _)%nat => vm_compute; lia
  | |- (_ < _)%nat => vm_compute; lia
  | |- _ < _ => first [lia | vm_compute; reflexivity]
  | |- _ <= _ => lia
  | |- _ = _ => vm_compute; reflexivity
  end.

Lemma offsets_integer_witness :
  exists h,
    parseHeader (TextDecoder_decode file_binary_xyz) = Ok h /\
    integer_sum [4; 4; 4] [1; 1; 1] (length (fields h)) = 12 /\
    rowSize h = of_Z (integer_sum [4; 4; 4] [1; 1; 1] (length (fields h))) /\
    forall i f, last_occurrence (fields h) i f -> f <> lit "__proto__" ->
                offset h !! f = Some (of_Z (integer_sum [4; 4; 4] [1; 1; 1] i)).
Proof.
  eexists. split; [vm_compute; reflexivity|]. split; [reflexivity|].
  apply (offsets_integer (TextDecoder_decode file_binary_xyz)); small_side.
Defined.

Lemma binary_position_bytes_witness :
  exists h g,
    parseHeader (TextDecoder_decode file_binary_xyz) = Ok h /\
    parse (fun c => c) true file_binary_xyz = Ok g /\
    headerLen h = 68 /\
    float32_at true file_binary_xyz (68 + 1 * 12 + 4) = of_Z 5 /\
    forall i, (i < 2)%nat ->
      exists l,
        attr_position g = Some l /\
        l !! (3 * i)%nat
          = Some (float32_at true file_binary_xyz (headerLen h + Z.of_nat i * 12 + 0)) /\
        l !! (3 * i + 1)%nat
          = Some (float32_at true file_binary_xyz (headerLen h + Z.of_nat i * 12 + 4)) /\
        l !! (3 * i + 2)%nat
          = Some (float32_at true file_binary_xyz (headerLen h + Z.of_nat i * 12 + 8)).
Proof.
  eexists. eexists. split; [vm_compute; reflexivity|].
  split; [vm_compute; reflexivity|]. split; [vm_compute; reflexivity|].
  split; [vm_compute; reflexivity|].
  apply (binary_position_bytes (fun c => c) true file_binary_xyz _ _ 12 0 4 8 2);
    small_side.
Defined.

Lemma compressed_position_bytes_witness :
  exists h g,
    parseHeader (TextDecoder_decode file_compressed_xyz) = Ok h /\
    parse (fun c => c) true file_compressed_xyz = Ok g /\
    exists (compressedSize decompressedSize : Z) (buf : list byte),
      uint32_elements (slice file_compressed_xyz (headerLen h) (Some (headerLen h + 8)))
        = [compressedSize; decompressedSize] /\
      LZF.decompressLZF
        (take (Z.to_nat compressedSize)
              (drop (Z.to_nat (headerLen h + 8)) file_compressed_xyz))
        (Z.to_nat decompressedSize) = Ok buf /\
      forall i, Z.of_nat i < 2 ->
        exists l,
          attr_position g = Some l /\
          l !! (3 * i)%nat = Some (float32_at true buf (2 * 0 + 4 * Z.of_nat i)) /\
          l !! (3 * i + 1)%nat = Some (float32_at true buf (2 * 4 + 4 * Z.of_nat i)) /\
          l !! (3 * i + 2)%nat = Some (float32_at true buf (2 * 8 + 4 * Z.of_nat i)).
Proof.
  eexists. eexists. split; [vm_compute; reflexivity|].
  split; [vm_compute; reflexivity|].
  apply (compressed_position_bytes (fun c => c) true file_compressed_xyz _ _
           2 0 4 8 4 4 4); small_side.
Defined.

(** ** A binary payload that ends early *)

Lemma bind_Throw {A B : Type} (r : res A) (k : A -> res B) (e : exn) :
  bind r k = Throw e -> r = Throw e \/ exists a, r = Ok a /\ k a = Throw e.
Proof.
  destruct r as [a|e'|]; cbn [bind]; intros H;
    [right; exists a; auto | left; congruence | discriminate].
Qed.

Lemma to_index_throws (n : num) (e : exn) : to_index n = Throw e -> e = RangeError.
Proof.
  unfold to_index. destruct n; try congruence;
    destruct (truncate _); try congruence; destruct (_ || _); congruence.
Qed.

Lemma view_bytes_throws (view : list byte) (o : num) (k : nat) (le : bool) (e : exn) :
  view_bytes view o k le = Throw e -> e = RangeError.
Proof.
  unfold view_bytes. intros H. apply bind_Throw in H as [H|(i & _ & H)].
  - exact (to_index_throws _ _ H).
  - destruct (_ <? _)%nat; congruence.
Qed.

Lemma getFloat32_throws (view : list byte) (o : num) (le : bool) (e : exn) :
  getFloat32 view o le = Throw e -> e = RangeError.
Proof.
  unfold getFloat32. intros H. apply bind_Throw in H as [H|(i & _ & H)];
    [exact (view_bytes_throws _ _ _ _ _ H) | discriminate].
Qed.

Lemma getInt32_throws (view : list byte) (o : num) (le : bool) (e : exn) :
  getInt32 view o le = Throw e -> e = RangeError.
Proof.
  unfold getInt32. intros H. apply bind_Throw in H as [H|(i & _ & H)];
    [exact (view_bytes_throws _ _ _ _ _ H) | discriminate].
Qed.

Lemma getUint8_throws (view : list byte) (o : num) (e : exn) :
  getUint8 view o = Throw e -> e = RangeError.
Proof.
  unfold getUint8. intros H. apply bind_Throw in H as [H|(i & _ & H)];
    [exact (view_bytes_throws _ _ _ _ _ H) | discriminate].
Qed.

Ltac only_range H :=
  repeat match type of H with
         | bind ?r _ = Throw _ =>
             let a := fresh "a" in
             apply bind_Throw in H as [H|(a & _ & H)];
             [ first [ exact (getFloat32_throws _ _ _ _ H)
                     | exact (getInt32_throws _ _ _ _ H)
                     | exact (getUint8_throws _ _ _ H)
                     | idtac ] | ]
         | (if ?b then _ else _) = Throw _ => destruct b
         | Ok _ = Throw _ => discriminate H
         | (let (_, _) := ?p in _) = Throw _ => destruct p
         end.

Section Truncated.

Variable convertSRGBToLinear : num * num * num -> num * num * num.
Variable littleEndian : bool.

Lemma binary_row_throws (h : PCDheader) (view : list byte) (i : num)
    (st : num * arrays) (e : exn) :
  binary_row convertSRGBToLinear littleEndian h view i st = Throw e -> e = RangeError.
Proof. unfold binary_row. intros H. only_range H. Qed.

Lemma for_rows_throws {St : Type} (body : num -> St -> res St) (n : nat) :
  (forall i s e, body i s = Throw e -> e = RangeError) ->
  forall i s e, for_rows n i body s = Throw e -> e = RangeError.
Proof.
  intros Hbody. induction n as [|n IH]; intros i s e; cbn [for_rows]; [discriminate|].
  intros H. apply bind_Throw in H as [H|(s1 & _ & H)].
  - exact (Hbody _ _ _ H).
  - exact (IH _ _ _ H).
Qed.

Lemma parse_binary_throws (bytes : list byte) (h : PCDheader) (e : exn) :
  parseHeader (TextDecoder_decode bytes) = Ok h ->
  data_is h "binary" = true ->
  parse convertSRGBToLinear littleEndian bytes = Throw e -> e = RangeError.
Proof.
  intros Hh Hb. unfold parse. rewrite Hh. cbn [bind].
  rewrite (data_is_exclusive h "binary" "ascii") by (assumption || discriminate).
  rewrite (data_is_exclusive h "binary" "binary_compressed")
    by (assumption || discriminate).
  rewrite Hb. cbn [bind]. intros H.
  apply bind_Throw in H as [H|(a & _ & H)]; [|discriminate].
  unfold binary_body in H. destruct (_ <? _); [congruence|].
  apply bind_Throw in H as [H|(st & _ & H)]; [|discriminate].
  unfold for_points in H. destruct (iterations (points h)) as [n|].
  - exact (for_rows_throws _ n (binary_row_throws h _) _ _ _ H).
  - apply bind_Throw in H as [H|(st & _ & H)]; [|discriminate].
    exact (for_rows_throws _ _ (binary_row_throws h _) _ _ _ H).
Qed.

Lemma getFloat32_inside (view : list byte) (k : Z) (x : num) :
  0 <= k < 2 ^ 53 ->
  getFloat32 view (of_Z k) littleEndian = Ok x ->
  (Z.to_nat k + 4 <= length view)%nat.
Proof.
  intros Hk. unfold getFloat32, view_bytes. rewrite (to_index_of_Z k Hk).
  cbn [bind]. destruct (Nat.ltb_spec (length view) (Z.to_nat k + 4));
    cbn [bind]; [discriminate|]. intros _. lia.
Qed.

(** X26.  Under [binary], for a header whose row size and offset of [x]
    are integers: when the file ends before the four bytes of [x] of
    one of its points, [parse] throws a [RangeError]; no geometry with
    the points read so far is returned. *)
Theorem binary_payload_short (bytes : list byte) (h : PCDheader)
    (R ox : Z) (n i : nat) :
  parseHeader (TextDecoder_decode bytes) = Ok h ->
  data_is h "binary" = true ->
  rowSize h = of_Z R ->
  offset h !! lit "x" = Some (of_Z ox) ->
  0 <= R -> 0 <= ox ->
  iterations (points h) = Some n ->
  Z.of_nat n * R + ox < 2 ^ 53 ->
  (i < n)%nat ->
  Z.of_nat (length bytes) < headerLen h + Z.of_nat i * R + ox + 4 ->
  parse convertSRGBToLinear littleEndian bytes = Throw RangeError.
Proof.
  intros Hh Hb HR Hx HR0 Hx0 Hn Hbound Hi Hshort.
  destruct (parse convertSRGBToLinear littleEndian bytes) as [g|e|] eqn:Hp.
  - exfalso.
    destruct (binary_rows_values convertSRGBToLinear littleEndian bytes h g Hh Hb Hp)
      as (n' & Hn' & Hrows).
    assert (n' = n) as -> by congruence.
    destruct (Hrows i Hi) as (r & (Hpos & _) & _).
    destruct (off_declared h "x" _ Hx) as [Hox Hhas].
    rewrite Hhas, Hox in Hpos. destruct Hpos as (x & y & z & _ & Gx & _).
    assert (HiR : 0 <= Z.of_nat i * R <= Z.of_nat n * R) by nia.
    rewrite (row_start_integer h R i HR HR0 ltac:(lia)) in Gx.
    rewrite add_of_Z in Gx by lia.
    apply getFloat32_inside in Gx; [|lia].
    rewrite length_drop in Gx.
    destruct (headerLen_bounds _ _ Hh) as ([Hlo _] & Hhi). lia.
  - f_equal. exact (parse_binary_throws bytes h e Hh Hb Hp).
  - exfalso.
    destruct (parse_NoReturn_inv convertSRGBToLinear littleEndian bytes Hp)
      as (h' & Hh' & _ & Hnone).
    assert (h' = h) as -> by congruence. congruence.
Qed.

End Truncated.

(** ** A byte order mark *)

Lemma utf8_decode_mark (data : list byte) :
  utf8_decode (byte_order_mark ++ data) 0 0 128 191
  = 65279 :: utf8_decode data 0 0 128 191.
Proof. reflexivity. Qed.

Lemma utf8_decode_ascii_first (b : byte) (rest : list byte) :
  is_ascii b = true ->
  utf8_decode (b :: rest) 0 0 128 191 = byte_val b :: utf8_decode rest 0 0 128 191.
Proof.
  unfold is_ascii. intros Hb. apply Z.ltb_lt in Hb.
  cbn [utf8_decode]. cbv zeta. unfold utf8_lead.
  destruct (Z.leb_spec (byte_val b) 127); [reflexivity|lia].
Qed.

Lemma decode_mark (b : byte) (rest : list byte) :
  is_ascii b = true ->
  TextDecoder_decode (byte_order_mark ++ b :: rest) = TextDecoder_decode (b :: rest).
Proof.
  intros Hb. unfold TextDecoder_decode.
  rewrite utf8_decode_mark, (utf8_decode_ascii_first b rest Hb).
  cbn [Z.eqb Pos.eqb].
  assert (Hne : (byte_val b =? 65279) = false).
  { unfold is_ascii in Hb. apply Z.ltb_lt in Hb. apply Z.eqb_neq. lia. }
  rewrite Hne. reflexivity.
Qed.

(** X27.  A byte order mark before a file that starts with an ASCII
    byte is dropped by the decoder: the text and the header are those
    of the file without it, and so is the header length, although the
    payload now lies three bytes further in the buffer.  An input that
    is neither [binary] nor [binary_compressed] is decoded as without
    the mark; the view of a [binary] payload starts three bytes before
    the payload. *)
Theorem byte_order_mark_not_counted
    (convertSRGBToLinear : num * num * num -> num * num * num)
    (littleEndian : bool) (b : byte) (rest : list byte) :
  is_ascii b = true ->
  TextDecoder_decode (byte_order_mark ++ b :: rest) = TextDecoder_decode (b :: rest) /\
  (forall h,
     parseHeader (TextDecoder_decode (b :: rest)) = Ok h ->
     data_is h "binary" = false -> data_is h "binary_compressed" = false ->
     parse convertSRGBToLinear littleEndian (byte_order_mark ++ b :: rest)
     = parse convertSRGBToLinear littleEndian (b :: rest)) /\
  (forall h,
     parseHeader (TextDecoder_decode (b :: rest)) = Ok h ->
     drop (Z.to_nat (headerLen h)) (byte_order_mark ++ b :: rest)
     = drop (Z.to_nat (headerLen h) - 3) (b :: rest)).
Proof.
  intros Hb. pose proof (decode_mark b rest Hb) as Hdec.
  split; [exact Hdec|]. split.
  - intros h Hh Hbin Hcomp. unfold parse. rewrite Hdec, Hh. cbn [bind].
    rewrite Hbin, Hcomp. reflexivity.
  - intros h Hh. destruct (headerLen_bounds _ _ Hh) as ([Hlo _] & _).
    rewrite drop_app_ge by (cbn [byte_order_mark length]; lia). reflexivity.
Qed.

Lemma binary_payload_short_witness :
  exists h,
    parseHeader (TextDecoder_decode file_binary_cut) = Ok h /\
    headerLen h = 68 /\ length file_binary_cut = 82%nat /\
    parse (fun c => c) true file_binary_cut = Throw RangeError.
Proof.
  let r := eval vm_compute in (parseHeader (TextDecoder_decode file_binary_cut)) in
  lazymatch r with
  | Ok ?h0 =>
      exists h0; split; [vm_compute; reflexivity|];
      split; [vm_compute; reflexivity|]; split; [vm_compute; reflexivity|];
      apply (binary_payload_short (fun c => c) true file_binary_cut h0 12 0 2 1);
      small_side
  end.
Defined.

Lemma byte_order_mark_not_counted_witness :
  is_ascii (hd x00 file_ascii_x) = true /\
  TextDecoder_decode (byte_order_mark ++ file_ascii_x)
  = TextDecoder_decode file_ascii_x /\
  parse (fun c => c) true (byte_order_mark ++ file_ascii_x)
  = parse (fun c => c) true file_ascii_x.
Proof.
  split; [vm_compute; reflexivity|].
  destruct (byte_order_mark_not_counted (fun c => c) true
              (hd x00 file_ascii_x) (tl file_ascii_x))
    as (Htext & Hparse & _); [vm_compute; reflexivity|].
  split; [exact Htext|].
  eapply Hparse; vm_compute; reflexivity.
Defined.

End PCDProofs.
